(** * Chiselcore voxel shape editor: the shape kernel

    A shallow embedding of the connectivity analysis
    ([findConnectedComponents], [isShapeConnected], [validateShape]) and of
    the wire codec and grid resampler ([voxelDataToBinaryString],
    [detectGridSize], [importFromJSON], [convertGridSize],
    [validateJSONFormat]) of the editor, followed by the properties the
    specification states about them; then the state handlers of the editor
    component ([handleVoxelAction], [handleFillCube], [handleClearGrid],
    [handleModeToggle]), the viewport's [calculateAdjacentPosition], and
    further properties of the kernel, the handlers and their interplay.

    Modelling conventions.
    - JavaScript values that flow through the kernel are the inductive
      [jsval]; a voxel array is a [list jsval], read with JavaScript's
      "undefined when out of range" rule ([js_get]).
    - Grid sizes, coordinates and linear indices are mathematical integers
      ([Z]); finite numbers carried by a payload are rationals ([Q]).
      Arrays and strings are lists; allocating an array of more than
      2^32 - 1 cells throws, as [new Array] does.
    - A call either returns, throws, or (for the two [while] loops, which are
      run with a step budget) runs out of budget: the type [outcome].  The
      theorems show the budget is never exhausted.
    - [Math.cbrt] is implementation-approximated in ECMAScript; the
      approximation is a parameter of the codec ([cbrt_impl]).  The
      addition of two doubles in the viewport is a parameter as well
      ([double_add]). *)

From Stdlib Require Import ZArith QArith Qround Ascii Lia Lqa.
From stdpp Require Import gmap strings list pretty.
Close Scope Q_scope.
Local Open Scope Z_scope.

Set Warnings "-register-all".

(** ** JavaScript values *)
Module JS.

Inductive jsval :=
  | JUndefined
  | JNull
  | JBool (b : bool)
  | JNum (q : Q)
  | JNaN
  | JInfinity (negative : bool)
  | JStr (s : string)
  | JArr (items : list jsval)
  | JObj (props : gmap string jsval).

Inductive js_error :=
  | TypeError
  | RangeError
  | Error (message : string).

Inductive outcome (A : Type) :=
  | Returns (a : A)
  | Throws (e : js_error)
  | OutOfFuel.
Arguments Returns {A} a.
Arguments Throws {A} e.
Arguments OutOfFuel {A}.

#[export] Instance outcome_ret : MRet outcome := λ A a, Returns a.
#[export] Instance outcome_bind : MBind outcome := λ A B k m,
  match m with
  | Returns a => k a
  | Throws e => Throws e
  | OutOfFuel => OutOfFuel
  end.

(** ToBoolean: [undefined], [null], [false], [0], [NaN] and the empty string
    are falsy, everything else is truthy. *)
Definition truthy (v : jsval) : bool :=
  match v with
  | JUndefined | JNull | JNaN => false
  | JBool b => b
  | JNum q => negb (Qeq_bool q (inject_Z 0))
  | JInfinity _ => true
  | JStr s => negb (String.eqb s "")
  | JArr _ | JObj _ => true
  end.

(** [a || b] *)
Definition js_or (a b : jsval) : jsval := if truthy a then a else b.

(** [typeof v] *)
Definition typeof (v : jsval) : string :=
  match v with
  | JUndefined => "undefined"
  | JNull | JArr _ | JObj _ => "object"
  | JBool _ => "boolean"
  | JNum _ | JNaN | JInfinity _ => "number"
  | JStr _ => "string"
  end.

(** [v.name] for one of the payload's field names, where the read does not
    throw: an object yields the stored value or [undefined], and no other
    value has such a property. *)
Definition js_field (v : jsval) (name : string) : jsval :=
  match v with
  | JObj props => default JUndefined (props !! name)
  | _ => JUndefined
  end.

(** [v.name] in general: reading a property of [undefined] or [null]
    throws. *)
Definition get_prop (v : jsval) (name : string) : outcome jsval :=
  match v with
  | JUndefined | JNull => Throws TypeError
  | _ => Returns (js_field v name)
  end.

(** [arr[i]] for an integer [i]. *)
Definition js_get (arr : list jsval) (i : Z) : jsval :=
  if i <? 0 then JUndefined else default JUndefined (arr !! Z.to_nat i).

(** [arr[i] = v] for an integer [i]: inside the array the cell is replaced,
    at its end the cell is appended, and a negative [i] leaves the elements
    alone.  A store beyond the end leaves holes in a JavaScript array; they
    are kept here as [undefined] cells, which is what a read, [filter], a
    spread and [length] see of them, but not [map], which skips holes.  The
    properties of the resampler and of the editor take their stores inside
    the array. *)
Definition js_set (arr : list jsval) (i : Z) (v : jsval) : list jsval :=
  if i <? 0 then arr
  else if (Z.to_nat i <? length arr)%nat then <[Z.to_nat i := v]> arr
  else arr ++ replicate (Z.to_nat i - length arr)%nat JUndefined ++ [v].

(** The largest length an array can have, 2^32 - 1. *)
Definition MAX_ARRAY_LENGTH : Z := 4294967295.

(** [new Array(n).fill(v)] for an integer [n]: a length that is negative or
    above the largest array length is a RangeError. *)
Definition new_Array_fill (n : Z) (v : jsval) : outcome (list jsval) :=
  if (n <? 0) || (MAX_ARRAY_LENGTH <? n) then Throws RangeError
  else Returns (replicate (Z.to_nat n) v).

(** [Number.isInteger] on a finite number. *)
Definition Number_isInteger (q : Q) : bool := Qeq_bool (inject_Z (Qfloor q)) q.

(** [Math.round]: the nearest integer, ties towards plus infinity. *)
Definition Math_round (q : Q) : Z := Qfloor (q + (1 # 2))%Q.

(** The values [0], [1], ... , [n - 1] of a counting [for] loop. *)
Definition zrange (n : Z) : list Z := Z.of_nat <$> seq 0 (Z.to_nat n).

End JS.
Export JS.

(** ** Shape validation (connectivity analysis) *)
Module ShapeValidator.

(** A voxel position [{ x, y, z }]. *)
Record pos := Pos { px : Z; py : Z; pz : Z }.

(** The key [`${x},${y},${z}`] under which a position is kept in the
    [visited] set. *)
Definition posKey (x y z : Z) : string :=
  pretty x +:+ "," +:+ pretty y +:+ "," +:+ pretty z.

(** The scan both analyses start with: every coordinate in the order outer
    [x], middle [y], inner [z], keeping the occupied ones. *)
Definition voxelPositions (voxelData : list jsval) (gridSize : Z) : list pos :=
  foldl (λ acc x,
    foldl (λ acc y,
      foldl (λ acc z,
        let index := x + y * gridSize + z * gridSize * gridSize in
        if truthy (js_get voxelData index) then acc ++ [Pos x y z] else acc)
      acc (zrange gridSize))
    acc (zrange gridSize))
  [] (zrange gridSize).

Definition directions : list pos :=
  [ Pos 1 0 0; Pos (-1) 0 0;
    Pos 0 1 0; Pos 0 (-1) 0;
    Pos 0 0 1; Pos 0 0 (-1) ].

(** The [while (queue.length > 0)] loop of [findConnectedComponents], run for
    at most [fuel] iterations; [None] when the budget is used up. *)
Fixpoint componentLoop (fuel : nat) (voxelData : list jsval) (gridSize : Z)
    (queue : list pos) (visited : gset string) (component : list pos)
    : option (gset string * list pos) :=
  match queue with
  | [] => Some (visited, component)
  | current :: queue =>
    match fuel with
    | O => None
    | S fuel =>
      let component := component ++ [current] in
      let '(visited, queue) :=
        foldl (λ '(visited, queue) dir,
          let neighbor := Pos (px current + px dir) (py current + py dir)
                              (pz current + pz dir) in
          if (0 <=? px neighbor) && (px neighbor <? gridSize) &&
             (0 <=? py neighbor) && (py neighbor <? gridSize) &&
             (0 <=? pz neighbor) && (pz neighbor <? gridSize)
          then
            let neighborIndex :=
              px neighbor + py neighbor * gridSize
              + pz neighbor * gridSize * gridSize in
            let neighborKey := posKey (px neighbor) (py neighbor) (pz neighbor) in
            if truthy (js_get voxelData neighborIndex) &&
               negb (bool_decide (neighborKey ∈ visited))
            then ({[neighborKey]} ∪ visited, queue ++ [neighbor])
            else (visited, queue)
          else (visited, queue))
        (visited, queue) directions in
      componentLoop fuel voxelData gridSize queue visited component
    end
  end.

(** The [for (const voxelPos of voxelPositions)] loop of
    [findConnectedComponents]. *)
Fixpoint componentsFrom (fuel : nat) (voxelData : list jsval) (gridSize : Z)
    (positions : list pos) (visited : gset string)
    (components : list (list pos)) : outcome (list (list pos)) :=
  match positions with
  | [] => Returns components
  | voxelPos :: positions =>
    let voxelKey := posKey (px voxelPos) (py voxelPos) (pz voxelPos) in
    if negb (bool_decide (voxelKey ∈ visited)) then
      match componentLoop fuel voxelData gridSize [voxelPos]
              ({[voxelKey]} ∪ visited) [] with
      | None => OutOfFuel
      | Some (visited, component) =>
        componentsFrom fuel voxelData gridSize positions visited
          (components ++ [component])
      end
    else componentsFrom fuel voxelData gridSize positions visited components
  end.

(** [voxelData] is [None] for [null] (or [undefined]) and [Some] array
    otherwise.  Each run of the inner loop gets one iteration per occupied
    position as its budget. *)
Definition findConnectedComponents (voxelData : option (list jsval))
    (gridSize : Z) : outcome (list (list pos)) :=
  match voxelData with
  | None => Returns []
  | Some voxelData =>
    if gridSize <=? 0 then Returns []
    else
      let voxelPositions := voxelPositions voxelData gridSize in
      if (length voxelPositions =? 0)%nat then Returns []
      else componentsFrom (length voxelPositions) voxelData gridSize
             voxelPositions ∅ []
  end.

Record debug_info := {
  componentCount : nat;
  components : list (list pos);
  floatingVoxels : list pos;
  totalVoxels : nat
}.

Definition getConnectivityDebugInfo (voxelData : option (list jsval))
    (gridSize : Z) : outcome debug_info :=
  components ← findConnectedComponents voxelData gridSize;
  let floatingVoxels :=
    if (1 <? length components)%nat then concat (drop 1 components) else [] in
  match voxelData with
  | None => Throws TypeError
  | Some voxelData =>
    Returns {| componentCount := length components;
               components := components;
               floatingVoxels := floatingVoxels;
               totalVoxels := length (filter (λ v, truthy v) voxelData) |}
  end.

Definition isValidPosition (x y z gridSize : Z) : bool :=
  (0 <=? x) && (x <? gridSize) && (0 <=? y) && (y <? gridSize) &&
  (0 <=? z) && (z <? gridSize).

(** [v === s] for a string literal [s]. *)
Definition is_string (v : jsval) (s : string) : bool :=
  match v with JStr t => String.eqb t s | _ => false end.

Definition getNeighbors (x y z : Z) (connectivityType : jsval)
    : list (Z * Z * Z) :=
  let faceDirections :=
    [ (1, 0, 0); (-1, 0, 0);
      (0, 1, 0); (0, -1, 0);
      (0, 0, 1); (0, 0, -1) ] in
  let edgeDirections :=
    [ (1, 1, 0); (1, -1, 0); (-1, 1, 0); (-1, -1, 0);
      (1, 0, 1); (1, 0, -1); (-1, 0, 1); (-1, 0, -1);
      (0, 1, 1); (0, 1, -1); (0, -1, 1); (0, -1, -1) ] in
  let cornerDirections :=
    [ (1, 1, 1); (1, 1, -1); (1, -1, 1); (1, -1, -1);
      (-1, 1, 1); (-1, 1, -1); (-1, -1, 1); (-1, -1, -1) ] in
  let shift := λ '(dx, dy, dz), (x + dx, y + dy, z + dz) in
  let neighbors := shift <$> faceDirections in
  let neighbors :=
    if is_string connectivityType "edge" || is_string connectivityType "corner"
    then neighbors ++ (shift <$> edgeDirections) else neighbors in
  let neighbors :=
    if is_string connectivityType "corner"
    then neighbors ++ (shift <$> cornerDirections) else neighbors in
  neighbors.

(** The [while (queue.length > 0)] loop of [isShapeConnected]. *)
Fixpoint connectedLoop (fuel : nat) (voxelData : list jsval) (gridSize : Z)
    (connectivityType : jsval) (queue : list pos) (visited : gset string)
    : option (gset string) :=
  match queue with
  | [] => Some visited
  | current :: queue =>
    match fuel with
    | O => None
    | S fuel =>
      let neighbors :=
        getNeighbors (px current) (py current) (pz current) connectivityType in
      let '(visited, queue) :=
        foldl (λ '(visited, queue) '(nx, ny, nz),
          if isValidPosition nx ny nz gridSize then
            let neighborIndex := nx + ny * gridSize + nz * gridSize * gridSize in
            let neighborKey := posKey nx ny nz in
            if truthy (js_get voxelData neighborIndex) &&
               negb (bool_decide (neighborKey ∈ visited))
            then ({[neighborKey]} ∪ visited, queue ++ [Pos nx ny nz])
            else (visited, queue)
          else (visited, queue))
        (visited, queue) neighbors in
      connectedLoop fuel voxelData gridSize connectivityType queue visited
    end
  end.

(** A parameter declared [connectivityType = 'face']: an [undefined]
    argument is replaced by the default. *)
Definition defaultFace (connectivityType : jsval) : jsval :=
  match connectivityType with JUndefined => JStr "face" | v => v end.

Definition isShapeConnected (voxelData : option (list jsval)) (gridSize : Z)
    (connectivityType : jsval) : outcome bool :=
  let connectivityType := defaultFace connectivityType in
  match voxelData with
  | None => Returns false
  | Some voxelData =>
    if gridSize <=? 0 then Returns false
    else
      let voxelPositions := voxelPositions voxelData gridSize in
      match voxelPositions with
      | [] => Returns false
      | [_] => Returns true
      | first :: _ =>
        let queue := [first] in
        let visited := {[posKey (px first) (py first) (pz first)]} ∪ ∅ in
        match connectedLoop (length voxelPositions) voxelData gridSize
                connectivityType queue visited with
        | None => OutOfFuel
        | Some visited =>
          Returns (bool_decide (size visited = length voxelPositions))
        end
      end
  end.

Definition isShapeUniform (voxelData : option (list jsval)) (gridSize : Z)
    (connectivityType : jsval) : outcome bool :=
  isShapeConnected voxelData gridSize (defaultFace connectivityType).

Record validation := {
  hasVoxels : bool;
  isConnected : bool;
  isUniform : bool;
  voxelCount : nat;
  isValid : bool;
  errors : list string;
  debugInfo : debug_info;
  connectivityType : jsval
}.

Definition validateShape (voxelData : option (list jsval)) (gridSize : Z)
    (connectivityType : jsval) : outcome validation :=
  let connectivityType := defaultFace connectivityType in
  match voxelData with
  | None => Throws TypeError
  | Some cells =>
    let voxelCount := length (filter (λ voxel, truthy voxel) cells) in
    debugInfo ← getConnectivityDebugInfo voxelData gridSize;
    let hasVoxels := (0 <? voxelCount)%nat in
    if negb hasVoxels then
      Returns {| hasVoxels := hasVoxels; isConnected := false;
                 isUniform := false; voxelCount := voxelCount;
                 isValid := false;
                 errors := ["Shape must have at least one voxel"];
                 debugInfo := debugInfo;
                 connectivityType := connectivityType |}
    else
      isConnected ← isShapeConnected voxelData gridSize connectivityType;
      let isUniform := isConnected in
      let errors :=
        if negb isConnected then
          if (1 <? componentCount debugInfo)%nat then
            let connectivityDesc :=
              if is_string connectivityType "face" then "by faces"
              else if is_string connectivityType "edge" then "by faces and edges"
              else "by faces, edges and corners" in
            [ "All voxels must be connected " +:+ connectivityDesc +:+
              " (found " +:+ pretty (componentCount debugInfo) +:+
              " separate parts)";
              "Floating voxels: " +:+
              pretty (length (floatingVoxels debugInfo)) +:+ " voxels in " +:+
              pretty (componentCount debugInfo - 1)%nat +:+ " groups" ]
          else ["All voxels must be connected (no floating parts)"]
        else [] in
      Returns {| hasVoxels := hasVoxels; isConnected := isConnected;
                 isUniform := isUniform; voxelCount := voxelCount;
                 isValid := hasVoxels && isConnected && isUniform;
                 errors := errors;
                 debugInfo := debugInfo;
                 connectivityType := connectivityType |}
  end.

End ShapeValidator.
Export ShapeValidator.

(** ** Wire codec and grid resampling *)
Module ShapeSerializer.

Definition voxelDataToBinaryString (voxelData : list jsval) : string :=
  String.concat "" ((λ voxel, if truthy voxel then "1" else "0") <$> voxelData).

(** [s.split('')]: the characters of [s], each as a string. *)
Definition split_chars (s : string) : list string :=
  (λ c, String c "") <$> String.list_ascii_of_string s.

Definition binaryStringToVoxelData (binaryString : string) : list jsval :=
  (λ bit, JBool (String.eqb bit "1")) <$> split_chars binaryString.

Record shape_metadata := { difficulty : jsval; maxMoves : jsval }.

Record imported := {
  voxelData : list jsval;
  gridSize : Z;
  metadata : shape_metadata
}.

Record converted := {
  conv_voxelData : list jsval;
  conv_gridSize : Z;
  conv_metadata : shape_metadata;
  originalGridSize : option Z;
  wasConverted : bool
}.

Record format_result := { fmt_isValid : bool; fmt_errors : list string }.

Section WithCbrt.

(** The engine's approximation of the cube root of a positive integer. *)
Variable cbrt_impl : Z → Q.

(** [Math.cbrt] on a non-negative integer: zero is returned as it is, any
    other argument goes to the engine's approximation. *)
Definition Math_cbrt (n : Z) : Q :=
  if n =? 0 then inject_Z 0 else cbrt_impl n.

Definition detectGridSize (binaryString : string) : outcome Z :=
  let length := Z.of_nat (String.length binaryString) in
  let cubeRoot := Math_round (Math_cbrt length) in
  if cubeRoot * cubeRoot * cubeRoot =? length then Returns cubeRoot
  else Throws (Error ("Binary string length (" +:+ pretty length +:+
                      ") is not a perfect cube")).

Definition exportToJSON (voxelData : list jsval) (metadata : shape_metadata)
    : jsval :=
  let binaryString := voxelDataToBinaryString voxelData in
  JObj (<["voxelDataString" := JStr binaryString]>
        (<["difficulty" := js_or (difficulty metadata) (JNum (inject_Z 5))]>
         (<["maxMoves" := js_or (maxMoves metadata) (JNum (inject_Z 50))]> ∅))).

(** Only a string has a [split] method and a [length] that is a number, so
    any other [voxelDataString] makes the first call throw. *)
Definition importFromJSON (jsonData : jsval) : outcome imported :=
  voxelDataString ← get_prop jsonData "voxelDataString";
  match voxelDataString with
  | JStr binaryString =>
    let voxelData := binaryStringToVoxelData binaryString in
    gridSize ← detectGridSize binaryString;
    Returns {| voxelData := voxelData;
               gridSize := gridSize;
               metadata :=
                 {| difficulty :=
                      js_or (js_field jsonData "difficulty") (JNum (inject_Z 5));
                    maxMoves :=
                      js_or (js_field jsonData "maxMoves") (JNum (inject_Z 50)) |} |}
  | _ => Throws TypeError
  end.

Definition convertGridSize (voxelData : list jsval)
    (fromGridSize toGridSize : Z) : outcome (list jsval) :=
  newVoxelData ←
    new_Array_fill (toGridSize * toGridSize * toGridSize) (JBool false);
  if fromGridSize <=? toGridSize then
    let offset := (toGridSize - fromGridSize) `div` 2 in
    Returns
      (foldl (λ newVoxelData x,
         foldl (λ newVoxelData y,
           foldl (λ newVoxelData z,
             let oldIndex :=
               x + y * fromGridSize + z * fromGridSize * fromGridSize in
             let newX := x + offset in
             let newY := y + offset in
             let newZ := z + offset in
             let newIndex :=
               newX + newY * toGridSize + newZ * toGridSize * toGridSize in
             js_set newVoxelData newIndex (js_get voxelData oldIndex))
           newVoxelData (zrange fromGridSize))
         newVoxelData (zrange fromGridSize))
       newVoxelData (zrange fromGridSize))
  else
    let offset := (fromGridSize - toGridSize) `div` 2 in
    Returns
      (foldl (λ newVoxelData x,
         foldl (λ newVoxelData y,
           foldl (λ newVoxelData z,
             let oldX := x + offset in
             let oldY := y + offset in
             let oldZ := z + offset in
             if (oldX <? fromGridSize) && (oldY <? fromGridSize) &&
                (oldZ <? fromGridSize)
             then
               let oldIndex :=
                 oldX + oldY * fromGridSize
                 + oldZ * fromGridSize * fromGridSize in
               let newIndex := x + y * toGridSize + z * toGridSize * toGridSize in
               js_set newVoxelData newIndex (js_get voxelData oldIndex)
             else newVoxelData)
           newVoxelData (zrange toGridSize))
         newVoxelData (zrange toGridSize))
       newVoxelData (zrange toGridSize)).

Definition importFromJSONWithGridConversion (jsonData : jsval)
    (targetGridSize : Z) : outcome converted :=
  importedData ← importFromJSON jsonData;
  if gridSize importedData =? targetGridSize then
    Returns {| conv_voxelData := voxelData importedData;
               conv_gridSize := gridSize importedData;
               conv_metadata := metadata importedData;
               originalGridSize := None;
               wasConverted := false |}
  else
    convertedVoxelData ←
      convertGridSize (voxelData importedData) (gridSize importedData)
        targetGridSize;
    Returns {| conv_voxelData := convertedVoxelData;
               conv_gridSize := targetGridSize;
               conv_metadata := metadata importedData;
               originalGridSize := Some (gridSize importedData);
               wasConverted := true |}.

(** [/^[01]+$/.test(s)] *)
Definition test_binary (s : string) : bool :=
  negb (String.eqb s "") &&
  forallb (λ c, Ascii.eqb c "0"%char || Ascii.eqb c "1"%char) (String.list_ascii_of_string s).

(** The string a value holds; only used on values whose [typeof] is
    ["string"]. *)
Definition string_of (v : jsval) : string :=
  match v with JStr s => s | _ => "" end.

(** [!Number.isInteger(v) || v < lo || v > hi]; [Number.isInteger] is false
    for everything that is not a finite number. *)
Definition notIntegerIn (v : jsval) (lo hi : Z) : bool :=
  match v with
  | JNum q =>
    negb (Number_isInteger q) ||
    negb (Qle_bool (inject_Z lo) q) || negb (Qle_bool q (inject_Z hi))
  | _ => true
  end.

Definition validateJSONFormat (jsonData : jsval) : format_result :=
  if negb (String.eqb (typeof jsonData) "object") ||
     match jsonData with JNull => true | _ => false end
  then {| fmt_isValid := false; fmt_errors := ["JSON must be an object"] |}
  else
    let voxelDataString := js_field jsonData "voxelDataString" in
    let errors :=
      if negb (truthy voxelDataString) ||
         negb (String.eqb (typeof voxelDataString) "string")
      then ["Missing or invalid voxelDataString field"]
      else
        if negb (test_binary (string_of voxelDataString))
        then ["voxelDataString must contain only 0 and 1"]
        else
          let length := Z.of_nat (String.length (string_of voxelDataString)) in
          let cubeRoot := Math_round (Math_cbrt length) in
          if negb (cubeRoot * cubeRoot * cubeRoot =? length)
          then ["voxelDataString length (" +:+ pretty length +:+
                ") is not a perfect cube"]
          else [] in
    let errors :=
      if notIntegerIn (js_field jsonData "difficulty") 1 10
      then errors ++ ["difficulty must be an integer from 1 to 10"]
      else errors in
    let errors :=
      if notIntegerIn (js_field jsonData "maxMoves") 1 999
      then errors ++ ["maxMoves must be an integer from 1 to 999"]
      else errors in
    {| fmt_isValid := (length errors =? 0)%nat; fmt_errors := errors |}.

End WithCbrt.

End ShapeSerializer.
Export ShapeSerializer.


(** ** Vocabulary of the specification *)

(** *** Cells, coordinates and indices *)

(** A boolean cell. *)
Definition is_boolean (v : jsval) : Prop := ∃ b, v = JBool b.

(** The character the encoder writes for a cell. *)
Definition bit_of (cell : jsval) : ascii :=
  if truthy cell then "1"%char else "0"%char.

(** The linear index [x + y*N + z*N*N] of a coordinate. *)
Definition index (gridSize : Z) (p : pos) : Z :=
  px p + py p * gridSize + pz p * gridSize * gridSize.

(** A coordinate inside the grid. *)
Definition inGrid (gridSize : Z) (p : pos) : Prop :=
  0 <= px p < gridSize ∧ 0 <= py p < gridSize ∧ 0 <= pz p < gridSize.

(** All coordinates of the grid in scan order. *)
Definition coords (gridSize : Z) : list pos :=
  x ← zrange gridSize; y ← zrange gridSize; z ← zrange gridSize; [Pos x y z].

(** An occupied position: inside the grid, with a truthy cell. *)
Definition occupied (voxelData : list jsval) (gridSize : Z) (p : pos) : Prop :=
  inGrid gridSize p ∧ truthy (js_get voxelData (index gridSize p)) = true.

(** The key of a position in the [visited] set. *)
Definition key (p : pos) : string := posKey (px p) (py p) (pz p).

Fixpoint comma_free (s : string) : Prop :=
  match s with
  | EmptyString => True
  | String c s => c ≠ ","%char ∧ comma_free s
  end.

(** Two small grids of size 2 used as examples: two opposite corners, and
    two cells sharing a face. *)
Definition diagonalGrid : list jsval :=
  [JBool true; JBool false; JBool false; JBool false;
   JBool false; JBool false; JBool false; JBool true].

Definition lineGrid : list jsval :=
  [JBool true; JBool true; JBool false; JBool false;
   JBool false; JBool false; JBool false; JBool false].

(** The plus shape of five voxels in a grid of size 3. *)
Definition plusGrid : list jsval :=
  (λ i : nat, JBool (bool_decide (i ∈ [10; 12; 13; 14; 16]%nat)))
  <$> seq 0 27.

(** The completely filled grid of a given size. *)
Definition filled (n : Z) : list jsval :=
  replicate (Z.to_nat (n * n * n)) (JBool true).

(** *** Flood fill *)

(** The body of the loop over the neighbours of the current position, as
    both [while] loops have it. *)
Definition visit (voxelData : list jsval) (gridSize : Z)
    (st : gset string * list pos) (n : pos) : gset string * list pos :=
  if isValidPosition (px n) (py n) (pz n) gridSize then
    if truthy (js_get voxelData (index gridSize n)) &&
       negb (bool_decide (key n ∈ st.1))
    then ({[key n]} ∪ st.1, st.2 ++ [n])
    else st
  else st.

(** A flood fill over an arbitrary neighbourhood [nbrs]. *)
Fixpoint flood (voxelData : list jsval) (gridSize : Z)
    (nbrs : pos → list pos) (fuel : nat) (queue : list pos)
    (visited : gset string) (component : list pos)
    : option (gset string * list pos) :=
  match queue with
  | [] => Some (visited, component)
  | current :: queue =>
    match fuel with
    | O => None
    | S fuel =>
      let st := foldl (visit voxelData gridSize) (visited, queue) (nbrs current) in
      flood voxelData gridSize nbrs fuel st.2 st.1 (component ++ [current])
    end
  end.

(** The neighbourhood of [findConnectedComponents]. *)
Definition faceNbrs (current : pos) : list pos :=
  (λ dir, Pos (px current + px dir) (py current + py dir) (pz current + pz dir))
  <$> directions.

(** The neighbourhood of [isShapeConnected] under a rule. *)
Definition ruleNbrs (connectivityType : jsval) (current : pos) : list pos :=
  (λ '(nx, ny, nz), Pos nx ny nz)
  <$> getNeighbors (px current) (py current) (pz current) connectivityType.

(** [seen] lists, without repetition, the occupied positions whose keys make
    up [visited]. *)
Definition seen_ok (voxelData : list jsval) (gridSize : Z)
    (visited : gset string) (seen : list pos) : Prop :=
  NoDup seen ∧ (∀ p, p ∈ seen → occupied voxelData gridSize p) ∧
  (∀ k, k ∈ visited ↔ ∃ p, p ∈ seen ∧ key p = k).

Definition occupiedKeys (voxelData : list jsval) (gridSize : Z) : gset string :=
  list_to_set (key <$> voxelPositions voxelData gridSize).

(** Iterations still to come: unvisited occupied positions plus the length
    of the queue. *)
Definition todo (voxelData : list jsval) (gridSize : Z)
    (visited : gset string) (queue : list pos) : nat :=
  (size (occupiedKeys voxelData gridSize ∖ visited) + length queue)%nat.

(** What holds of a component while it is being filled; [property] is any
    property that the seed has and that steps to occupied neighbours
    preserve, [done] the positions of the components found before. *)
Definition filling (voxelData : list jsval) (gridSize : Z)
    (nbrs : pos → list pos) (property : pos → Prop) (done : list pos)
    (queue : list pos) (visited : gset string) (component : list pos) : Prop :=
  seen_ok voxelData gridSize visited (done ++ component ++ queue)
  ∧ (∀ p n, p ∈ component → n ∈ nbrs p → occupied voxelData gridSize n →
       n ∈ done ++ component ++ queue)
  ∧ (∀ p, p ∈ component ++ queue → property p).

(** Positions reachable from [seed] by steps to occupied neighbours. *)
Inductive reach (voxelData : list jsval) (gridSize : Z)
    (nbrs : pos → list pos) (seed : pos) : pos → Prop :=
  | reach_seed : reach voxelData gridSize nbrs seed seed
  | reach_step p n :
      reach voxelData gridSize nbrs seed p → n ∈ nbrs p →
      occupied voxelData gridSize n → reach voxelData gridSize nbrs seed n.

(** *** Resampling *)

(** A loop that stores [val p] at [idx p] for every [p] of a list. *)
Definition stores {A : Type} (idx : A → Z) (val : A → jsval)
    (arr : list jsval) (ps : list A) : list jsval :=
  foldl (λ arr p, js_set arr (idx p) (val p)) arr ps.

Definition shift (offset : Z) (p : pos) : pos :=
  Pos (px p + offset) (py p + offset) (pz p + offset).

(** The target array before any cell is copied. *)
Definition blank (n : Z) : list jsval :=
  replicate (Z.to_nat (n * n * n)) (JBool false).

(** *** The cube root *)

Definition cube (x : Q) : Q := (x * x * x)%Q.

(** The engine's cube root is within one half of the true cube root. *)
Definition cbrt_accurate (cbrt_impl : Z → Q) : Prop :=
  ∀ n : Z, 0 < n →
    (cube (cbrt_impl n - (1 # 2)) < inject_Z n)%Q ∧
    (inject_Z n < cube (cbrt_impl n + (1 # 2)))%Q.

(** The rounded cube root [detectGridSize] computes for a string. *)
Definition roundedCubeRoot (cbrt_impl : Z → Q) (s : string) : Z :=
  Math_round (Math_cbrt cbrt_impl (Z.of_nat (String.length s))).

(** A concrete cube root: the integer nearest to the true cube root, found
    by counting up. *)
Fixpoint cbrt_search (fuel : nat) (k n : Z) : Z :=
  match fuel with
  | O => k
  | S fuel =>
    if 8 * n <? (2 * k + 1) * (2 * k + 1) * (2 * k + 1) then k
    else cbrt_search fuel (k + 1) n
  end.

Definition nearest_cbrt (n : Z) : Q := inject_Z (cbrt_search (Z.to_nat n) 0 n).

(** *** Format errors *)

Definition difficultyErrors (payload : jsval) : list string :=
  if notIntegerIn (js_field payload "difficulty") 1 10
  then ["difficulty must be an integer from 1 to 10"] else [].

Definition maxMovesErrors (payload : jsval) : list string :=
  if notIntegerIn (js_field payload "maxMoves") 1 999
  then ["maxMoves must be an integer from 1 to 999"] else [].

(** *** Counting and adjacency *)

(** Positions are compared by their coordinates. *)
#[export] Instance pos_eq_dec : EqDecision pos.
Proof. solve_decision. Defined.

(** The number of occupied cells, as [voxelData.filter(v => v).length]. *)
Definition occupiedCount (voxelData : list jsval) : nat :=
  length (filter (λ v, truthy v) voxelData).

(** How far a rule lets a step go: the number of axes along which a
    neighbour may differ. *)
Definition ruleSpan (connectivityType : jsval) : Z :=
  if is_string connectivityType "corner" then 3
  else if is_string connectivityType "edge" then 2 else 1.

(** One step of at most [span] axes, by one cell along each. *)
Definition adjacent (span : Z) (p q : pos) : Prop :=
  Z.abs (px q - px p) <= 1 ∧ Z.abs (py q - py p) <= 1
  ∧ Z.abs (pz q - pz p) <= 1
  ∧ 1 <= Z.abs (px q - px p) + Z.abs (py q - py p) + Z.abs (pz q - pz p)
       <= span.

Ltac pick_disjunct :=
  solve [repeat first [left; reflexivity | right]].

(** *** Components *)

(** A component is led by an occupied seed and holds exactly the positions
    reachable from it by steps across faces. *)
Definition faceClass (voxelData : list jsval) (gridSize : Z)
    (component : list pos) : Prop :=
  ∃ seed rest,
    component = seed :: rest ∧ occupied voxelData gridSize seed
    ∧ ∀ p, p ∈ component ↔ reach voxelData gridSize faceNbrs seed p.

(** ** The editor component *)
Module App.

(** The component's state: the four [useState] cells. *)
Record app_state := {
  voxelData : list jsval;
  voxelMode : string;
  statusMessage : string;
  shapeMetadata : shape_metadata
}.

Section WithGridSize.

(** The component's constant [gridSize], over which its handlers close. *)
Variable gridSize : Z.

Definition initializeFilledCube : outcome (list jsval) :=
  let size := gridSize * gridSize * gridSize in
  new_Array_fill size (JBool true).

(** The state of the first render. *)
Definition initialState : outcome app_state :=
  voxelData ← initializeFilledCube;
  Returns {| voxelData := voxelData;
             voxelMode := "add";
             statusMessage :=
               "Ready - Left click to add voxels, right click to rotate camera";
             shapeMetadata := {| difficulty := JNum (inject_Z 5);
                                 maxMoves := JNum (inject_Z 50) |} |}.

Definition voxelCount (st : app_state) : nat :=
  length (filter (λ voxel, truthy voxel) (voxelData st)).

Definition getVoxelIndex (x y z : Z) : Z :=
  x + y * gridSize + z * gridSize * gridSize.

Definition handleVoxelAction (x y z : Z) (st : app_state) : app_state :=
  let index := getVoxelIndex x y z in
  let prevData := voxelData st in
  let newData := prevData in
  if String.eqb (voxelMode st) "add" then
    {| voxelData := js_set newData index (JBool true);
       voxelMode := voxelMode st;
       statusMessage :=
         "Added voxel at (" +:+ pretty x +:+ ", " +:+ pretty y +:+ ", " +:+
         pretty z +:+ ")";
       shapeMetadata := shapeMetadata st |}
  else if String.eqb (voxelMode st) "remove" then
    let currentVoxelCount :=
      length (filter (λ voxel, truthy voxel) prevData) in
    if (currentVoxelCount <=? 1)%nat then
      {| voxelData := prevData;
         voxelMode := voxelMode st;
         statusMessage :=
           "Cannot remove last voxel - shape must have at least one voxel";
         shapeMetadata := shapeMetadata st |}
    else
      {| voxelData := js_set newData index (JBool false);
         voxelMode := voxelMode st;
         statusMessage :=
           "Removed voxel at (" +:+ pretty x +:+ ", " +:+ pretty y +:+ ", " +:+
           pretty z +:+ ")";
         shapeMetadata := shapeMetadata st |}
  else
    {| voxelData := newData;
       voxelMode := voxelMode st;
       statusMessage := statusMessage st;
       shapeMetadata := shapeMetadata st |}.

Definition handleFillCube (st : app_state) : outcome app_state :=
  voxelData ← initializeFilledCube;
  Returns {| voxelData := voxelData;
             voxelMode := voxelMode st;
             statusMessage := "Filled entire cube";
             shapeMetadata := shapeMetadata st |}.

Definition handleClearGrid (st : app_state) : outcome app_state :=
  let size := gridSize * gridSize * gridSize in
  newData ← new_Array_fill size (JBool false);
  let centerX := gridSize `div` 2 in
  let centerY := gridSize `div` 2 in
  let centerZ := gridSize `div` 2 in
  let centerIndex :=
    centerX + centerY * gridSize + centerZ * gridSize * gridSize in
  let newData := js_set newData centerIndex (JBool true) in
  Returns {| voxelData := newData;
             voxelMode := voxelMode st;
             statusMessage :=
               "Cleared shape - center voxel remains at (" +:+ pretty centerX
               +:+ ", " +:+ pretty centerY +:+ ", " +:+ pretty centerZ +:+ ")";
             shapeMetadata := shapeMetadata st |}.

Definition handleMetadataChange (newMetadata : shape_metadata)
    (st : app_state) : app_state :=
  {| voxelData := voxelData st;
     voxelMode := voxelMode st;
     statusMessage := statusMessage st;
     shapeMetadata := newMetadata |}.

Definition handleModeToggle (st : app_state) : app_state :=
  let prevMode := voxelMode st in
  let newMode := if String.eqb prevMode "add" then "remove" else "add" in
  let modeText := if String.eqb newMode "add" then "add" else "remove" in
  let actionText := if String.eqb newMode "add" then "add" else "remove" in
  {| voxelData := voxelData st;
     voxelMode := newMode;
     statusMessage :=
       "Switched to " +:+ modeText +:+ " mode - Left click to " +:+ actionText
       +:+ " voxels, right click to rotate camera";
     shapeMetadata := shapeMetadata st |}.

(** What the toolbar and the viewport can ask of the component, and the
    handler each request is wired to. *)
Inductive event :=
  | FillCube
  | ClearGrid
  | VoxelAction (x y z : Z)
  | MetadataChange (newMetadata : shape_metadata)
  | ModeToggle.

Definition dispatch (st : app_state) (e : event) : outcome app_state :=
  match e with
  | FillCube => handleFillCube st
  | ClearGrid => handleClearGrid st
  | VoxelAction x y z => Returns (handleVoxelAction x y z st)
  | MetadataChange newMetadata => Returns (handleMetadataChange newMetadata st)
  | ModeToggle => Returns (handleModeToggle st)
  end.

Fixpoint run (st : app_state) (events : list event) : outcome app_state :=
  match events with
  | [] => Returns st
  | e :: events => st ← dispatch st e; run st events
  end.

End WithGridSize.

(** The size the editor runs at. *)
Definition gridSize : Z := 7.

End App.

(** A request of the viewport names a cell of the grid. *)
Definition inGridEvent (gridSize : Z) (e : App.event) : Prop :=
  match e with
  | App.VoxelAction x y z => inGrid gridSize (Pos x y z)
  | _ => True
  end.

(** What the editor keeps true of its state. *)
Definition editorInvariant (gridSize : Z) (st : App.app_state) : Prop :=
  Z.of_nat (length (App.voxelData st)) = gridSize * gridSize * gridSize
  ∧ Forall is_boolean (App.voxelData st)
  ∧ (1 <= App.voxelCount st)%nat
  ∧ (App.voxelMode st = "add" ∨ App.voxelMode st = "remove").

(** The centre cell [handleClearGrid] keeps. *)
Definition centre (gridSize : Z) : pos :=
  Pos (gridSize `div` 2) (gridSize `div` 2) (gridSize `div` 2).

(** ** The viewport's click target *)
Module SimpleVoxelViewport.

(** What [calculateAdjacentPosition] reads of a raycast hit: the normal of
    the face that was hit, if the hit has a face, and the grid position kept
    in the [userData] of the voxel mesh. *)
Record raycast_hit := {
  face : option (Q * Q * Q);
  position : Z * Z * Z
}.

Section WithDoubleAdd.

(** The engine's [+] on two finite numbers: the sum of two doubles, rounded
    to a double again.  Numbers are given as the rationals they are. *)
Variable double_add : Q → Q → Q.

Definition calculateAdjacentPosition (intersection : raycast_hit)
    (gridSize : Z) : option pos :=
  match face intersection with
  | None => None
  | Some (nx, ny, nz) =>
    let '(p0, p1, p2) := position intersection in
    let adjacentPos :=
      Pos (Math_round (double_add (inject_Z p0) nx))
          (Math_round (double_add (inject_Z p1) ny))
          (Math_round (double_add (inject_Z p2) nz)) in
    if (0 <=? px adjacentPos) && (px adjacentPos <? gridSize) &&
       (0 <=? py adjacentPos) && (py adjacentPos <? gridSize) &&
       (0 <=? pz adjacentPos) && (pz adjacentPos <? gridSize)
    then Some adjacentPos
    else None
  end.

End WithDoubleAdd.

End SimpleVoxelViewport.

(** The largest integer n such that n and n + 1 are both doubles,
    2^53 - 1. *)
Definition MAX_SAFE_INTEGER : Z := 9007199254740991.

(** Doubles hold the integers up to [MAX_SAFE_INTEGER] in magnitude, and a
    sum of two of them that is such an integer again is computed without
    rounding. *)
Definition double_add_exact (double_add : Q → Q → Q) : Prop :=
  ∀ a b : Z,
    Z.abs a <= MAX_SAFE_INTEGER → Z.abs b <= MAX_SAFE_INTEGER →
    Z.abs (a + b) <= MAX_SAFE_INTEGER →
    (double_add (inject_Z a) (inject_Z b) == inject_Z (a + b))%Q.

(** * Properties of the codec *)

(** ** Binary strings *)

Lemma concat_empty_cons (x : string) (xs : list string) :
  String.concat "" (x :: xs) = x +:+ String.concat "" xs.
Proof.
  destruct xs as [|y ys]; simpl.
  - induction x as [|a x IH]; [done|].
    change (String a x = String a (x +:+ "")). by rewrite <- IH.
  - reflexivity.
Qed.

Lemma voxelDataToBinaryString_cons (cell : jsval) (grid : list jsval) :
  voxelDataToBinaryString (cell :: grid)
  = String (bit_of cell) (voxelDataToBinaryString grid).
Proof.
  unfold voxelDataToBinaryString, bit_of. rewrite fmap_cons, concat_empty_cons.
  by destruct (truthy cell).
Qed.

Lemma voxelDataToBinaryString_length (grid : list jsval) :
  String.length (voxelDataToBinaryString grid) = length grid.
Proof.
  induction grid as [|c g IH]; [done|].
  rewrite voxelDataToBinaryString_cons. simpl. by rewrite IH.
Qed.

Lemma voxelDataToBinaryString_get (grid : list jsval) (i : nat) (cell : jsval) :
  grid !! i = Some cell →
  String.get i (voxelDataToBinaryString grid) = Some (bit_of cell).
Proof.
  revert i. induction grid as [|c g IH]; intros [|i] H; try done;
    rewrite voxelDataToBinaryString_cons; simpl in *.
  - by simplify_eq.
  - by apply IH.
Qed.

Lemma binaryStringToVoxelData_cons (c : ascii) (s : string) :
  binaryStringToVoxelData (String c s)
  = JBool (Ascii.eqb c "1"%char) :: binaryStringToVoxelData s.
Proof.
  unfold binaryStringToVoxelData, split_chars. simpl. f_equal. f_equal.
  by destruct (Ascii.eqb c "1"%char).
Qed.

(** Decoding an encoded array yields the truth value of every cell. *)
Lemma round_trip_truthy (grid : list jsval) :
  binaryStringToVoxelData (voxelDataToBinaryString grid)
  = (λ cell, JBool (truthy cell)) <$> grid.
Proof.
  induction grid as [|c g IH]; [done|].
  rewrite voxelDataToBinaryString_cons, binaryStringToVoxelData_cons, IH.
  rewrite fmap_cons. f_equal. unfold bit_of. by destruct (truthy c).
Qed.

(** C5: for a boolean array, the binary string has one character per cell,
    in index order, ['1'] for an occupied cell and ['0'] otherwise, so its
    length is the array's length; and decoding the string gives the array
    back, cell for cell. *)
Theorem binary_string_round_trip (grid : list jsval) :
  Forall is_boolean grid →
  String.length (voxelDataToBinaryString grid) = length grid
  ∧ (∀ (i : nat) cell, grid !! i = Some cell →
       String.get i (voxelDataToBinaryString grid)
       = Some (if truthy cell then "1" else "0")%char)
  ∧ binaryStringToVoxelData (voxelDataToBinaryString grid) = grid.
Proof.
  intros Hbool. split; [apply voxelDataToBinaryString_length|].
  split; [intros i cell; apply voxelDataToBinaryString_get|].
  rewrite round_trip_truthy.
  induction Hbool as [|c g [b ->] _ IH]; [done|].
  rewrite fmap_cons, IH. done.
Qed.

Lemma binary_string_round_trip_witness :
  let grid := [JBool true; JBool false; JBool true] in
  Forall is_boolean grid ∧
  binaryStringToVoxelData (voxelDataToBinaryString grid) = grid.
Proof.
  split.
  - repeat constructor; eexists; reflexivity.
  - apply (binary_string_round_trip [JBool true; JBool false; JBool true]).
    repeat constructor; eexists; reflexivity.
Defined.

(** ** Grid size detection *)

Lemma cube_le (x y : Q) : (x <= y)%Q → (cube x <= cube y)%Q.
Proof.
  intros Hxy. unfold cube.
  assert (0 <= (y - x) * ((x + y) * (x + y) + x * x + y * y))%Q as H.
  { apply Qmult_le_0_compat; [lra|nra]. }
  lra.
Qed.

Lemma cube_inject_Z (n : Z) : (cube (inject_Z n) == inject_Z (n * n * n))%Q.
Proof. unfold cube. by rewrite !inject_Z_mult. Qed.

Lemma Math_round_unique (q : Q) (n : Z) :
  (inject_Z n <= q + (1 # 2))%Q → (q + (1 # 2) < inject_Z (n + 1))%Q →
  Math_round q = n.
Proof.
  intros Hlo Hhi. unfold Math_round.
  apply Qfloor_resp_le in Hlo. rewrite Qfloor_Z in Hlo.
  assert (Qfloor (q + (1 # 2)) < n + 1); [|lia].
  apply Z.lt_nge. intros Hge.
  apply (Qlt_not_le _ _ Hhi).
  eapply Qle_trans; [|apply Qfloor_le]. by rewrite <- Zle_Qle.
Qed.

(** Rounding an accurate cube root of a perfect cube gives its root. *)
Lemma Math_round_cbrt_cube (cbrt_impl : Z → Q) (n : Z) :
  cbrt_accurate cbrt_impl → 0 <= n →
  Math_round (Math_cbrt cbrt_impl (n * n * n)) = n.
Proof.
  intros Hacc Hn. unfold Math_cbrt.
  destruct (Z.eqb_spec (n * n * n) 0) as [H0|H0].
  - assert (n = 0) as -> by nia. reflexivity.
  - destruct (Hacc (n * n * n)) as [Hlo Hhi]; [nia|].
    set (c := cbrt_impl (n * n * n)) in *.
    rewrite <- cube_inject_Z in Hlo, Hhi.
    apply Math_round_unique.
    + apply Qnot_lt_le. intros Hlt. apply Qlt_le_weak, cube_le in Hlt.
      by apply Qle_not_lt in Hlt.
    + apply Qnot_le_lt. intros Hle.
      assert (inject_Z n <= c - (1 # 2))%Q as Hle1.
      { rewrite inject_Z_plus in Hle. change (inject_Z 1) with 1%Q in Hle. lra. }
      apply cube_le in Hle1. by apply Qle_not_lt in Hle1.
Qed.

Lemma detectGridSize_returns (cbrt_impl : Z → Q) (s : string) (n : Z) :
  detectGridSize cbrt_impl s = Returns n → n = roundedCubeRoot cbrt_impl s.
Proof.
  unfold detectGridSize, roundedCubeRoot. case_match; congruence.
Qed.

Lemma detectGridSize_throws (cbrt_impl : Z → Q) (s : string) :
  let r := roundedCubeRoot cbrt_impl s in
  r * r * r ≠ Z.of_nat (String.length s) →
  detectGridSize cbrt_impl s
  = Throws (Error ("Binary string length (" +:+
                   pretty (Z.of_nat (String.length s)) +:+
                   ") is not a perfect cube")).
Proof.
  intros r Hne. unfold detectGridSize. fold (roundedCubeRoot cbrt_impl s). fold r.
  by destruct (Z.eqb_spec (r * r * r) (Z.of_nat (String.length s))).
Qed.

Lemma detectGridSize_cube (cbrt_impl : Z → Q) (s : string) (n : Z) :
  cbrt_accurate cbrt_impl → 0 <= n →
  Z.of_nat (String.length s) = n * n * n →
  detectGridSize cbrt_impl s = Returns n.
Proof.
  intros Hacc Hn Hlen. unfold detectGridSize.
  rewrite Hlen, Math_round_cbrt_cube by done.
  by rewrite Z.eqb_refl.
Qed.

(** The counting search stops at the integer nearest to the cube root. *)
Lemma cbrt_search_spec (fuel : nat) (k n : Z) :
  0 <= k → k + Z.of_nat fuel = n →
  (2 * k - 1) * (2 * k - 1) * (2 * k - 1) < 8 * n →
  let r := cbrt_search fuel k n in
  (2 * r - 1) * (2 * r - 1) * (2 * r - 1) < 8 * n
  < (2 * r + 1) * (2 * r + 1) * (2 * r + 1).
Proof.
  revert k. induction fuel as [|fuel IH]; intros k Hk Hsum Hlo; simpl.
  - split; [done|]. nia.
  - destruct (Z.ltb_spec (8 * n) ((2 * k + 1) * (2 * k + 1) * (2 * k + 1)))
      as [Hlt|Hge]; [done|].
    apply IH; [lia|lia|].
    replace (2 * (k + 1) - 1) with (2 * k + 1) by lia.
    assert ((2 * k + 1) * (2 * k + 1) * (2 * k + 1) ≠ 8 * n); [|lia].
    intros Heq.
    assert (((2 * k + 1) * (2 * k + 1) * (2 * k + 1)) `mod` 2 = 1) as Hodd.
    { replace ((2 * k + 1) * (2 * k + 1) * (2 * k + 1))
        with (1 + (4 * k * k * k + 6 * k * k + 3 * k) * 2) by ring.
      by rewrite Z.mod_add. }
    rewrite Heq in Hodd. replace (8 * n) with (0 + (4 * n) * 2) in Hodd by ring.
    by rewrite Z.mod_add in Hodd.
Qed.

Lemma nearest_cbrt_accurate : cbrt_accurate nearest_cbrt.
Proof.
  intros n Hn. unfold nearest_cbrt.
  destruct (cbrt_search_spec (Z.to_nat n) 0 n) as [Hlo Hhi]; [lia|lia|lia|].
  set (r := cbrt_search (Z.to_nat n) 0 n) in *.
  assert (cube (inject_Z r - (1 # 2)) * 8
          == inject_Z ((2 * r - 1) * (2 * r - 1) * (2 * r - 1)))%Q as E1.
  { unfold cube, Z.sub.
    rewrite !inject_Z_mult, !inject_Z_plus, !inject_Z_mult, !inject_Z_opp.
    change (inject_Z 2) with 2%Q. change (inject_Z 1) with 1%Q. ring. }
  assert (cube (inject_Z r + (1 # 2)) * 8
          == inject_Z ((2 * r + 1) * (2 * r + 1) * (2 * r + 1)))%Q as E2.
  { unfold cube. rewrite !inject_Z_mult, !inject_Z_plus, !inject_Z_mult.
    change (inject_Z 2) with 2%Q. change (inject_Z 1) with 1%Q. ring. }
  rewrite Zlt_Qlt in Hlo, Hhi. rewrite <- E1 in Hlo. rewrite <- E2 in Hhi.
  rewrite inject_Z_mult in Hlo, Hhi. change (inject_Z 8) with 8%Q in *.
  split; lra.
Qed.

(** C6: [detectGridSize] returns nothing but the rounded cube root of the
    length; whenever the cube root the engine computes is within one half of
    the true one, the binary string of a grid of size 1 to 32 yields exactly
    that size, and a string of length 1000 yields 10; and whenever the
    rounded cube root, cubed, differs from the length, the call throws the
    error saying the length is not a perfect cube. *)
Theorem detectGridSize_recovers_size (cbrt_impl : Z → Q) :
  cbrt_accurate cbrt_impl →
  (∀ (n : Z) (grid : list jsval),
     1 <= n <= 32 → Z.of_nat (length grid) = n * n * n →
     detectGridSize cbrt_impl (voxelDataToBinaryString grid) = Returns n)
  ∧ (∀ s : string, String.length s = 1000%nat →
       detectGridSize cbrt_impl s = Returns 10)
  ∧ (∀ (s : string) (n : Z),
       detectGridSize cbrt_impl s = Returns n →
       n = Math_round (Math_cbrt cbrt_impl (Z.of_nat (String.length s))))
  ∧ (∀ s : string,
       let r := Math_round (Math_cbrt cbrt_impl (Z.of_nat (String.length s))) in
       r * r * r ≠ Z.of_nat (String.length s) →
       detectGridSize cbrt_impl s
       = Throws (Error ("Binary string length (" +:+
                        pretty (Z.of_nat (String.length s)) +:+
                        ") is not a perfect cube"))).
Proof.
  intros Hacc. repeat split.
  - intros n grid Hn Hlen. apply detectGridSize_cube; [done|lia|].
    by rewrite voxelDataToBinaryString_length.
  - intros s Hlen. apply detectGridSize_cube; [done|lia|]. by rewrite Hlen.
  - apply detectGridSize_returns.
  - apply detectGridSize_throws.
Qed.

Lemma detectGridSize_recovers_size_witness :
  cbrt_accurate nearest_cbrt ∧
  detectGridSize nearest_cbrt
    (voxelDataToBinaryString (replicate 8 (JBool true))) = Returns 2.
Proof.
  split; [apply nearest_cbrt_accurate|].
  apply (proj1 (detectGridSize_recovers_size nearest_cbrt nearest_cbrt_accurate));
    [lia|reflexivity].
Defined.

Example detectGridSize_seven :
  detectGridSize nearest_cbrt "1001100"
  = Throws (Error "Binary string length (7) is not a perfect cube").
Proof. vm_compute. reflexivity. Qed.

(** ** Decoding a payload *)

Lemma get_prop_field (payload : jsval) (name : string) (v : jsval) :
  js_field payload name = v → v ≠ JUndefined →
  get_prop payload name = Returns v.
Proof. intros <- Hv. by destruct payload. Qed.

(** Decoding a payload whose [voxelDataString] is a string. *)
Lemma importFromJSON_string (cbrt_impl : Z → Q) (payload : jsval) (s : string) :
  js_field payload "voxelDataString" = JStr s →
  importFromJSON cbrt_impl payload
  = gridSize ← detectGridSize cbrt_impl s;
    Returns {| voxelData := binaryStringToVoxelData s;
               gridSize := gridSize;
               metadata :=
                 {| difficulty :=
                      js_or (js_field payload "difficulty") (JNum (inject_Z 5));
                    maxMoves :=
                      js_or (js_field payload "maxMoves") (JNum (inject_Z 50)) |} |}.
Proof.
  intros Hfield. unfold importFromJSON.
  by rewrite (get_prop_field _ _ _ Hfield).
Qed.

(** C9: the empty string passes the perfect-cube test, so
    [detectGridSize] returns 0 for it without throwing, and decoding a
    payload whose [voxelDataString] is the empty string returns grid size 0
    with an empty cell array. *)
Theorem detectGridSize_empty_string (cbrt_impl : Z → Q) (payload : jsval) :
  js_field payload "voxelDataString" = JStr "" →
  detectGridSize cbrt_impl "" = Returns 0
  ∧ importFromJSON cbrt_impl payload
    = Returns {| voxelData := [];
                 gridSize := 0;
                 metadata :=
                   {| difficulty :=
                        js_or (js_field payload "difficulty") (JNum (inject_Z 5));
                      maxMoves :=
                        js_or (js_field payload "maxMoves") (JNum (inject_Z 50)) |} |}.
Proof.
  intros Hfield. split; [reflexivity|].
  by rewrite (importFromJSON_string _ _ _ Hfield).
Qed.

Lemma detectGridSize_empty_string_witness :
  importFromJSON nearest_cbrt (JObj (<["voxelDataString" := JStr ""]> ∅))
  = Returns {| voxelData := []; gridSize := 0;
               metadata := {| difficulty := JNum (inject_Z 5);
                              maxMoves := JNum (inject_Z 50) |} |}.
Proof.
  refine (proj2 (detectGridSize_empty_string nearest_cbrt
                   (JObj (<["voxelDataString" := JStr ""]> ∅)) _)).
  reflexivity.
Defined.

(** Decoding a payload whose [voxelDataString] is not a string throws a
    TypeError, whether the payload has no such field, holds another kind of
    value there, or is itself [undefined] or [null]. *)
Lemma importFromJSON_no_string (cbrt_impl : Z → Q) (payload : jsval) :
  (∀ s, js_field payload "voxelDataString" ≠ JStr s) →
  importFromJSON cbrt_impl payload = Throws TypeError.
Proof.
  intros Hnot. unfold importFromJSON.
  destruct (get_prop payload "voxelDataString") as [v|e|] eqn:Hget.
  - assert (v = js_field payload "voxelDataString") as ->.
    { destruct payload; simpl in Hget |- *; congruence. }
    cbn [mbind outcome_bind].
    destruct (js_field payload "voxelDataString") as [| | | | | |s| |] eqn:Hv;
      try done.
    by destruct (Hnot s).
  - cbn [mbind outcome_bind]. destruct payload; simpl in Hget; congruence.
  - destruct payload; simpl in Hget; congruence.
Qed.

(** Decoding a payload whose [voxelDataString] has a length that is no cube
    throws the error of [detectGridSize]. *)
Lemma importFromJSON_no_cube (cbrt_impl : Z → Q) (payload : jsval)
    (s : string) :
  js_field payload "voxelDataString" = JStr s →
  (∀ n, n * n * n ≠ Z.of_nat (String.length s)) →
  importFromJSON cbrt_impl payload
  = Throws (Error ("Binary string length (" +:+
                   pretty (Z.of_nat (String.length s)) +:+
                   ") is not a perfect cube")).
Proof.
  intros Hfield Hnone. rewrite (importFromJSON_string _ _ _ Hfield).
  rewrite detectGridSize_throws; [done|]. apply Hnone.
Qed.

(** C7, as amended: for every payload whose [voxelDataString] is a string of
    perfect-cube length (read by an engine whose cube root is within one
    half of the true one) and whose [difficulty] and [maxMoves] are missing
    or falsy, a present 0 included, decoding returns the metadata
    [difficulty = 5], [maxMoves = 50]; when [voxelDataString] is missing or
    not a string decoding throws a TypeError, and when it is a string whose
    length is not a perfect cube decoding throws the error of
    [detectGridSize], so that no metadata are returned; and encoding the
    filled grid of size 3 with [difficulty = 0] and [maxMoves = 0], then
    decoding, yields 5 and 50. *)
Theorem importFromJSON_falsy_defaults (cbrt_impl : Z → Q) :
  cbrt_accurate cbrt_impl →
  (∀ (payload : jsval) (s : string) (n : Z),
     js_field payload "voxelDataString" = JStr s →
     0 <= n → Z.of_nat (String.length s) = n * n * n →
     truthy (js_field payload "difficulty") = false →
     truthy (js_field payload "maxMoves") = false →
     importFromJSON cbrt_impl payload
     = Returns {| voxelData := binaryStringToVoxelData s;
                  gridSize := n;
                  metadata := {| difficulty := JNum (inject_Z 5);
                                 maxMoves := JNum (inject_Z 50) |} |})
  ∧ (∀ payload : jsval,
       (∀ s, js_field payload "voxelDataString" ≠ JStr s) →
       importFromJSON cbrt_impl payload = Throws TypeError)
  ∧ (∀ (payload : jsval) (s : string),
       js_field payload "voxelDataString" = JStr s →
       (∀ n, n * n * n ≠ Z.of_nat (String.length s)) →
       importFromJSON cbrt_impl payload
       = Throws (Error ("Binary string length (" +:+
                        pretty (Z.of_nat (String.length s)) +:+
                        ") is not a perfect cube")))
  ∧ importFromJSON cbrt_impl
      (exportToJSON (filled 3)
         {| difficulty := JNum (inject_Z 0); maxMoves := JNum (inject_Z 0) |})
    = Returns {| voxelData := filled 3;
                 gridSize := 3;
                 metadata := {| difficulty := JNum (inject_Z 5);
                                maxMoves := JNum (inject_Z 50) |} |}.
Proof.
  intros Hacc. split_and!.
  - intros payload s n Hfield Hn Hlen Hd Hm.
    rewrite (importFromJSON_string _ _ _ Hfield).
    rewrite (detectGridSize_cube cbrt_impl s n) by done.
    unfold js_or. by rewrite Hd, Hm.
  - apply importFromJSON_no_string.
  - apply importFromJSON_no_cube.
  - erewrite importFromJSON_string; [|reflexivity].
    rewrite (detectGridSize_cube cbrt_impl _ 3); [reflexivity|done|lia|reflexivity].
Qed.

Lemma importFromJSON_falsy_defaults_witness :
  cbrt_accurate nearest_cbrt ∧
  importFromJSON nearest_cbrt
    (JObj (<["voxelDataString" := JStr "1"]> (<["difficulty" := JNum (inject_Z 0)]> ∅)))
  = Returns {| voxelData := [JBool true];
               gridSize := 1;
               metadata := {| difficulty := JNum (inject_Z 5);
                              maxMoves := JNum (inject_Z 50) |} |}.
Proof.
  split; [apply nearest_cbrt_accurate|].
  apply (proj1 (importFromJSON_falsy_defaults nearest_cbrt nearest_cbrt_accurate)
           (JObj (<["voxelDataString" := JStr "1"]>
                  (<["difficulty" := JNum (inject_Z 0)]> ∅))) "1" 1);
    [reflexivity|lia|reflexivity|reflexivity|reflexivity].
Defined.

(** A payload with [difficulty = 0] and [maxMoves = 0] whose
    [voxelDataString] has length 2 is not decoded at all: the call throws;
    and so does decoding the empty object, whose three fields are missing. *)
Lemma importFromJSON_not_a_cube_throws :
  let payload :=
    JObj (<["voxelDataString" := JStr "10"]>
          (<["difficulty" := JNum (inject_Z 0)]>
           (<["maxMoves" := JNum (inject_Z 0)]> ∅))) in
  truthy (js_field payload "difficulty") = false
  ∧ truthy (js_field payload "maxMoves") = false
  ∧ importFromJSON nearest_cbrt payload
    = Throws (Error "Binary string length (2) is not a perfect cube")
  ∧ truthy (js_field (JObj ∅) "difficulty") = false
  ∧ truthy (js_field (JObj ∅) "maxMoves") = false
  ∧ importFromJSON nearest_cbrt (JObj ∅) = Throws TypeError.
Proof. repeat split; vm_compute; reflexivity. Qed.

(** ** Format validation *)

Lemma no_cube_is_three (r : Z) : r * r * r ≠ 3.
Proof.
  assert (r <= 0 ∨ r = 1 ∨ 2 <= r) as [H|[->|H]] by lia; [|lia|].
  - assert (0 <= r * r) by nia. nia.
  - assert (4 <= r * r) by nia. nia.
Qed.

(** The numeric check passes exactly on the integers of the range. *)
Lemma notIntegerIn_spec (v : jsval) (lo hi : Z) :
  notIntegerIn v lo hi = false ↔
  ∃ (q : Q) (k : Z), v = JNum q ∧ (q == inject_Z k)%Q ∧ lo <= k <= hi.
Proof.
  split.
  - destruct v; simpl; try discriminate. intros H.
    apply orb_false_elim in H as [H Hhi]. apply orb_false_elim in H as [Hint Hlo].
    apply negb_false_iff in Hint, Hlo, Hhi.
    apply Qeq_bool_iff in Hint. apply Qle_bool_iff in Hlo, Hhi.
    exists q, (Qfloor q). split; [done|]. split; [by symmetry|].
    split; rewrite Zle_Qle.
    + eapply Qle_trans; [exact Hlo|]. apply Qle_lteq. right. by symmetry.
    + eapply Qle_trans; [|exact Hhi]. apply Qle_lteq. by right.
  - intros (q & k & -> & Hq & Hk). simpl.
    assert (Number_isInteger q = true) as ->.
    { apply Qeq_bool_iff. rewrite (Qfloor_comp _ _ Hq), Qfloor_Z. by symmetry. }
    assert (Qle_bool (inject_Z lo) q = true) as ->.
    { apply Qle_bool_iff.
      eapply Qle_trans; [|apply Qle_lteq; right; symmetry; exact Hq].
      rewrite <- Zle_Qle. lia. }
    assert (Qle_bool q (inject_Z hi) = true) as ->.
    { apply Qle_bool_iff. eapply Qle_trans; [apply Qle_lteq; right; exact Hq|].
      rewrite <- Zle_Qle. lia. }
    done.
Qed.

(** C8: the payload with [voxelDataString = "111"], [difficulty = 5] and
    [maxMoves = 50] is invalid with exactly one error, the perfect-cube
    failure for length 3; and for every non-null object payload whose
    [voxelDataString] is missing or not a string, the error for that field
    is followed by the errors of the [difficulty] and [maxMoves] range
    checks, all in the one returned list. *)
Theorem validateJSONFormat_accumulates (cbrt_impl : Z → Q) :
  validateJSONFormat cbrt_impl
    (JObj (<["voxelDataString" := JStr "111"]>
           (<["difficulty" := JNum (inject_Z 5)]>
            (<["maxMoves" := JNum (inject_Z 50)]> ∅))))
  = {| fmt_isValid := false;
       fmt_errors := ["voxelDataString length (3) is not a perfect cube"] |}
  ∧ ∀ payload : jsval,
      typeof payload = "object" → payload ≠ JNull →
      (∀ s, js_field payload "voxelDataString" ≠ JStr s) →
      validateJSONFormat cbrt_impl payload
      = {| fmt_isValid := false;
           fmt_errors :=
             ["Missing or invalid voxelDataString field"]
             ++ difficultyErrors payload ++ maxMovesErrors payload |}.
Proof.
  split.
  - unfold validateJSONFormat.
    change (js_field _ "voxelDataString") with (JStr "111").
    change (js_field _ "difficulty") with (JNum (inject_Z 5)).
    change (js_field _ "maxMoves") with (JNum (inject_Z 50)).
    cbn [typeof truthy string_of negb orb String.eqb Ascii.eqb Bool.eqb].
    change (test_binary "111") with true.
    change (Z.of_nat (String.length "111")) with 3.
    cbn [negb].
    destruct (Z.eqb_spec
      (Math_round (Math_cbrt cbrt_impl 3) * Math_round (Math_cbrt cbrt_impl 3)
       * Math_round (Math_cbrt cbrt_impl 3)) 3) as [H|_].
    { by apply no_cube_is_three in H. }
    reflexivity.
  - intros payload Hobj Hnull Hfield. unfold validateJSONFormat.
    rewrite Hobj.
    assert (match payload with JNull => true | _ => false end = false) as ->
      by by destruct payload.
    cbn [String.eqb negb orb].
    change (("object" =? "object")%string) with true. cbn [negb orb].
    assert (negb (truthy (js_field payload "voxelDataString"))
            || negb (String.eqb (typeof (js_field payload "voxelDataString")) "string")
            = true) as ->.
    { destruct (js_field payload "voxelDataString") as [| |b|q| |neg|s|items|props];
        try apply orb_true_r.
      by destruct (Hfield s). }
    unfold difficultyErrors, maxMovesErrors.
    by repeat case_match.
Qed.

Lemma validateJSONFormat_accumulates_witness :
  validateJSONFormat nearest_cbrt
    (JObj (<["difficulty" := JNum (inject_Z 11)]> ∅))
  = {| fmt_isValid := false;
       fmt_errors := ["Missing or invalid voxelDataString field";
                      "difficulty must be an integer from 1 to 10";
                      "maxMoves must be an integer from 1 to 999"] |}.
Proof.
  rewrite (proj2 (validateJSONFormat_accumulates nearest_cbrt)
             (JObj (<["difficulty" := JNum (inject_Z 11)]> ∅)));
    [reflexivity|reflexivity|discriminate|by intros s].
Defined.

(** * Properties of the grid *)

(** ** Counting loops and the index space *)

Lemma elem_of_zrange (n x : Z) : x ∈ zrange n ↔ 0 <= x < n.
Proof.
  unfold zrange. rewrite list_elem_of_fmap. setoid_rewrite elem_of_seq. split.
  - intros (k & -> & Hk). lia.
  - intros Hx. exists (Z.to_nat x). lia.
Qed.

Lemma NoDup_zrange (n : Z) : NoDup (zrange n).
Proof.
  unfold zrange. apply NoDup_fmap_2; [|apply NoDup_seq].
  intros a b. lia.
Qed.

Lemma elem_of_coords (n : Z) (p : pos) : p ∈ coords n ↔ inGrid n p.
Proof.
  unfold coords, inGrid. destruct p as [x y z]; simpl.
  rewrite list_elem_of_bind. setoid_rewrite list_elem_of_bind.
  setoid_rewrite list_elem_of_bind. setoid_rewrite elem_of_zrange.
  setoid_rewrite list_elem_of_singleton. split.
  - intros (x1 & (y1 & (z1 & [= -> -> ->] & ?) & ?) & ?). done.
  - intros (? & ? & ?). exists x. split; [|done]. exists y. split; [|done].
    exists z. done.
Qed.

Lemma NoDup_coords (n : Z) : NoDup (coords n).
Proof.
  unfold coords.
  apply NoDup_bind; [| |apply NoDup_zrange].
  { intros x1 x2 p _ _.
    rewrite !list_elem_of_bind. setoid_rewrite list_elem_of_bind.
    setoid_rewrite list_elem_of_singleton.
    intros (? & (? & -> & _) & _) (? & (? & [= -> _ _] & _) & _). done. }
  intros x _. apply NoDup_bind; [| |apply NoDup_zrange].
  { intros y1 y2 p _ _.
    rewrite !list_elem_of_bind. setoid_rewrite list_elem_of_singleton.
    intros (? & -> & _) (? & [= -> _] & _). done. }
  intros y _. apply NoDup_bind; [| |apply NoDup_zrange].
  { intros z1 z2 p _ _. rewrite !list_elem_of_singleton.
    intros -> [= ->]. done. }
  intros z _. apply NoDup_singleton.
Qed.

Lemma foldl_ext_in {A B} (f g : A → B → A) (a : A) (l : list B) :
  (∀ a x, x ∈ l → f a x = g a x) → foldl f a l = foldl g a l.
Proof.
  revert a. induction l as [|x l IH]; intros a Hfg; [done|]. simpl.
  rewrite Hfg by left. apply IH. intros b y Hy. apply Hfg. by right.
Qed.

Lemma foldl_bind {A B C} (f : A → C → A) (g : B → list C) (a : A) (l : list B) :
  foldl f a (l ≫= g) = foldl (λ a x, foldl f a (g x)) a l.
Proof.
  revert a. induction l as [|x l IH]; intros a; [done|].
  rewrite bind_cons, foldl_app. apply IH.
Qed.

(** Three nested counting loops are one pass over the coordinates. *)
Lemma foldl_coords {A} (f : A → pos → A) (a : A) (n : Z) :
  foldl (λ a x, foldl (λ a y, foldl (λ a z, f a (Pos x y z)) a (zrange n))
                      a (zrange n)) a (zrange n)
  = foldl f a (coords n).
Proof.
  unfold coords. rewrite foldl_bind.
  apply foldl_ext_in. intros a1 x _. rewrite foldl_bind.
  apply foldl_ext_in. intros a2 y _. rewrite foldl_bind.
  apply foldl_ext_in. intros a3 z _. done.
Qed.

Lemma index_range (n : Z) (p : pos) : inGrid n p → 0 <= index n p < n * n * n.
Proof. unfold inGrid, index. destruct p as [x y z]; simpl. nia. Qed.

Lemma index_inj (n : Z) (p q : pos) :
  inGrid n p → inGrid n q → index n p = index n q → p = q.
Proof.
  unfold inGrid, index. destruct p as [x y z], q as [x1 y1 z1]; simpl.
  intros (Hx & Hy & Hz) (Hx1 & Hy1 & Hz1) Heq.
  assert (z = z1) as -> by nia.
  assert (y = y1) as -> by nia.
  assert (x = x1) as -> by nia. done.
Qed.

Lemma index_surj (n i : Z) :
  0 <= i < n * n * n → ∃ p, inGrid n p ∧ index n p = i.
Proof.
  intros Hi. assert (0 < n) as Hn by nia.
  exists (Pos (i `mod` n) ((i `div` n) `mod` n) ((i `div` n) `div` n)).
  unfold inGrid, index; simpl.
  pose proof (Z.mod_pos_bound i n Hn).
  pose proof (Z.mod_pos_bound (i `div` n) n Hn).
  pose proof (Z.div_mod i n ltac:(lia)).
  pose proof (Z.div_mod (i `div` n) n ltac:(lia)).
  assert (0 <= i `div` n) by (apply Z.div_pos; lia).
  assert (0 <= (i `div` n) `div` n) by (apply Z.div_pos; lia).
  assert ((i `div` n) `div` n < n).
  { apply Z.div_lt_upper_bound; [lia|]. apply Z.div_lt_upper_bound; [lia|]. nia. }
  split; [lia|]. nia.
Qed.

(** ** Array reads and writes *)

Lemma js_get_lookup (arr : list jsval) (i : nat) (v : jsval) :
  arr !! i = Some v → js_get arr (Z.of_nat i) = v.
Proof.
  intros H. unfold js_get.
  destruct (Z.ltb_spec (Z.of_nat i) 0); [lia|]. by rewrite Nat2Z.id, H.
Qed.

Lemma js_set_in_range (arr : list jsval) (i : Z) (v : jsval) :
  0 <= i < Z.of_nat (length arr) → js_set arr i v = <[Z.to_nat i := v]> arr.
Proof.
  intros Hi. unfold js_set.
  destruct (Z.ltb_spec i 0); [lia|].
  destruct (Nat.ltb_spec (Z.to_nat i) (length arr)); [done|lia].
Qed.

Lemma js_get_set_eq (arr : list jsval) (i : Z) (v : jsval) :
  0 <= i < Z.of_nat (length arr) → js_get (js_set arr i v) i = v.
Proof.
  intros Hi. rewrite js_set_in_range by done. unfold js_get.
  destruct (Z.ltb_spec i 0); [lia|].
  rewrite list_lookup_insert_eq by lia. done.
Qed.

Lemma js_get_set_ne (arr : list jsval) (i j : Z) (v : jsval) :
  0 <= i < Z.of_nat (length arr) → i ≠ j →
  js_get (js_set arr i v) j = js_get arr j.
Proof.
  intros Hi Hij. rewrite js_set_in_range by done. unfold js_get.
  destruct (Z.ltb_spec j 0); [done|].
  rewrite list_lookup_insert_ne by lia. done.
Qed.

Lemma js_set_length (arr : list jsval) (i : Z) (v : jsval) :
  0 <= i < Z.of_nat (length arr) → length (js_set arr i v) = length arr.
Proof. intros Hi. rewrite js_set_in_range by done. apply length_insert. Qed.

(** Arrays of one length that read the same everywhere are equal. *)
Lemma js_get_ext (a b : list jsval) :
  length a = length b →
  (∀ i, 0 <= i < Z.of_nat (length a) → js_get a i = js_get b i) → a = b.
Proof.
  intros Hlen Hget. apply list_eq. intros i.
  destruct (a !! i) as [v|] eqn:Ha.
  - pose proof (lookup_lt_Some _ _ _ Ha) as Hi.
    destruct (lookup_lt_is_Some_2 b i) as [w Hb]; [lia|].
    rewrite Hb. f_equal.
    rewrite <- (js_get_lookup _ _ _ Ha), <- (js_get_lookup _ _ _ Hb).
    apply Hget. lia.
  - symmetry. apply lookup_ge_None. apply lookup_ge_None in Ha. lia.
Qed.

Lemma truthy_get_range (voxelData : list jsval) (i : Z) :
  truthy (js_get voxelData i) = true → 0 <= i < Z.of_nat (length voxelData).
Proof.
  unfold js_get. destruct (Z.ltb_spec i 0); [done|].
  destruct (voxelData !! Z.to_nat i) eqn:Hi; [|done].
  apply lookup_lt_Some in Hi. lia.
Qed.

Lemma stores_length {A} (idx : A → Z) (val : A → jsval) (arr : list jsval)
    (ps : list A) :
  (∀ p, p ∈ ps → 0 <= idx p < Z.of_nat (length arr)) →
  length (stores idx val arr ps) = length arr.
Proof.
  unfold stores. induction ps as [|p ps IH] using rev_ind; intros Hin; [done|].
  rewrite foldl_snoc.
  assert (length (foldl (λ arr p, js_set arr (idx p) (val p)) arr ps)
          = length arr) as Hlen.
  { apply IH. intros q Hq. apply Hin, elem_of_app. by left. }
  rewrite js_set_length; [done|]. rewrite Hlen. apply Hin, elem_of_app.
  right. by apply list_elem_of_singleton.
Qed.

(** After the loop, a cell written once holds what was written to it. *)
Lemma stores_get {A} (idx : A → Z) (val : A → jsval) (arr : list jsval)
    (ps : list A) (p : A) :
  (∀ q, q ∈ ps → 0 <= idx q < Z.of_nat (length arr)) →
  (∀ q, q ∈ ps → idx q = idx p → q = p) →
  p ∈ ps → js_get (stores idx val arr ps) (idx p) = val p.
Proof.
  induction ps as [|q ps IH] using rev_ind; intros Hin Hinj Hp.
  { by apply elem_of_nil in Hp. }
  unfold stores. rewrite foldl_snoc. fold (stores idx val arr ps).
  assert (0 <= idx q < Z.of_nat (length (stores idx val arr ps))) as Hq.
  { rewrite stores_length.
    - apply Hin, elem_of_app. right. by apply list_elem_of_singleton.
    - intros r Hr. apply Hin, elem_of_app. by left. }
  destruct (decide (idx q = idx p)) as [Heq|Hne].
  - assert (q = p) as ->.
    { apply Hinj; [|done]. apply elem_of_app. right.
      by apply list_elem_of_singleton. }
    by apply js_get_set_eq.
  - rewrite js_get_set_ne by done.
    apply elem_of_app in Hp as [Hp|Hp].
    + apply IH; [| |done].
      * intros r Hr. apply Hin, elem_of_app. by left.
      * intros r Hr. apply Hinj, elem_of_app. by left.
    + apply list_elem_of_singleton in Hp. by subst.
Qed.

(** ** Grid resampling *)

Lemma shift_inGrid (s t o : Z) (p : pos) :
  0 <= o → s + o <= t → inGrid s p → inGrid t (shift o p).
Proof. unfold inGrid, shift. simpl. lia. Qed.

Lemma shift_inj (o : Z) (p q : pos) : shift o p = shift o q → p = q.
Proof.
  destruct p as [x y z], q as [x1 y1 z1]. unfold shift; simpl.
  intros [= ? ? ?]. f_equal; lia.
Qed.

Lemma shift_zero (p : pos) : shift (0 `div` 2) p = p.
Proof.
  change (0 `div` 2) with 0. destruct p as [x y z]. unfold shift; simpl.
  f_equal; lia.
Qed.

Lemma blank_length (n : Z) : 0 <= n → Z.of_nat (length (blank n)) = n * n * n.
Proof. intros Hn. unfold blank. rewrite length_replicate. nia. Qed.

(** The padding branch as one pass over the source coordinates. *)
(** The allocation of the target array succeeds exactly for a size that is
    not negative and whose cube is an array length. *)
Lemma new_Array_fill_returns (n : Z) (v : jsval) :
  0 <= n <= MAX_ARRAY_LENGTH →
  new_Array_fill n v = Returns (replicate (Z.to_nat n) v).
Proof.
  intros Hn. unfold new_Array_fill.
  destruct (Z.ltb_spec n 0); [lia|].
  by destruct (Z.ltb_spec MAX_ARRAY_LENGTH n); [lia|].
Qed.

Lemma new_Array_fill_throws (n : Z) (v : jsval) :
  n < 0 ∨ MAX_ARRAY_LENGTH < n → new_Array_fill n v = Throws RangeError.
Proof.
  intros Hn. unfold new_Array_fill.
  destruct (Z.ltb_spec n 0); [done|].
  by destruct (Z.ltb_spec MAX_ARRAY_LENGTH n); [|lia].
Qed.

Lemma convertGridSize_allocates (voxelData : list jsval) (s t : Z)
    (newVoxelData : list jsval) :
  convertGridSize voxelData s t = Returns newVoxelData →
  0 <= t ∧ t * t * t <= MAX_ARRAY_LENGTH.
Proof.
  unfold convertGridSize.
  destruct (Z.lt_ge_cases (t * t * t) 0) as [Hneg|Hpos];
    [by rewrite new_Array_fill_throws by by left|].
  destruct (Z.lt_ge_cases MAX_ARRAY_LENGTH (t * t * t)) as [Hbig|Hfit];
    [by rewrite new_Array_fill_throws by by right|].
  intros _. split; [nia|done].
Qed.

Lemma convertGridSize_throws (voxelData : list jsval) (s t : Z) :
  t < 0 ∨ MAX_ARRAY_LENGTH < t * t * t →
  convertGridSize voxelData s t = Throws RangeError.
Proof.
  intros Ht. unfold convertGridSize.
  rewrite new_Array_fill_throws; [done|].
  destruct Ht; [left; nia|by right].
Qed.

Lemma convertGridSize_pad (voxelData : list jsval) (s t : Z) :
  0 <= t → t * t * t <= MAX_ARRAY_LENGTH → s <= t →
  convertGridSize voxelData s t
  = Returns (stores (λ p, index t (shift ((t - s) `div` 2) p))
                    (λ p, js_get voxelData (index s p))
                    (blank t) (coords s)).
Proof.
  intros Ht Hfit Hst. unfold convertGridSize.
  rewrite new_Array_fill_returns by nia. fold (blank t).
  destruct (Z.leb_spec s t); [|lia]. cbn [mbind outcome_bind].
  f_equal. unfold stores.
  by rewrite <- (foldl_coords
    (λ arr p, js_set arr (index t (shift ((t - s) `div` 2) p))
                     (js_get voxelData (index s p)))).
Qed.

(** The cropping branch as one pass over the target coordinates; its bounds
    test never fails. *)
Lemma convertGridSize_crop (voxelData : list jsval) (s t : Z) :
  0 <= t → t * t * t <= MAX_ARRAY_LENGTH → t < s →
  convertGridSize voxelData s t
  = Returns (stores (λ p, index t p)
                    (λ p, js_get voxelData (index s (shift ((s - t) `div` 2) p)))
                    (blank t) (coords t)).
Proof.
  intros Ht Hfit Hst. unfold convertGridSize.
  rewrite new_Array_fill_returns by nia. fold (blank t).
  destruct (Z.leb_spec s t); [lia|]. cbn [mbind outcome_bind].
  f_equal. unfold stores.
  rewrite <- (foldl_coords
    (λ arr p, js_set arr (index t p)
                     (js_get voxelData (index s (shift ((s - t) `div` 2) p))))).
  apply foldl_ext_in. intros a1 x Hx.
  apply foldl_ext_in. intros a2 y Hy.
  apply foldl_ext_in. intros a3 z Hz.
  apply elem_of_zrange in Hx, Hy, Hz.
  assert (0 <= (s - t) `div` 2) by (apply Z.div_pos; lia).
  assert (2 * ((s - t) `div` 2) <= s - t)
    by (apply Z.mul_div_le; lia).
  destruct (Z.ltb_spec (x + (s - t) `div` 2) s); [|lia].
  destruct (Z.ltb_spec (y + (s - t) `div` 2) s); [|lia].
  destruct (Z.ltb_spec (z + (s - t) `div` 2) s); [|lia].
  done.
Qed.

Lemma pad_spec (voxelData : list jsval) (s t : Z) (padded : list jsval) :
  0 <= s <= t →
  convertGridSize voxelData s t = Returns padded →
  Z.of_nat (length padded) = t * t * t
  ∧ ∀ p, inGrid s p →
      js_get padded (index t (shift ((t - s) `div` 2) p))
      = js_get voxelData (index s p).
Proof.
  intros Hst Hrun.
  destruct (convertGridSize_allocates _ _ _ _ Hrun) as [_ Hfit].
  revert Hrun. rewrite convertGridSize_pad by lia. intros [= <-].
  assert (0 <= (t - s) `div` 2) as Ho by (apply Z.div_pos; lia).
  assert (2 * ((t - s) `div` 2) <= t - s) as Ho2 by (apply Z.mul_div_le; lia).
  assert (∀ q, q ∈ coords s →
            0 <= index t (shift ((t - s) `div` 2) q)
            < Z.of_nat (length (blank t))) as Hin.
  { intros q Hq. rewrite blank_length by lia. apply index_range.
    apply (shift_inGrid s); [done|lia|]. by apply elem_of_coords. }
  split.
  - rewrite stores_length by done. apply blank_length. lia.
  - intros p Hp.
    apply (stores_get (λ p, index t (shift ((t - s) `div` 2) p))
                      (λ p, js_get voxelData (index s p))); [done| |].
    + intros q Hq Heq. apply (shift_inj ((t - s) `div` 2)).
      apply (index_inj t); [| |done];
        apply (shift_inGrid s); try done; try lia; by apply elem_of_coords.
    + by apply elem_of_coords.
Qed.

Lemma crop_spec (voxelData : list jsval) (s t : Z) (cropped : list jsval) :
  0 <= t < s →
  convertGridSize voxelData s t = Returns cropped →
  Z.of_nat (length cropped) = t * t * t
  ∧ ∀ p, inGrid t p →
      js_get cropped (index t p)
      = js_get voxelData (index s (shift ((s - t) `div` 2) p)).
Proof.
  intros Hst Hrun.
  destruct (convertGridSize_allocates _ _ _ _ Hrun) as [_ Hfit].
  revert Hrun. rewrite convertGridSize_crop by lia. intros [= <-].
  assert (∀ q, q ∈ coords t →
            0 <= index t q < Z.of_nat (length (blank t))) as Hin.
  { intros q Hq. rewrite blank_length by lia. apply index_range.
    by apply elem_of_coords. }
  split.
  - rewrite stores_length by done. apply blank_length. lia.
  - intros p Hp.
    apply (stores_get (λ p, index t p)
             (λ p, js_get voxelData (index s (shift ((s - t) `div` 2) p))));
      [done| |].
    + intros q Hq Heq. apply (index_inj t); [|done|done]. by apply elem_of_coords.
    + by apply elem_of_coords.
Qed.

(** C4, as amended: for sizes 1 <= S <= T with T*T*T at most the largest
    array length 2^32 - 1, and a grid of size S, expanding to size T returns
    an array of T*T*T cells holding every source cell [(x, y, z)] at
    [(x + offset, y + offset, z + offset)] with [offset = floor((T - S) / 2)],
    and converting that array back to size S returns the original grid,
    cell for cell. *)
Theorem convertGridSize_expand_then_crop (grid : list jsval) (s t : Z) :
  1 <= s <= t → t * t * t <= MAX_ARRAY_LENGTH →
  Z.of_nat (length grid) = s * s * s →
  ∃ expanded,
    convertGridSize grid s t = Returns expanded
    ∧ Z.of_nat (length expanded) = t * t * t
    ∧ (∀ x y z, 0 <= x < s → 0 <= y < s → 0 <= z < s →
         let offset := (t - s) `div` 2 in
         js_get expanded
           ((x + offset) + (y + offset) * t + (z + offset) * t * t)
         = js_get grid (x + y * s + z * s * s))
    ∧ convertGridSize expanded t s = Returns grid.
Proof.
  intros Hst Hfit Hlen.
  assert (s * s * s <= MAX_ARRAY_LENGTH) as Hfits.
  { assert (s * s <= t * t) by nia. assert (s * s * s <= t * t * t) by nia.
    lia. }
  destruct (convertGridSize grid s t) as [expanded| |] eqn:Hpad;
    try (rewrite convertGridSize_pad in Hpad by lia; discriminate).
  destruct (pad_spec grid s t expanded) as [Hlen1 Hget1]; [lia|done|].
  exists expanded. split; [done|]. split; [done|]. split.
  { intros x y z Hx Hy Hz. apply (Hget1 (Pos x y z)). by unfold inGrid. }
  destruct (convertGridSize expanded t s) as [back| |] eqn:Hback.
  2,3: destruct (decide (t = s)) as [->|Hne];
    [rewrite convertGridSize_pad in Hback by lia
    |rewrite convertGridSize_crop in Hback by lia]; discriminate.
  f_equal.
  assert (Z.of_nat (length back) = s * s * s
          ∧ ∀ p, inGrid s p → js_get back (index s p) = js_get grid (index s p))
    as [Hlen2 Hget2].
  { destruct (decide (t = s)) as [->|Hne].
    - destruct (pad_spec expanded s s back) as [Hl Hg]; [lia|done|].
      split; [done|]. intros p Hp.
      specialize (Hg p Hp). specialize (Hget1 p Hp).
      rewrite Z.sub_diag, shift_zero in Hg, Hget1. congruence.
    - destruct (crop_spec expanded t s back) as [Hl Hg]; [lia|done|].
      split; [done|]. intros p Hp.
      rewrite (Hg p Hp). by apply Hget1. }
  apply js_get_ext; [lia|].
  intros i Hi.
  destruct (index_surj s i) as (p & Hp & <-); [lia|].
  by apply Hget2.
Qed.

Lemma convertGridSize_expand_then_crop_witness :
  ∃ expanded,
    convertGridSize [JBool true] 1 4 = Returns expanded
    ∧ convertGridSize expanded 4 1 = Returns [JBool true].
Proof.
  destruct (convertGridSize_expand_then_crop [JBool true] 1 4)
    as (expanded & H1 & _ & _ & H2);
    [lia|unfold MAX_ARRAY_LENGTH; lia|reflexivity|].
  exists expanded. by split.
Defined.

(** Without the bound the expansion does not return: a grid of size 1
    cannot be expanded to size 1626, whose 1626^3 = 4298942376 cells are
    more than an array can have. *)
Lemma convertGridSize_expand_too_large :
  1 <= 1 <= 1626
  ∧ Z.of_nat (length [JBool true]) = 1 * 1 * 1
  ∧ convertGridSize [JBool true] 1 1626 = Throws RangeError.
Proof. split; [lia|]. split; reflexivity. Qed.

Example convertGridSize_two_five_two :
  (expanded ← convertGridSize lineGrid 2 5; convertGridSize expanded 5 2)
  = Returns lineGrid.
Proof. vm_compute. reflexivity. Qed.

(** * Properties of the connectivity analysis *)

(** ** Visitation keys are injective *)

Lemma pretty_N_char_not_comma (d : N) : pretty_N_char d ≠ ","%char.
Proof. unfold pretty_N_char. by repeat case_match. Qed.

Lemma pretty_N_go_comma_free (x : N) (s : string) :
  comma_free s → comma_free (pretty_N_go x s).
Proof.
  revert s. induction (N.lt_wf_0 x) as [x _ IH]; intros s Hs.
  destruct (decide (x = 0)%N) as [->|Hx]; [by rewrite pretty_N_go_0|].
  rewrite pretty_N_go_step by lia. apply IH.
  - apply N.div_lt; lia.
  - split; [apply pretty_N_char_not_comma|done].
Qed.

Lemma pretty_N_comma_free (x : N) : comma_free (pretty x).
Proof.
  unfold pretty, pretty_N. case_decide; [by repeat split|].
  by apply pretty_N_go_comma_free.
Qed.

Lemma pretty_Z_comma_free (x : Z) : comma_free (pretty x).
Proof.
  destruct x as [|p|p]; unfold pretty, pretty_Z.
  - by repeat split.
  - apply pretty_N_comma_free.
  - split; [done|]. apply pretty_N_comma_free.
Qed.

(** Strings without commas are recovered from their comma-joined form. *)
Lemma app_comma_inj (s1 s2 t1 t2 : string) :
  comma_free s1 → comma_free s2 →
  s1 +:+ "," +:+ t1 = s2 +:+ "," +:+ t2 → s1 = s2 ∧ t1 = t2.
Proof.
  revert s2. induction s1 as [|c s1 IH]; intros [|d s2] H1 H2 Heq;
    cbn in H1, H2, Heq.
  - by simplify_eq.
  - destruct H2 as [Hd _]. by simplify_eq.
  - destruct H1 as [Hc _]. by simplify_eq.
  - destruct H1 as [_ H1], H2 as [_ H2]. injection Heq as -> Heq.
    destruct (IH s2 H1 H2 Heq) as [-> ->]. done.
Qed.

Lemma key_inj (p q : pos) : key p = key q → p = q.
Proof.
  destruct p as [x y z], q as [x1 y1 z1]. unfold key, posKey; simpl.
  intros H.
  apply app_comma_inj in H as [Hx H]; try apply pretty_Z_comma_free.
  apply app_comma_inj in H as [Hy Hz]; try apply pretty_Z_comma_free.
  apply (inj pretty) in Hx, Hy, Hz. by subst.
Qed.

Lemma NoDup_keys (l : list pos) : NoDup l → NoDup (key <$> l).
Proof.
  apply NoDup_fmap_2_strong. intros p q _ _. apply key_inj.
Qed.

(** ** The scan *)

Lemma foldl_push_if {A} (f : A → bool) (acc l : list A) :
  foldl (λ acc x, if f x then acc ++ [x] else acc) acc l
  = acc ++ filter (λ x, f x) l.
Proof.
  revert acc. induction l as [|x l IH]; intros acc; simpl.
  - by rewrite app_nil_r.
  - rewrite IH, filter_cons. destruct (f x).
    + rewrite decide_True by done. by rewrite <- app_assoc.
    + by rewrite decide_False by auto.
Qed.

Lemma voxelPositions_filter (voxelData : list jsval) (gridSize : Z) :
  voxelPositions voxelData gridSize
  = filter (λ p, truthy (js_get voxelData (index gridSize p))) (coords gridSize).
Proof.
  unfold voxelPositions.
  rewrite (foldl_coords (λ acc p,
    if truthy (js_get voxelData (index gridSize p)) then acc ++ [p] else acc)).
  by rewrite foldl_push_if.
Qed.

(** The scan collects exactly the occupied positions, each once. *)
Lemma elem_of_voxelPositions (voxelData : list jsval) (gridSize : Z) (p : pos) :
  p ∈ voxelPositions voxelData gridSize ↔ occupied voxelData gridSize p.
Proof.
  rewrite voxelPositions_filter, list_elem_of_filter, elem_of_coords.
  unfold occupied. rewrite Is_true_true. tauto.
Qed.

Lemma NoDup_voxelPositions (voxelData : list jsval) (gridSize : Z) :
  NoDup (voxelPositions voxelData gridSize).
Proof. rewrite voxelPositions_filter. apply NoDup_filter, NoDup_coords. Qed.

Lemma isValidPosition_inGrid (p : pos) (gridSize : Z) :
  isValidPosition (px p) (py p) (pz p) gridSize = true ↔ inGrid gridSize p.
Proof.
  unfold isValidPosition, inGrid. rewrite !andb_true_iff.
  rewrite !Z.leb_le, !Z.ltb_lt. tauto.
Qed.

(** ** One flood fill, for any neighbourhood *)

Section Flood.
Context (voxelData : list jsval) (gridSize : Z) (nbrs : pos → list pos).

Lemma key_occupied (p : pos) :
  occupied voxelData gridSize p → key p ∈ occupiedKeys voxelData gridSize.
Proof.
  intros Hp. unfold occupiedKeys. rewrite elem_of_list_to_set.
  apply list_elem_of_fmap_2. by apply elem_of_voxelPositions.
Qed.

Lemma seen_visited (visited : gset string) (seen : list pos) (p : pos) :
  seen_ok voxelData gridSize visited seen → key p ∈ visited ↔ p ∈ seen.
Proof.
  intros (_ & _ & Hkeys). rewrite Hkeys. split.
  - intros (q & Hq & Heq). by apply key_inj in Heq as ->.
  - intros Hp. by exists p.
Qed.

(** Looking at one neighbour keeps the bookkeeping intact, queues the
    neighbour if it is occupied and new, and leaves the work to do
    unchanged. *)
Lemma visit_spec (visited : gset string) (done queue : list pos) (n : pos) :
  seen_ok voxelData gridSize visited (done ++ queue) →
  ∃ new,
    (visit voxelData gridSize (visited, queue) n).2 = queue ++ new
    ∧ (∀ p, p ∈ new → p = n ∧ occupied voxelData gridSize n)
    ∧ seen_ok voxelData gridSize
        (visit voxelData gridSize (visited, queue) n).1 (done ++ queue ++ new)
    ∧ (occupied voxelData gridSize n → n ∈ done ++ queue ++ new)
    ∧ todo voxelData gridSize
        (visit voxelData gridSize (visited, queue) n).1 (queue ++ new)
      = todo voxelData gridSize visited queue.
Proof.
  intros Hok. unfold visit; simpl.
  destruct (isValidPosition (px n) (py n) (pz n) gridSize) eqn:Hvalid; last first.
  { exists []. rewrite !app_nil_r. split_and!; try done.
    - by intros p Hp%elem_of_nil.
    - intros [Hin _]. apply isValidPosition_inGrid in Hin. congruence. }
  apply isValidPosition_inGrid in Hvalid.
  destruct (truthy (js_get voxelData (index gridSize n))) eqn:Htruthy; last first.
  { exists []. rewrite !app_nil_r. split_and!; try done.
    - by intros p Hp%elem_of_nil.
    - intros [_ Ht]. congruence. }
  assert (occupied voxelData gridSize n) as Hocc by done.
  destruct (bool_decide (key n ∈ visited)) eqn:Hvis; simpl.
  { apply bool_decide_eq_true in Hvis.
    exists []. rewrite !app_nil_r. split_and!; try done.
    - by intros p Hp%elem_of_nil.
    - intros _. by apply (seen_visited visited). }
  apply bool_decide_eq_false in Hvis.
  assert (n ∉ done ++ queue) as Hfresh.
  { intros Hn. apply Hvis. by apply (seen_visited _ (done ++ queue)). }
  destruct Hok as (Hnodup & Hoccs & Hkeys).
  exists [n]. split_and!; try done.
  - by intros p ->%list_elem_of_singleton.
  - rewrite app_assoc. split_and!.
    + apply NoDup_app. split_and!; [done| |apply NoDup_singleton].
      by intros p Hp ->%list_elem_of_singleton.
    + intros p [Hp| ->%list_elem_of_singleton]%elem_of_app; auto.
    + intros k. rewrite elem_of_union, elem_of_singleton, Hkeys.
      split.
      * intros [->|(p & Hp & <-)].
        -- exists n. split; [|done]. apply elem_of_app. right.
           by apply list_elem_of_singleton.
        -- exists p. split; [|done]. apply elem_of_app. by left.
      * intros (p & [Hp| ->%list_elem_of_singleton]%elem_of_app & <-);
          [right; by exists p|by left].
  - intros _. rewrite !elem_of_app, list_elem_of_singleton. auto.
  - unfold todo. rewrite length_app; simpl.
    assert (occupiedKeys voxelData gridSize ∖ visited
            = {[key n]}
              ∪ occupiedKeys voxelData gridSize ∖ ({[key n]} ∪ visited)) as ->.
    { apply set_eq. intros k. pose proof (key_occupied n Hocc).
      rewrite elem_of_union, !elem_of_difference, elem_of_union,
        elem_of_singleton.
      destruct (decide (k = key n)) as [->|]; tauto. }
    rewrite (size_union {[key n]}
               (occupiedKeys voxelData gridSize ∖ ({[key n]} ∪ visited))).
    + rewrite size_singleton. lia.
    + intros k. rewrite elem_of_singleton, elem_of_difference, elem_of_union,
        elem_of_singleton. tauto.
Qed.

Lemma visit_fold_spec (ns : list pos) (visited : gset string)
    (done queue : list pos) :
  seen_ok voxelData gridSize visited (done ++ queue) →
  ∃ new,
    (foldl (visit voxelData gridSize) (visited, queue) ns).2 = queue ++ new
    ∧ (∀ p, p ∈ new → p ∈ ns ∧ occupied voxelData gridSize p)
    ∧ seen_ok voxelData gridSize
        (foldl (visit voxelData gridSize) (visited, queue) ns).1
        (done ++ queue ++ new)
    ∧ (∀ n, n ∈ ns → occupied voxelData gridSize n → n ∈ done ++ queue ++ new)
    ∧ todo voxelData gridSize
        (foldl (visit voxelData gridSize) (visited, queue) ns).1 (queue ++ new)
      = todo voxelData gridSize visited queue.
Proof.
  revert visited queue. induction ns as [|n ns IH]; intros visited queue Hok.
  { exists []. rewrite !app_nil_r. split_and!; try done.
    - by intros p Hp%elem_of_nil.
    - by intros n Hn%elem_of_nil. }
  destruct (visit_spec visited done queue n Hok)
    as (new1 & Hq1 & Hnew1 & Hok1 & Hn1 & Htodo1).
  simpl. destruct (visit voxelData gridSize (visited, queue) n) as [v1 q1] eqn:Hv.
  simpl in *. subst q1.
  destruct (IH v1 (queue ++ new1)) as (new2 & Hq2 & Hnew2 & Hok2 & Hn2 & Htodo2).
  { by rewrite app_assoc in Hok1 |- *. }
  exists (new1 ++ new2). rewrite !app_assoc in *. split_and!; try done.
  - intros p [Hp|Hp]%elem_of_app.
    + destruct (Hnew1 p Hp) as [-> ?]. split; [left|done].
    + destruct (Hnew2 p Hp). split; [by right|done].
  - intros m [->|Hm]%elem_of_cons Hocc.
    + apply elem_of_app. left. auto.
    + auto.
  - congruence.
Qed.

(** A fill that starts within its budget returns, having extended the
    component by the queue and by what it found, with an empty queue. *)
Lemma flood_spec (property : pos → Prop) (done : list pos) (fuel : nat)
    (queue : list pos) (visited : gset string) (component : list pos) :
  (∀ p n, property p → n ∈ nbrs p → occupied voxelData gridSize n →
     property n) →
  filling voxelData gridSize nbrs property done queue visited component →
  (todo voxelData gridSize visited queue ≤ fuel)%nat →
  ∃ visited1 rest,
    flood voxelData gridSize nbrs fuel queue visited component
    = Some (visited1, component ++ queue ++ rest)
    ∧ filling voxelData gridSize nbrs property done [] visited1
        (component ++ queue ++ rest).
Proof.
  intros Hstep.
  revert queue visited component.
  induction fuel as [|fuel IH]; intros queue visited component Hfill Hfuel.
  - destruct queue as [|current queue].
    + exists visited, []. by rewrite !app_nil_r in *.
    + unfold todo in Hfuel. simpl in Hfuel. lia.
  - destruct queue as [|current queue].
    { exists visited, []. by rewrite !app_nil_r in *. }
    destruct Hfill as (Hok & Hclosed & Hprop).
    assert (property current) as Hcur.
    { apply Hprop, elem_of_app. right. left. }
    destruct (visit_fold_spec (nbrs current) visited
                (done ++ component ++ [current]) queue)
      as (new & Hq & Hnew & Hok1 & Hnbrs & Htodo).
    { by rewrite <- ?app_assoc. }
    simpl. destruct (foldl (visit voxelData gridSize) (visited, queue)
                       (nbrs current))
      as [visited1 queue1] eqn:Hfold.
    simpl in *. subst queue1.
    destruct (IH (queue ++ new) visited1 (component ++ [current]))
      as (visited2 & rest & Hrun & Hfill2).
    + split_and!.
      * rewrite <- ?app_assoc in Hok1. by rewrite <- ?app_assoc.
      * intros p n [Hp| ->%list_elem_of_singleton]%elem_of_app Hn Hocc.
        -- specialize (Hclosed p n Hp Hn Hocc).
           rewrite !elem_of_app, elem_of_cons in Hclosed.
           rewrite !elem_of_app, list_elem_of_singleton. tauto.
        -- specialize (Hnbrs n Hn Hocc).
           rewrite <- ?app_assoc in Hnbrs. by rewrite <- ?app_assoc.
      * intros p Hp.
        rewrite !elem_of_app, list_elem_of_singleton in Hp.
        destruct Hp as [[Hp| ->]|[Hp|Hp]]; [| done | |].
        -- apply Hprop, elem_of_app. by left.
        -- apply Hprop, elem_of_app. right. by right.
        -- destruct (Hnew p Hp) as [Hpn Hocc]. by apply (Hstep current).
    + unfold todo in *. simpl in Hfuel. lia.
    + exists visited2, (new ++ rest).
      rewrite <- ?app_assoc in Hrun, Hfill2. simpl in Hrun, Hfill2.
      by rewrite <- ?app_assoc.
Qed.

End Flood.

(** ** The two loops of the source are flood fills *)

Lemma componentLoop_flood (voxelData : list jsval) (gridSize : Z) (fuel : nat)
    (queue : list pos) (visited : gset string) (component : list pos) :
  componentLoop fuel voxelData gridSize queue visited component
  = flood voxelData gridSize faceNbrs fuel queue visited component.
Proof.
  revert queue visited component.
  induction fuel as [|fuel IH]; intros [|current queue] visited component;
    try reflexivity.
  cbn [componentLoop flood]. unfold faceNbrs. rewrite foldl_fmap.
  match goal with
  | |- (let '(_, _) := foldl ?f ?a ?l in _) = _ =>
      replace (foldl f a l)
        with (foldl (λ st dir,
                visit voxelData gridSize st
                  (Pos (px current + px dir) (py current + py dir)
                       (pz current + pz dir))) a l)
  end.
  - destruct (foldl _ _ _) as [visited1 queue1]. apply IH.
  - apply foldl_ext_in. by intros [v q] dir _.
Qed.

Lemma connectedLoop_flood (voxelData : list jsval) (gridSize : Z)
    (connectivityType : jsval) (fuel : nat) (queue : list pos)
    (visited : gset string) (component : list pos) :
  connectedLoop fuel voxelData gridSize connectivityType queue visited
  = fst <$> flood voxelData gridSize (ruleNbrs connectivityType) fuel queue
              visited component.
Proof.
  revert queue visited component.
  induction fuel as [|fuel IH]; intros [|current queue] visited component;
    try reflexivity.
  cbn [connectedLoop flood]. unfold ruleNbrs. rewrite foldl_fmap.
  match goal with
  | |- (let '(_, _) := foldl ?f ?a ?l in _) = _ =>
      replace (foldl f a l)
        with (foldl (λ st n,
                visit voxelData gridSize st
                  ((λ '(nx, ny, nz), Pos nx ny nz) n)) a l)
  end.
  - destruct (foldl _ _ _) as [visited1 queue1]. apply IH.
  - apply foldl_ext_in. by intros [v q] [[nx ny] nz] _.
Qed.

(** ** Component discovery *)

Section Components.
Context (voxelData : list jsval) (gridSize : Z).

Lemma size_occupiedKeys :
  size (occupiedKeys voxelData gridSize)
  = length (voxelPositions voxelData gridSize).
Proof.
  unfold occupiedKeys. rewrite size_list_to_set, length_fmap; [done|].
  apply NoDup_keys, NoDup_voxelPositions.
Qed.

(** A fill that starts from a fresh occupied seed fits in the budget. *)
Lemma todo_seed (visited : gset string) (seed : pos) :
  occupied voxelData gridSize seed →
  (todo voxelData gridSize ({[key seed]} ∪ visited) [seed]
   ≤ length (voxelPositions voxelData gridSize))%nat.
Proof.
  intros Hseed. unfold todo. simpl.
  pose proof (key_occupied _ _ seed Hseed) as Hin.
  assert (size (occupiedKeys voxelData gridSize ∖ ({[key seed]} ∪ visited))
          < size (occupiedKeys voxelData gridSize))%nat;
    [|rewrite <- size_occupiedKeys; lia].
  apply subset_size. apply elem_of_subset. split.
  - intros k. rewrite elem_of_difference. tauto.
  - intros Hsub. specialize (Hsub _ Hin).
    rewrite elem_of_difference, elem_of_union, elem_of_singleton in Hsub.
    tauto.
Qed.

Lemma seen_ok_seed (visited : gset string) (done : list pos) (seed : pos) :
  seen_ok voxelData gridSize visited done →
  occupied voxelData gridSize seed → key seed ∉ visited →
  seen_ok voxelData gridSize ({[key seed]} ∪ visited) (done ++ [seed]).
Proof.
  intros Hok Hseed Hfresh.
  assert (seed ∉ done) as Hnotin.
  { intros Hin. apply Hfresh.
    by apply (seen_visited voxelData gridSize visited done). }
  destruct Hok as (Hnodup & Hoccs & Hkeys). split_and!.
  - apply NoDup_app. split_and!; [done| |apply NoDup_singleton].
    by intros p Hp ->%list_elem_of_singleton.
  - intros p [Hp| ->%list_elem_of_singleton]%elem_of_app; auto.
  - intros k. rewrite elem_of_union, elem_of_singleton, Hkeys. split.
    + intros [->|(p & Hp & <-)].
      * exists seed. split; [|done]. apply elem_of_app. right.
        by apply list_elem_of_singleton.
      * exists p. split; [|done]. apply elem_of_app. by left.
    + intros (p & [Hp| ->%list_elem_of_singleton]%elem_of_app & <-);
        [right; by exists p|by left].
Qed.

(** The loop over the scanned positions returns, adding components that
    are non-empty, repeat no position, hold occupied positions only and
    cover every position the loop went through. *)
Lemma componentsFrom_spec (positions : list pos) (visited : gset string)
    (components : list (list pos)) :
  seen_ok voxelData gridSize visited (concat components) →
  (∀ p, p ∈ positions → occupied voxelData gridSize p) →
  ∃ more,
    componentsFrom (length (voxelPositions voxelData gridSize)) voxelData
      gridSize positions visited components = Returns (components ++ more)
    ∧ NoDup (concat (components ++ more))
    ∧ (∀ p, p ∈ concat (components ++ more) → occupied voxelData gridSize p)
    ∧ (∀ p, p ∈ positions → p ∈ concat (components ++ more))
    ∧ Forall (λ c, c ≠ []) more.
Proof.
  revert visited components.
  induction positions as [|seed positions IH];
    intros visited components Hok Hocc.
  { exists []. rewrite app_nil_r. destruct Hok as (? & ? & ?).
    split_and!; try done. by intros p Hp%elem_of_nil. }
  cbn [componentsFrom]. fold (key seed).
  assert (occupied voxelData gridSize seed) as Hseed by (apply Hocc; left).
  assert (∀ p, p ∈ positions → occupied voxelData gridSize p) as Hocc1
    by (intros; apply Hocc; by right).
  destruct (bool_decide (key seed ∈ visited)) eqn:Hvis; simpl.
  - apply bool_decide_eq_true in Hvis.
    destruct (IH visited components Hok Hocc1)
      as (more & Hrun & Hnodup & Hoccs & Hcover & Hne).
    exists more. split_and!; try done.
    intros p [->|Hp]%elem_of_cons; [|auto].
    rewrite concat_app, elem_of_app. left.
    by apply (seen_visited voxelData gridSize visited).
  - apply bool_decide_eq_false in Hvis.
    rewrite componentLoop_flood.
    destruct (flood_spec voxelData gridSize faceNbrs (λ _, True)
                (concat components)
                (length (voxelPositions voxelData gridSize)) [seed]
                ({[key seed]} ∪ visited) [])
      as (visited1 & rest & Hrun & Hfill); [done| |by apply todo_seed|].
    { split_and!; [|by intros p n Hp%elem_of_nil|done].
      by apply seen_ok_seed. }
    rewrite Hrun. simpl in Hfill. destruct Hfill as (Hok1 & _ & _).
    rewrite app_nil_r in Hok1.
    destruct (IH visited1 (components ++ [seed :: rest]))
      as (more & Hrun1 & Hnodup & Hoccs & Hcover & Hne); [|done|].
    { rewrite concat_app. simpl. by rewrite app_nil_r. }
    exists ((seed :: rest) :: more).
    rewrite <- app_assoc in Hrun1, Hnodup, Hoccs, Hcover.
    split_and!; try done.
    + intros p [->|Hp]%elem_of_cons; [|auto].
      rewrite concat_app, elem_of_app. right. simpl. left.
    + by constructor.
Qed.

Lemma findConnectedComponents_spec :
  ∃ components,
    findConnectedComponents (Some voxelData) gridSize = Returns components
    ∧ NoDup (concat components)
    ∧ (∀ p, p ∈ concat components ↔ occupied voxelData gridSize p)
    ∧ Forall (λ c, c ≠ []) components.
Proof.
  unfold findConnectedComponents.
  destruct (Z.leb_spec gridSize 0) as [Hsize|Hsize].
  { exists []. split_and!; [done|constructor| |done].
    intros p. split; [by intros Hp%elem_of_nil|].
    intros [(? & _) _]. lia. }
  destruct (Nat.eqb_spec (length (voxelPositions voxelData gridSize)) 0)
    as [Hnone|Hsome].
  { exists []. split_and!; [done|constructor| |done].
    intros p. split; [by intros Hp%elem_of_nil|].
    intros Hp%elem_of_voxelPositions.
    apply nil_length_inv in Hnone. rewrite Hnone in Hp.
    by apply elem_of_nil in Hp. }
  destruct (componentsFrom_spec (voxelPositions voxelData gridSize) ∅ [])
    as (components & Hrun & Hnodup & Hoccs & Hcover & Hne).
  { split_and!; [constructor|by intros p Hp%elem_of_nil|].
    intros k. split; [by intros Hk%elem_of_empty|].
    by intros (p & Hp%elem_of_nil & _). }
  { intros p. apply elem_of_voxelPositions. }
  exists components. simpl in *. split_and!; try done.
  intros p. split; [auto|]. intros Hp. by apply Hcover, elem_of_voxelPositions.
Qed.

End Components.

Lemma elem_of_concat {A} (x : A) (ls : list (list A)) :
  x ∈ concat ls ↔ ∃ j l, ls !! j = Some l ∧ x ∈ l.
Proof.
  induction ls as [|l ls IH]; simpl.
  - split; [by intros ?%elem_of_nil|]. by intros (j & l & ? & _).
  - rewrite elem_of_app, IH. split.
    + intros [Hx|(j & l1 & Hj & Hx)]; [by exists 0%nat, l|by exists (S j), l1].
    + intros ([|j] & l1 & Hj & Hx); simpl in Hj; [left; by simplify_eq|].
      right. by exists j, l1.
Qed.

(** In a repetition-free concatenation an element pins down its list. *)
Lemma concat_unique {A} (ls : list (list A)) (j1 j2 : nat) (l1 l2 : list A) x :
  NoDup (concat ls) → ls !! j1 = Some l1 → ls !! j2 = Some l2 →
  x ∈ l1 → x ∈ l2 → j1 = j2.
Proof.
  revert j1 j2. induction ls as [|l ls IH]; intros j1 j2 Hnodup H1 H2 Hx1 Hx2;
    [done|].
  simpl in Hnodup. apply NoDup_app in Hnodup as (_ & Hdisj & Hnodup).
  destruct j1 as [|j1], j2 as [|j2]; simpl in H1, H2; simplify_eq; try done.
  - destruct (Hdisj x Hx1). apply elem_of_concat. by exists j2, l2.
  - destruct (Hdisj x Hx2). apply elem_of_concat. by exists j1, l1.
  - f_equal. by apply IH.
Qed.

(** C1: [findConnectedComponents] returns the empty list for null data and
    for a non-positive size; and for an array of N*N*N cells it returns
    components that partition the occupied cells: no position, and no cell,
    occurs twice within or across components, no component is empty, every
    listed position lies in the grid on an occupied cell, every occupied
    cell is the cell of exactly one position of exactly one component, and
    the list is empty exactly when no cell is occupied. *)
Theorem findConnectedComponents_partitions :
  (∀ gridSize, findConnectedComponents None gridSize = Returns [])
  ∧ (∀ voxelData gridSize,
       gridSize <= 0 →
       findConnectedComponents (Some voxelData) gridSize = Returns [])
  ∧ ∀ (voxelData : list jsval) (gridSize : Z),
      Z.of_nat (length voxelData) = gridSize * gridSize * gridSize →
      ∃ components,
        findConnectedComponents (Some voxelData) gridSize = Returns components
        ∧ NoDup (concat components)
        ∧ NoDup (index gridSize <$> concat components)
        ∧ Forall (λ component, component ≠ []) components
        ∧ (∀ p, p ∈ concat components →
             inGrid gridSize p
             ∧ truthy (js_get voxelData (index gridSize p)) = true)
        ∧ (∀ i, truthy (js_get voxelData i) = true →
             ∃ j component p,
               components !! j = Some component ∧ p ∈ component
               ∧ index gridSize p = i
               ∧ ∀ j1 component1 p1,
                   components !! j1 = Some component1 → p1 ∈ component1 →
                   index gridSize p1 = i → j1 = j ∧ p1 = p)
        ∧ (components = [] ↔ ∀ i, truthy (js_get voxelData i) = false).
Proof.
  split; [done|]. split.
  { intros voxelData gridSize Hsize. unfold findConnectedComponents.
    by destruct (Z.leb_spec gridSize 0); [|lia]. }
  intros voxelData gridSize Hlen.
  destruct (findConnectedComponents_spec voxelData gridSize)
    as (components & Hrun & Hnodup & Hocc & Hne).
  assert (∀ i, truthy (js_get voxelData i) = true →
            ∃ p, p ∈ concat components ∧ index gridSize p = i) as Hcover.
  { intros i Hi. pose proof (truthy_get_range _ _ Hi) as Hrange.
    destruct (index_surj gridSize i) as (p & Hp & <-); [lia|].
    exists p. split; [|done]. by apply Hocc. }
  assert (∀ p q, p ∈ concat components → q ∈ concat components →
            index gridSize p = index gridSize q → p = q) as Hinj.
  { intros p q [Hp _]%Hocc [Hq _]%Hocc. by apply index_inj. }
  exists components. split_and!; try done.
  - by apply NoDup_fmap_2_strong.
  - intros p Hp. by apply Hocc.
  - intros i Hi. destruct (Hcover i Hi) as (p & Hp & Hidx).
    pose proof Hp as (j & component & Hj & Hin)%elem_of_concat.
    exists j, component, p. split_and!; try done.
    intros j1 component1 p1 Hj1 Hin1 Hidx1.
    assert (p1 = p) as ->.
    { apply Hinj; [|done|congruence]. apply elem_of_concat. eauto. }
    split; [|done]. by apply (concat_unique components j1 j component1 component p).
  - split.
    + intros -> i. destruct (truthy (js_get voxelData i)) eqn:Hi; [|done].
      destruct (Hcover i Hi) as (p & Hp & _). by apply elem_of_nil in Hp.
    + intros Hnone. destruct components as [|[|p c] cs]; [done| |].
      * by apply Forall_cons in Hne as [? _].
      * assert (p ∈ concat ((p :: c) :: cs)) as [_ Hp]%Hocc by (simpl; left).
        by rewrite Hnone in Hp.
Qed.

Lemma findConnectedComponents_partitions_witness :
  ∃ components,
    findConnectedComponents (Some diagonalGrid) 2 = Returns components
    ∧ NoDup (concat components).
Proof.
  destruct (proj2 (proj2 findConnectedComponents_partitions) diagonalGrid 2)
    as (components & Hrun & Hnodup & _); [reflexivity|].
  by exists components.
Defined.

Example findConnectedComponents_diagonal :
  findConnectedComponents (Some diagonalGrid) 2
  = Returns [[Pos 0 0 0]; [Pos 1 1 1]].
Proof. vm_compute. reflexivity. Qed.

(** ** Connectivity *)

Lemma reach_mono (voxelData : list jsval) (gridSize : Z)
    (nbrs1 nbrs2 : pos → list pos) (seed p : pos) :
  (∀ q, nbrs1 q ⊆ nbrs2 q) →
  reach voxelData gridSize nbrs1 seed p → reach voxelData gridSize nbrs2 seed p.
Proof.
  intros Hsub. induction 1 as [|p n _ IH Hn Hocc]; [constructor|].
  apply (reach_step _ _ _ _ p); [done| |done]. by apply Hsub.
Qed.

Section Connected.
Context (voxelData : list jsval) (gridSize : Z) (rule : jsval).

Lemma seen_size (visited : gset string) (seen : list pos) :
  seen_ok voxelData gridSize visited seen → size visited = length seen.
Proof.
  intros (Hnodup & _ & Hkeys).
  assert (visited = list_to_set (key <$> seen)) as ->.
  { apply set_eq. intros k.
    rewrite Hkeys, elem_of_list_to_set, list_elem_of_fmap.
    split; intros (p & ? & ?); by exists p. }
  rewrite size_list_to_set, length_fmap; [done|]. by apply NoDup_keys.
Qed.

(** A repetition-free list of occupied positions is as long as the scan
    exactly when it holds every occupied position. *)
Lemma covers_iff_length (seen : list pos) :
  NoDup seen → (∀ p, p ∈ seen → occupied voxelData gridSize p) →
  length seen = length (voxelPositions voxelData gridSize)
  ↔ ∀ p, occupied voxelData gridSize p → p ∈ seen.
Proof.
  intros Hnodup Hocc.
  assert (seen ⊆+ voxelPositions voxelData gridSize) as Hsub.
  { apply NoDup_submseteq; [done|]. intros p Hp.
    by apply elem_of_voxelPositions, Hocc. }
  split.
  - intros Hlen p Hp%elem_of_voxelPositions.
    apply submseteq_length_Permutation in Hsub; [|lia]. by rewrite Hsub.
  - intros Hall. apply Nat.le_antisymm; [by apply submseteq_length|].
    apply submseteq_length, NoDup_submseteq; [apply NoDup_voxelPositions|].
    intros p Hp%elem_of_voxelPositions. auto.
Qed.

(** The loop of [isShapeConnected], started from the first occupied
    position, returns, and it has visited as many positions as are occupied
    exactly when every occupied position is reachable from the first. *)
Lemma connectedLoop_spec (first : pos) :
  occupied voxelData gridSize first →
  ∃ visited,
    connectedLoop (length (voxelPositions voxelData gridSize)) voxelData
      gridSize rule [first] ({[key first]} ∪ ∅) = Some visited
    ∧ (size visited = length (voxelPositions voxelData gridSize)
       ↔ ∀ p, occupied voxelData gridSize p →
           reach voxelData gridSize (ruleNbrs rule) first p).
Proof.
  intros Hfirst.
  destruct (flood_spec voxelData gridSize (ruleNbrs rule)
              (reach voxelData gridSize (ruleNbrs rule) first)
              [] (length (voxelPositions voxelData gridSize)) [first]
              ({[key first]} ∪ ∅) [])
    as (visited & rest & Hrun & Hok & Hclosed & Hreach).
  { intros p n Hp Hn Hocc. by apply (reach_step _ _ _ _ p). }
  { split_and!.
    - apply (seen_ok_seed voxelData gridSize ∅ [] first); [|done|set_solver].
      split_and!; [constructor|by intros p Hp%elem_of_nil|].
      intros k. split; [by intros Hk%elem_of_empty|].
      by intros (p & Hp%elem_of_nil & _).
    - by intros p n Hp%elem_of_nil.
    - intros p ->%list_elem_of_singleton. constructor. }
  { by apply todo_seed. }
  exists visited. rewrite (connectedLoop_flood _ _ _ _ _ _ []), Hrun.
  split; [done|]. simpl in *. rewrite app_nil_r in *.
  rewrite (seen_size _ _ Hok).
  destruct Hok as (Hnodup & Hoccs & _).
  rewrite (covers_iff_length _ Hnodup Hoccs). split.
  - intros Hall p Hp. apply Hreach. auto.
  - intros Hall p Hp. specialize (Hall p Hp). clear Hp.
    induction Hall as [|q n _ IH Hn Hocc]; [left|].
    by apply (Hclosed q n).
Qed.

End Connected.

(** What [isShapeConnected] decides: some position is occupied and all
    occupied positions are reachable from the first one of the scan. *)
Lemma isShapeConnected_spec (voxelData : list jsval) (gridSize : Z)
    (rule : jsval) :
  ∃ b,
    isShapeConnected (Some voxelData) gridSize rule = Returns b
    ∧ (b = true ↔
       ∃ first, head (voxelPositions voxelData gridSize) = Some first
         ∧ ∀ p, occupied voxelData gridSize p →
             reach voxelData gridSize (ruleNbrs (defaultFace rule)) first p).
Proof.
  unfold isShapeConnected.
  destruct (Z.leb_spec gridSize 0) as [Hsize|Hsize].
  { exists false. split; [done|]. split; [done|].
    intros (first & Hhead%head_Some_elem_of & _).
    apply elem_of_voxelPositions in Hhead as [(? & _) _]. lia. }
  destruct (voxelPositions voxelData gridSize) as [|first [|second rest]] eqn:Hall.
  - exists false. split; [done|]. split; [done|]. by intros (first & ? & _).
  - exists true. split; [done|]. split; [|done]. intros _.
    exists first. split; [done|].
    intros p Hp%elem_of_voxelPositions. rewrite Hall in Hp.
    apply list_elem_of_singleton in Hp as ->. constructor.
  - destruct (connectedLoop_spec voxelData gridSize (defaultFace rule) first)
      as (visited & Hrun & Hsize1).
    { apply elem_of_voxelPositions. rewrite Hall. left. }
    rewrite Hall in Hrun, Hsize1. unfold key in Hrun. rewrite Hrun.
    eexists. split; [done|]. rewrite bool_decide_eq_true, Hsize1. split.
    + intros Hreach. by exists first.
    + by intros (first1 & [= <-] & Hreach).
Qed.

Lemma isShapeConnected_returns (voxelData : option (list jsval))
    (gridSize : Z) (rule : jsval) :
  ∃ b, isShapeConnected voxelData gridSize rule = Returns b.
Proof.
  destruct voxelData as [voxelData|]; [|by exists false].
  destruct (isShapeConnected_spec voxelData gridSize rule) as (b & Hb & _).
  by exists b.
Qed.

(** Connectivity only grows with the neighbourhood. *)
Lemma isShapeConnected_mono (voxelData : list jsval) (gridSize : Z)
    (rule1 rule2 : jsval) :
  (∀ p, ruleNbrs (defaultFace rule1) p ⊆ ruleNbrs (defaultFace rule2) p) →
  isShapeConnected (Some voxelData) gridSize rule1 = Returns true →
  isShapeConnected (Some voxelData) gridSize rule2 = Returns true.
Proof.
  intros Hsub H1.
  destruct (isShapeConnected_spec voxelData gridSize rule1) as (b1 & Hb1 & Hspec1).
  destruct (isShapeConnected_spec voxelData gridSize rule2) as (b2 & Hb2 & Hspec2).
  rewrite Hb2. f_equal. apply Hspec2.
  assert (b1 = true) as Htrue by congruence.
  apply Hspec1 in Htrue as (first & Hhead & Hreach).
  exists first. split; [done|]. intros p Hp.
  by apply (reach_mono _ _ _ _ _ _ Hsub), Hreach.
Qed.

(** The offsets: six for faces, twelve more for edges, eight more for
    corners. *)
Lemma getNeighbors_offsets (x y z : Z) :
  length (getNeighbors x y z (JStr "face")) = 6%nat
  ∧ ∃ edges corners,
      length edges = 12%nat ∧ length corners = 8%nat
      ∧ getNeighbors x y z (JStr "edge")
        = getNeighbors x y z (JStr "face") ++ edges
      ∧ getNeighbors x y z (JStr "corner")
        = getNeighbors x y z (JStr "edge") ++ corners.
Proof.
  split; [done|].
  exists (drop 6 (getNeighbors x y z (JStr "edge"))),
         (drop 18 (getNeighbors x y z (JStr "corner"))).
  done.
Qed.

Lemma ruleNbrs_face_edge (p : pos) :
  ruleNbrs (JStr "face") p ⊆ ruleNbrs (JStr "edge") p.
Proof.
  unfold ruleNbrs.
  destruct (getNeighbors_offsets (px p) (py p) (pz p))
    as (_ & edges & corners & _ & _ & -> & _).
  rewrite fmap_app. intros q Hq. apply elem_of_app. by left.
Qed.

Lemma ruleNbrs_edge_corner (p : pos) :
  ruleNbrs (JStr "edge") p ⊆ ruleNbrs (JStr "corner") p.
Proof.
  unfold ruleNbrs.
  destruct (getNeighbors_offsets (px p) (py p) (pz p))
    as (_ & edges & corners & _ & _ & _ & ->).
  rewrite fmap_app. intros q Hq. apply elem_of_app. by left.
Qed.

(** ** Counting occupied cells *)

Lemma filter_fmap_length {A B} (f : A → B) (P : B → Prop)
    `{!∀ x, Decision (P x)} (l : list A) :
  length (filter (λ x, P (f x)) l) = length (filter P (f <$> l)).
Proof.
  induction l as [|x l IH]; [done|].
  rewrite fmap_cons, !filter_cons. case_decide; simpl; by rewrite IH.
Qed.

(** The scan reaches every index of the array once. *)
Lemma index_coords_Permutation (n : Z) :
  index n <$> coords n ≡ₚ zrange (n * n * n).
Proof.
  apply NoDup_Permutation.
  - apply NoDup_fmap_2_strong; [|apply NoDup_coords].
    intros p q Hp%elem_of_coords Hq%elem_of_coords. by apply index_inj.
  - apply NoDup_zrange.
  - intros i. rewrite list_elem_of_fmap, elem_of_zrange. split.
    + intros (p & -> & Hp%elem_of_coords). by apply index_range.
    + intros Hi. destruct (index_surj n i Hi) as (p & Hp & <-).
      exists p. split; [done|]. by apply elem_of_coords.
Qed.

Lemma js_get_zrange (voxelData : list jsval) :
  js_get voxelData <$> zrange (Z.of_nat (length voxelData)) = voxelData.
Proof.
  unfold zrange. rewrite <- list_fmap_compose, Nat2Z.id.
  apply list_eq. intros i. rewrite list_lookup_fmap.
  destruct (voxelData !! i) as [v|] eqn:Hi.
  - rewrite lookup_seq_lt by by eapply lookup_lt_Some. simpl.
    f_equal. by apply js_get_lookup.
  - rewrite lookup_seq_ge; [done|]. by apply lookup_ge_None.
Qed.

(** On an array of N*N*N cells the scan finds as many positions as the
    array has truthy cells. *)
Lemma voxelPositions_count (voxelData : list jsval) (gridSize : Z) :
  Z.of_nat (length voxelData) = gridSize * gridSize * gridSize →
  length (voxelPositions voxelData gridSize)
  = length (filter (λ v, truthy v) voxelData).
Proof.
  intros Hlen. rewrite voxelPositions_filter.
  etrans; [exact (filter_fmap_length (index gridSize)
                    (λ i, truthy (js_get voxelData i)) (coords gridSize))|].
  rewrite index_coords_Permutation, <- Hlen.
  etrans; [exact (filter_fmap_length (js_get voxelData) (λ v, truthy v)
                    (zrange (Z.of_nat (length voxelData))))|].
  by rewrite js_get_zrange.
Qed.

Lemma no_truthy_no_positions (voxelData : list jsval) (gridSize : Z) :
  length (filter (λ v, truthy v) voxelData) = 0%nat →
  voxelPositions voxelData gridSize = [].
Proof.
  intros Hnone%nil_length_inv.
  destruct (voxelPositions voxelData gridSize) as [|p ps] eqn:Hall; [done|].
  assert (p ∈ voxelPositions voxelData gridSize) as [_ Hp]%elem_of_voxelPositions
    by (rewrite Hall; left).
  unfold js_get in Hp. case_match; [done|].
  destruct (voxelData !! _) as [v|] eqn:Hv; [|done]. simpl in Hp.
  assert (v ∈ filter (λ v, truthy v) voxelData) as Hin.
  { apply list_elem_of_filter. split; [by rewrite Hp|].
    by eapply list_elem_of_lookup_2. }
  rewrite Hnone in Hin. by apply elem_of_nil in Hin.
Qed.

(** C2: on an array of N*N*N cells, [isShapeConnected] returns false when
    no cell is occupied and true when exactly one is, under every rule; if
    it returns true under ['face'] it returns true under ['edge'] and under
    ['corner']; and the neighbour offsets are six for ['face'], these plus
    twelve for ['edge'], and these plus eight for ['corner']. *)
Theorem isShapeConnected_trivial_and_monotone (voxelData : list jsval)
    (gridSize : Z) :
  Z.of_nat (length voxelData) = gridSize * gridSize * gridSize →
  (length (filter (λ v, truthy v) voxelData) = 0%nat →
   ∀ rule, isShapeConnected (Some voxelData) gridSize rule = Returns false)
  ∧ (length (filter (λ v, truthy v) voxelData) = 1%nat →
     ∀ rule, isShapeConnected (Some voxelData) gridSize rule = Returns true)
  ∧ (isShapeConnected (Some voxelData) gridSize (JStr "face") = Returns true →
     isShapeConnected (Some voxelData) gridSize (JStr "edge") = Returns true
     ∧ isShapeConnected (Some voxelData) gridSize (JStr "corner") = Returns true)
  ∧ (∀ x y z,
       length (getNeighbors x y z (JStr "face")) = 6%nat
       ∧ ∃ edges corners,
           length edges = 12%nat ∧ length corners = 8%nat
           ∧ getNeighbors x y z (JStr "edge")
             = getNeighbors x y z (JStr "face") ++ edges
           ∧ getNeighbors x y z (JStr "corner")
             = getNeighbors x y z (JStr "edge") ++ corners).
Proof.
  intros Hlen. split_and!.
  - intros Hnone rule. unfold isShapeConnected.
    rewrite (no_truthy_no_positions voxelData gridSize) by done. by case_match.
  - intros Hone rule. unfold isShapeConnected.
    rewrite <- (voxelPositions_count voxelData gridSize) in Hone by done.
    destruct (Z.leb_spec gridSize 0) as [Hsize|Hsize].
    { destruct (voxelPositions voxelData gridSize) as [|p ps] eqn:Hall; [done|].
      assert (p ∈ voxelPositions voxelData gridSize)
        as [(? & _) _]%elem_of_voxelPositions by (rewrite Hall; left). lia. }
    by destruct (voxelPositions voxelData gridSize) as [|p [|q ps]].
  - intros Hface.
    assert (isShapeConnected (Some voxelData) gridSize (JStr "edge")
            = Returns true) as Hedge.
    { apply (isShapeConnected_mono _ _ (JStr "face")); [|done].
      apply ruleNbrs_face_edge. }
    split; [done|].
    apply (isShapeConnected_mono _ _ (JStr "edge")); [|done].
    apply ruleNbrs_edge_corner.
  - apply getNeighbors_offsets.
Qed.

Lemma isShapeConnected_trivial_and_monotone_witness :
  isShapeConnected (Some lineGrid) 2 (JStr "face") = Returns true
  ∧ isShapeConnected (Some lineGrid) 2 (JStr "edge") = Returns true
  ∧ isShapeConnected (Some lineGrid) 2 (JStr "corner") = Returns true.
Proof.
  assert (isShapeConnected (Some lineGrid) 2 (JStr "face") = Returns true)
    as Hface by (vm_compute; reflexivity).
  split; [exact Hface|].
  apply (isShapeConnected_trivial_and_monotone lineGrid 2); [reflexivity|].
  exact Hface.
Defined.

(** Two opposite corners of a grid of size 2 are connected by corners
    only. *)
Example isShapeConnected_diagonal :
  isShapeConnected (Some diagonalGrid) 2 (JStr "face") = Returns false
  ∧ isShapeConnected (Some diagonalGrid) 2 (JStr "edge") = Returns false
  ∧ isShapeConnected (Some diagonalGrid) 2 (JStr "corner") = Returns true.
Proof. repeat split; vm_compute; reflexivity. Qed.

(** ** Unknown rule names *)

Lemma is_string_false (v : jsval) (s : string) :
  v ≠ JStr s → is_string v s = false.
Proof.
  destruct v as [| | | | | |t| |]; try done. intros Hne. simpl.
  apply String.eqb_neq. congruence.
Qed.

Lemma getNeighbors_unknown (x y z : Z) (rule : jsval) :
  rule ≠ JStr "edge" → rule ≠ JStr "corner" →
  getNeighbors x y z rule = getNeighbors x y z (JStr "face").
Proof.
  intros Hedge Hcorner. unfold getNeighbors.
  by rewrite !is_string_false.
Qed.

(** The loop depends on the rule through its neighbours only. *)
Lemma connectedLoop_rule_ext (voxelData : list jsval) (gridSize : Z)
    (rule1 rule2 : jsval) :
  (∀ x y z, getNeighbors x y z rule1 = getNeighbors x y z rule2) →
  ∀ fuel queue visited,
    connectedLoop fuel voxelData gridSize rule1 queue visited
    = connectedLoop fuel voxelData gridSize rule2 queue visited.
Proof.
  intros Hsame. induction fuel as [|fuel IH]; intros [|current queue] visited;
    try reflexivity.
  cbn [connectedLoop]. rewrite Hsame.
  destruct (foldl _ _ _) as [visited1 queue1]. apply IH.
Qed.

Lemma defaultFace_idemp (rule : jsval) :
  defaultFace (defaultFace rule) = defaultFace rule.
Proof. by destruct rule. Qed.

Lemma isShapeConnected_defaultFace (voxelData : option (list jsval))
    (gridSize : Z) (rule : jsval) :
  isShapeConnected voxelData gridSize (defaultFace rule)
  = isShapeConnected voxelData gridSize rule.
Proof. unfold isShapeConnected. by rewrite defaultFace_idemp. Qed.

(** C10: for every rule value other than the strings ['edge'] and
    ['corner'], [getNeighbors] yields the face neighbours only and
    [isShapeConnected] returns what it returns for ['face']. *)
Theorem isShapeConnected_unknown_rule (voxelData : option (list jsval))
    (gridSize : Z) (rule : jsval) :
  rule ≠ JStr "edge" → rule ≠ JStr "corner" →
  (∀ x y z, getNeighbors x y z rule = getNeighbors x y z (JStr "face"))
  ∧ isShapeConnected voxelData gridSize rule
    = isShapeConnected voxelData gridSize (JStr "face").
Proof.
  intros Hedge Hcorner.
  split; [intros x y z; by apply getNeighbors_unknown|].
  unfold isShapeConnected. cbv zeta.
  destruct voxelData as [voxelData|]; [|done].
  destruct (gridSize <=? 0); [done|].
  destruct (voxelPositions voxelData gridSize) as [|first [|second rest]];
    [done|done|].
  rewrite (connectedLoop_rule_ext voxelData gridSize (defaultFace rule)
             (defaultFace (JStr "face"))); [done|].
  intros x y z. destruct rule; try done; by apply getNeighbors_unknown.
Qed.

Lemma isShapeConnected_unknown_rule_witness :
  isShapeConnected (Some diagonalGrid) 2 (JStr "Corner")
  = isShapeConnected (Some diagonalGrid) 2 (JStr "face").
Proof.
  by apply (isShapeConnected_unknown_rule (Some diagonalGrid) 2 (JStr "Corner")).
Defined.

(** ** The validator's verdict *)

Lemma getConnectivityDebugInfo_returns (voxelData : list jsval) (gridSize : Z) :
  ∃ info, getConnectivityDebugInfo (Some voxelData) gridSize = Returns info.
Proof.
  unfold getConnectivityDebugInfo.
  destruct (findConnectedComponents_spec voxelData gridSize)
    as (components & -> & _).
  by eexists.
Qed.

(** C3: for every array, positive size and rule, [validateShape] returns a
    result whose [isValid] is [hasVoxels && isConnected] and whose error list
    is empty exactly when [isValid] holds; [hasVoxels] says that some cell is
    truthy, and then [isConnected] is what [isShapeConnected] returns; with
    no truthy cell the result has [hasVoxels = false],
    [isConnected = false] and the single error
    "Shape must have at least one voxel". *)
Theorem validateShape_verdict (voxelData : list jsval) (gridSize : Z)
    (rule : jsval) :
  0 < gridSize →
  ∃ result,
    validateShape (Some voxelData) gridSize rule = Returns result
    ∧ isValid result = hasVoxels result && isConnected result
    ∧ (errors result = [] ↔ isValid result = true)
    ∧ (hasVoxels result = true ↔
       (0 < length (filter (λ voxel, truthy voxel) voxelData))%nat)
    ∧ (hasVoxels result = true →
       isShapeConnected (Some voxelData) gridSize rule
       = Returns (isConnected result))
    ∧ (length (filter (λ voxel, truthy voxel) voxelData) = 0%nat →
       hasVoxels result = false ∧ isConnected result = false
       ∧ errors result = ["Shape must have at least one voxel"]).
Proof.
  intros Hsize. unfold validateShape.
  destruct (getConnectivityDebugInfo_returns voxelData gridSize) as (info & ->).
  cbn [mbind outcome_bind].
  destruct (Nat.ltb_spec 0 (length (filter (λ voxel, truthy voxel) voxelData)))
    as [Hsome|Hnone]; cbn [negb].
  - rewrite isShapeConnected_defaultFace.
    destruct (isShapeConnected_returns (Some voxelData) gridSize rule)
      as (connected & ->).
    cbn [mbind outcome_bind].
    eexists. split; [done|]. cbn [isValid hasVoxels isConnected errors].
    split_and!; try done.
    + by destruct connected.
    + destruct connected; [done|]. simpl. by repeat case_match.
    + intros. lia.
  - eexists. split; [done|]. cbn [isValid hasVoxels isConnected errors].
    split_and!; try done.
    split; [done|lia].
Qed.

Lemma validateShape_verdict_witness :
  ∃ result,
    validateShape (Some diagonalGrid) 2 (JStr "face") = Returns result
    ∧ isValid result = hasVoxels result && isConnected result.
Proof.
  destruct (validateShape_verdict diagonalGrid 2 (JStr "face"))
    as (result & Hrun & Hvalid & _); [lia|].
  by exists result.
Defined.

(** The plus shape of five voxels is valid under the face rule, and the
    two opposite corners are reported as two parts. *)
Example validateShape_plus :
  (r ← validateShape (Some plusGrid) 3 (JStr "face");
   Returns (isValid r, errors r))
  = Returns (true, []).
Proof. vm_compute. reflexivity. Qed.

Example validateShape_diagonal :
  (r ← validateShape (Some diagonalGrid) 2 (JStr "face");
   Returns (isValid r, errors r))
  = Returns (false,
             ["All voxels must be connected by faces (found 2 separate parts)";
              "Floating voxels: 1 voxels in 1 groups"]).
Proof. vm_compute. reflexivity. Qed.

(** * Further properties of the codec *)

(** ** A payload and its shape *)

(** The fields of an encoded payload. *)
Lemma exportToJSON_fields (grid : list jsval) (meta : shape_metadata) :
  js_field (exportToJSON grid meta) "voxelDataString"
  = JStr (voxelDataToBinaryString grid)
  ∧ js_field (exportToJSON grid meta) "difficulty"
    = js_or (difficulty meta) (JNum (inject_Z 5))
  ∧ js_field (exportToJSON grid meta) "maxMoves"
    = js_or (maxMoves meta) (JNum (inject_Z 50)).
Proof.
  unfold exportToJSON, js_field. split_and!.
  - by rewrite lookup_insert_eq.
  - rewrite lookup_insert_ne by done. by rewrite lookup_insert_eq.
  - rewrite !lookup_insert_ne by done. by rewrite lookup_insert_eq.
Qed.

Lemma js_or_idemp (a b : jsval) :
  truthy b = true → js_or (js_or a b) b = js_or a b.
Proof. intros Hb. unfold js_or. destruct (truthy a) eqn:Ha; by rewrite ?Ha, ?Hb. Qed.

Lemma booleans_truthy (grid : list jsval) :
  Forall is_boolean grid → (λ cell, JBool (truthy cell)) <$> grid = grid.
Proof.
  induction 1 as [|c g [b ->] _ IH]; [done|]. by rewrite fmap_cons, IH.
Qed.

Lemma importFromJSON_exported (cbrt_impl : Z → Q) (grid : list jsval)
    (meta : shape_metadata) (n : Z) :
  cbrt_accurate cbrt_impl → Forall is_boolean grid →
  0 <= n → Z.of_nat (length grid) = n * n * n →
  importFromJSON cbrt_impl (exportToJSON grid meta)
  = Returns {| voxelData := grid;
               gridSize := n;
               metadata :=
                 {| difficulty := js_or (difficulty meta) (JNum (inject_Z 5));
                    maxMoves := js_or (maxMoves meta) (JNum (inject_Z 50)) |} |}.
Proof.
  intros Hacc Hbool Hn Hlen.
  destruct (exportToJSON_fields grid meta) as (Hs & Hd & Hm).
  rewrite (importFromJSON_string _ _ _ Hs), Hd, Hm.
  rewrite (detectGridSize_cube cbrt_impl _ n);
    [|done|done|by rewrite voxelDataToBinaryString_length].
  cbn [mbind outcome_bind].
  rewrite round_trip_truthy, booleans_truthy by done.
  by rewrite !js_or_idemp.
Qed.

(** X1: decoding what [exportToJSON] wrote for a boolean array of n*n*n
    cells returns that array, the size [n] and the metadata with the
    defaults 5 and 50 in place of falsy fields; and encoding the decoded
    shape again gives the same payload. *)
Theorem export_then_import (cbrt_impl : Z → Q) (grid : list jsval)
    (meta : shape_metadata) (n : Z) :
  cbrt_accurate cbrt_impl → Forall is_boolean grid →
  0 <= n → Z.of_nat (length grid) = n * n * n →
  ∃ decoded,
    importFromJSON cbrt_impl (exportToJSON grid meta) = Returns decoded
    ∧ voxelData decoded = grid
    ∧ gridSize decoded = n
    ∧ metadata decoded
      = {| difficulty := js_or (difficulty meta) (JNum (inject_Z 5));
           maxMoves := js_or (maxMoves meta) (JNum (inject_Z 50)) |}
    ∧ exportToJSON (voxelData decoded) (metadata decoded)
      = exportToJSON grid meta.
Proof.
  intros Hacc Hbool Hn Hlen.
  rewrite (importFromJSON_exported cbrt_impl grid meta n) by done.
  eexists. split; [done|]. cbn [voxelData gridSize metadata].
  split_and!; try done.
  unfold exportToJSON. cbn [difficulty maxMoves]. by rewrite !js_or_idemp.
Qed.

Lemma export_then_import_witness :
  ∃ decoded,
    importFromJSON nearest_cbrt
      (exportToJSON lineGrid
         {| difficulty := JNum (inject_Z 3); maxMoves := JUndefined |})
    = Returns decoded
    ∧ voxelData decoded = lineGrid.
Proof.
  destruct (export_then_import nearest_cbrt lineGrid
              {| difficulty := JNum (inject_Z 3); maxMoves := JUndefined |} 2)
    as (decoded & Hrun & Hcells & _).
  - apply nearest_cbrt_accurate.
  - repeat constructor; eexists; reflexivity.
  - lia.
  - reflexivity.
  - by exists decoded.
Defined.

(** A returned size is a cube root of the length, whatever the cube root
    function does. *)
Lemma detectGridSize_sound (cbrt_impl : Z → Q) (s : string) (n : Z) :
  detectGridSize cbrt_impl s = Returns n →
  0 <= n ∧ n * n * n = Z.of_nat (String.length s).
Proof.
  unfold detectGridSize.
  destruct (Z.eqb_spec
    (Math_round (Math_cbrt cbrt_impl (Z.of_nat (String.length s)))
     * Math_round (Math_cbrt cbrt_impl (Z.of_nat (String.length s)))
     * Math_round (Math_cbrt cbrt_impl (Z.of_nat (String.length s))))
    (Z.of_nat (String.length s))) as [Heq|Hne]; [|done].
  intros [= <-]. split; [|done]. nia.
Qed.

(** X2: with a cube root accurate to within one half, [detectGridSize]
    returns [n] exactly when [n] is the non-negative cube root of the
    length of the string, and when the length is not a cube it throws the
    error that names the length. *)
Theorem detectGridSize_perfect_cubes (cbrt_impl : Z → Q) (s : string) :
  cbrt_accurate cbrt_impl →
  (∀ n, detectGridSize cbrt_impl s = Returns n
        ↔ 0 <= n ∧ n * n * n = Z.of_nat (String.length s))
  ∧ ((∀ n, n * n * n ≠ Z.of_nat (String.length s)) →
     detectGridSize cbrt_impl s
     = Throws (Error ("Binary string length (" +:+
                      pretty (Z.of_nat (String.length s)) +:+
                      ") is not a perfect cube"))).
Proof.
  intros Hacc. split.
  - intros n. split; [apply detectGridSize_sound|].
    intros [Hn Hlen]. by apply detectGridSize_cube.
  - intros Hnone. apply detectGridSize_throws. apply Hnone.
Qed.

Lemma detectGridSize_perfect_cubes_witness :
  detectGridSize nearest_cbrt (voxelDataToBinaryString (filled 4)) = Returns 4.
Proof.
  apply (proj1 (detectGridSize_perfect_cubes nearest_cbrt
                  (voxelDataToBinaryString (filled 4)) nearest_cbrt_accurate)).
  split; [lia|reflexivity].
Defined.

Lemma errors_nil_length (errors : list string) :
  (length errors =? 0)%nat = true ↔ errors = [].
Proof. destruct errors; simpl; split; (done || lia || discriminate). Qed.

Lemma valid_format_inv (cbrt_impl : Z → Q) (payload : jsval) :
  fmt_isValid (validateJSONFormat cbrt_impl payload) = true →
  ∃ (s : string) (n : Z),
    js_field payload "voxelDataString" = JStr s
    ∧ test_binary s = true
    ∧ 1 <= n ∧ n * n * n = Z.of_nat (String.length s)
    ∧ notIntegerIn (js_field payload "difficulty") 1 10 = false
    ∧ notIntegerIn (js_field payload "maxMoves") 1 999 = false
    ∧ importFromJSON cbrt_impl payload
      = Returns {| voxelData := binaryStringToVoxelData s;
                   gridSize := n;
                   metadata :=
                     {| difficulty := js_field payload "difficulty";
                        maxMoves := js_field payload "maxMoves" |} |}.
Proof.
  unfold validateJSONFormat.
  destruct (negb (String.eqb (typeof payload) "object") ||
            match payload with JNull => true | _ => false end); [done|].
  cbn [fmt_isValid]. rewrite errors_nil_length.
  destruct (notIntegerIn (js_field payload "difficulty") 1 10) eqn:Hd.
  { intros H. destruct (notIntegerIn _ 1 999) in H;
      repeat (apply app_eq_nil in H as [H ?]); done. }
  destruct (notIntegerIn (js_field payload "maxMoves") 1 999) eqn:Hm.
  { intros H. by apply app_eq_nil in H as [_ ?]. }
  destruct (js_field payload "voxelDataString") as [| |b|q| |neg|s|items|props] eqn:Hs;
    try (cbn; rewrite ?orb_true_r; done).
  cbn [typeof string_of truthy].
  destruct (negb (negb (String.eqb s "")) || negb (String.eqb "string" "string"));
    [done|].
  destruct (test_binary s) eqn:Hbin; [|done]. cbn [negb].
  set (len := Z.of_nat (String.length s)).
  set (r := Math_round (Math_cbrt cbrt_impl len)).
  destruct (Z.eqb_spec (r * r * r) len) as [Hcube|]; [|done]. intros _.
  assert (s ≠ "") as Hne.
  { intros ->. done. }
  assert (0 < len) as Hpos.
  { subst len. destruct s; [done|]. simpl. lia. }
  exists s, r. split_and!; try done.
  - nia.
  - rewrite (importFromJSON_string _ _ _ Hs). unfold detectGridSize.
    fold len. fold r. rewrite (proj2 (Z.eqb_eq _ _) Hcube).
    cbn [mbind outcome_bind]. unfold js_or.
    apply notIntegerIn_spec in Hd as (qd & kd & Hqd & Heqd & Hkd).
    apply notIntegerIn_spec in Hm as (qm & km & Hqm & Heqm & Hkm).
    rewrite Hqd, Hqm. cbn [truthy].
    assert (Qeq_bool qd (inject_Z 0) = false) as ->.
    { apply not_true_iff_false. intros H%Qeq_bool_iff.
      assert (kd = 0); [|lia]. apply inject_Z_injective.
      by rewrite <- Heqd. }
    assert (Qeq_bool qm (inject_Z 0) = false) as ->.
    { apply not_true_iff_false. intros H%Qeq_bool_iff.
      assert (km = 0); [|lia]. apply inject_Z_injective.
      by rewrite <- Heqm. }
    done.
Qed.

(** ** Binary strings and the format check *)

Lemma test_binary_cons (c : ascii) (s : string) :
  test_binary (String c s)
  = (Ascii.eqb c "0"%char || Ascii.eqb c "1"%char)
    && forallb (λ c, Ascii.eqb c "0"%char || Ascii.eqb c "1"%char)
         (String.list_ascii_of_string s).
Proof. reflexivity. Qed.

Lemma encoded_digits (grid : list jsval) :
  forallb (λ c, Ascii.eqb c "0"%char || Ascii.eqb c "1"%char)
    (String.list_ascii_of_string (voxelDataToBinaryString grid)) = true.
Proof.
  induction grid as [|cell grid IH]; [done|].
  rewrite voxelDataToBinaryString_cons. simpl. rewrite IH.
  unfold bit_of. by destruct (truthy cell).
Qed.

Lemma test_binary_encoded (grid : list jsval) :
  grid ≠ [] → test_binary (voxelDataToBinaryString grid) = true.
Proof.
  destruct grid as [|cell grid]; [done|]. intros _.
  rewrite voxelDataToBinaryString_cons, test_binary_cons, encoded_digits.
  unfold bit_of. by destruct (truthy cell).
Qed.

Lemma notIntegerIn_truthy (v : jsval) (lo hi : Z) :
  0 < lo → notIntegerIn v lo hi = false → truthy v = true.
Proof.
  intros Hlo (q & k & -> & Hq & Hk)%notIntegerIn_spec. simpl.
  apply negb_true_iff, not_true_iff_false. intros H%Qeq_bool_iff.
  assert (k = 0); [|lia]. apply inject_Z_injective. by rewrite <- Hq.
Qed.

(** What the encoder writes for a shape with cells, the format check
    accepts, provided the metadata it writes are in range. *)
Lemma validateJSONFormat_exported (cbrt_impl : Z → Q) (grid : list jsval)
    (meta : shape_metadata) (n : Z) :
  cbrt_accurate cbrt_impl →
  1 <= n → Z.of_nat (length grid) = n * n * n →
  notIntegerIn (js_or (difficulty meta) (JNum (inject_Z 5))) 1 10 = false →
  notIntegerIn (js_or (maxMoves meta) (JNum (inject_Z 50))) 1 999 = false →
  validateJSONFormat cbrt_impl (exportToJSON grid meta)
  = {| fmt_isValid := true; fmt_errors := [] |}.
Proof.
  intros Hacc Hn Hlen Hd Hm.
  destruct (exportToJSON_fields grid meta) as (Hs & Hfd & Hfm).
  unfold validateJSONFormat. rewrite Hs, Hfd, Hfm, Hd, Hm.
  change (typeof (exportToJSON grid meta)) with "object".
  cbn [typeof string_of truthy].
  assert (grid ≠ []) as Hne.
  { intros ->. simpl in Hlen. nia. }
  rewrite (test_binary_encoded grid Hne).
  assert (String.eqb (voxelDataToBinaryString grid) "" = false) as ->.
  { destruct grid as [|cell grid]; [done|].
    by rewrite voxelDataToBinaryString_cons. }
  rewrite voxelDataToBinaryString_length, Hlen.
  rewrite Math_round_cbrt_cube by (done || lia).
  rewrite Z.eqb_refl. reflexivity.
Qed.

(** The empty grid is encoded to a payload that the format check rejects
    although the decoder accepts it. *)
Example empty_grid_payload :
  fmt_errors (validateJSONFormat nearest_cbrt
                (exportToJSON []
                   {| difficulty := JNum (inject_Z 3);
                      maxMoves := JNum (inject_Z 20) |}))
  = ["Missing or invalid voxelDataString field"].
Proof. vm_compute. reflexivity. Qed.








(** ** What the format check accepts *)

Lemma validateJSONFormat_errors (cbrt_impl : Z → Q) (payload : jsval) :
  fmt_isValid (validateJSONFormat cbrt_impl payload) = true
  ↔ fmt_errors (validateJSONFormat cbrt_impl payload) = [].
Proof.
  unfold validateJSONFormat. case_match; [done|].
  cbn [fmt_isValid fmt_errors]. apply errors_nil_length.
Qed.

Lemma validateJSONFormat_accepts (cbrt_impl : Z → Q)
    (props : gmap string jsval) (s : string) (n : Z) :
  cbrt_accurate cbrt_impl →
  props !! "voxelDataString" = Some (JStr s) →
  test_binary s = true →
  n * n * n = Z.of_nat (String.length s) →
  notIntegerIn (js_field (JObj props) "difficulty") 1 10 = false →
  notIntegerIn (js_field (JObj props) "maxMoves") 1 999 = false →
  validateJSONFormat cbrt_impl (JObj props)
  = {| fmt_isValid := true; fmt_errors := [] |}.
Proof.
  intros Hacc Hs Hbin Hcube Hd Hm.
  unfold validateJSONFormat. rewrite Hd, Hm.
  assert (js_field (JObj props) "voxelDataString" = JStr s) as ->.
  { unfold js_field. by rewrite Hs. }
  cbn [typeof string_of truthy]. rewrite Hbin.
  assert (String.eqb s "" = false) as ->.
  { unfold test_binary in Hbin. apply andb_true_iff in Hbin as [Hne _].
    by apply negb_true_iff in Hne. }
  assert (0 <= n) as Hn by nia.
  rewrite <- Hcube, Math_round_cbrt_cube by done.
  rewrite Z.eqb_refl. reflexivity.
Qed.

Lemma default_undefined (o : option jsval) (v : jsval) :
  v ≠ JUndefined → default JUndefined o = v → o = Some v.
Proof. destruct o; simpl; congruence. Qed.

(** X5: with a cube root accurate to within one half,
    [validateJSONFormat] reports [isValid] exactly when it reports no error,
    and exactly for the objects whose [voxelDataString] is a non-empty
    string of the digits 0 and 1 of length n*n*n for some n of at least 1,
    whose [difficulty] is an integer from 1 to 10 and whose [maxMoves] is an
    integer from 1 to 999. *)
Theorem validateJSONFormat_valid_iff (cbrt_impl : Z → Q) (payload : jsval) :
  cbrt_accurate cbrt_impl →
  (fmt_isValid (validateJSONFormat cbrt_impl payload) = true
   ↔ fmt_errors (validateJSONFormat cbrt_impl payload) = [])
  ∧ (fmt_isValid (validateJSONFormat cbrt_impl payload) = true
     ↔ ∃ (props : gmap string jsval) (s : string) (n : Z) (d m : Q) (kd km : Z),
         payload = JObj props
         ∧ props !! "voxelDataString" = Some (JStr s)
         ∧ s ≠ ""
         ∧ Forall (λ c, c = "0"%char ∨ c = "1"%char)
             (String.list_ascii_of_string s)
         ∧ 1 <= n ∧ n * n * n = Z.of_nat (String.length s)
         ∧ props !! "difficulty" = Some (JNum d)
         ∧ (d == inject_Z kd)%Q ∧ 1 <= kd <= 10
         ∧ props !! "maxMoves" = Some (JNum m)
         ∧ (m == inject_Z km)%Q ∧ 1 <= km <= 999).
Proof.
  intros Hacc. split; [apply validateJSONFormat_errors|]. split.
  - intros Hvalid.
    destruct (valid_format_inv cbrt_impl payload Hvalid)
      as (s & n & Hs & Hbin & Hn & Hcube & Hd & Hm & _).
    destruct payload as [| | | | | | | |props]; try done.
    apply notIntegerIn_spec in Hd as (d & kd & Hd & Hdk & Hkd).
    apply notIntegerIn_spec in Hm as (m & km & Hm & Hmk & Hkm).
    unfold js_field in Hs, Hd, Hm.
    exists props, s, n, d, m, kd, km.
    unfold test_binary in Hbin. apply andb_true_iff in Hbin as [Hne Hdigits].
    split_and!; try done; try lia; try (by apply default_undefined).
    + intros ->. done.
    + apply Forall_forall. intros c Hc.
      rewrite forallb_forall in Hdigits.
      specialize (Hdigits c (proj1 (list_elem_of_In _ _) Hc)).
      apply orb_true_iff in Hdigits as [?%Ascii.eqb_eq|?%Ascii.eqb_eq]; auto.
  - intros (props & s & n & d & m & kd & km & -> & Hs & Hne & Hdigits & Hn
            & Hcube & Hd & Hdk & Hkd & Hm & Hmk & Hkm).
    rewrite (validateJSONFormat_accepts cbrt_impl props s n); try done.
    + unfold test_binary. apply andb_true_iff. split.
      * apply negb_true_iff, String.eqb_neq. done.
      * apply forallb_forall. intros c Hc%list_elem_of_In.
        rewrite Forall_forall in Hdigits.
        destruct (Hdigits c Hc) as [-> | ->]; done.
    + apply notIntegerIn_spec. exists d, kd. unfold js_field. by rewrite Hd.
    + apply notIntegerIn_spec. exists m, km. unfold js_field. by rewrite Hm.
Qed.

Lemma validateJSONFormat_valid_iff_witness :
  fmt_isValid (validateJSONFormat nearest_cbrt (JObj ∅)) = true
  ↔ fmt_errors (validateJSONFormat nearest_cbrt (JObj ∅)) = [].
Proof.
  apply (validateJSONFormat_valid_iff nearest_cbrt (JObj ∅)).
  apply nearest_cbrt_accurate.
Defined.

(** * Further properties of the resampler *)

Lemma stores_get_other {A} (idx : A → Z) (val : A → jsval) (arr : list jsval)
    (ps : list A) (i : Z) :
  (∀ q, q ∈ ps → 0 <= idx q < Z.of_nat (length arr)) →
  (∀ q, q ∈ ps → idx q ≠ i) →
  js_get (stores idx val arr ps) i = js_get arr i.
Proof.
  induction ps as [|q ps IH] using rev_ind; intros Hin Hne; [done|].
  unfold stores. rewrite foldl_snoc. fold (stores idx val arr ps).
  rewrite js_get_set_ne.
  - apply IH.
    + intros r Hr. apply Hin, elem_of_app. by left.
    + intros r Hr. apply Hne, elem_of_app. by left.
  - rewrite stores_length.
    + apply Hin, elem_of_app. right. by apply list_elem_of_singleton.
    + intros r Hr. apply Hin, elem_of_app. by left.
  - apply Hne, elem_of_app. right. by apply list_elem_of_singleton.
Qed.

Lemma js_get_blank (n i : Z) :
  0 <= i < n * n * n → js_get (blank n) i = JBool false.
Proof.
  intros Hi. unfold js_get, blank.
  destruct (Z.ltb_spec i 0); [lia|].
  rewrite lookup_replicate_2 by lia. done.
Qed.

Lemma pad_in_range (s t : Z) (q : pos) :
  0 <= t → s <= t → q ∈ coords s →
  0 <= index t (shift ((t - s) `div` 2) q) < Z.of_nat (length (blank t)).
Proof.
  intros Ht Hst Hq%elem_of_coords.
  assert (0 <= (t - s) `div` 2) as Ho by (apply Z.div_pos; lia).
  assert (2 * ((t - s) `div` 2) <= t - s) as Ho2 by (apply Z.mul_div_le; lia).
  rewrite blank_length by lia. apply index_range.
  apply (shift_inGrid s); [done|lia|done].
Qed.

(** For a target size that is not negative and whose cube is an array
    length the conversion returns, with exactly that many cells. *)
Lemma convertGridSize_returns (voxelData : list jsval)
    (fromGridSize toGridSize : Z) :
  0 <= toGridSize →
  toGridSize * toGridSize * toGridSize <= MAX_ARRAY_LENGTH →
  ∃ newVoxelData,
    convertGridSize voxelData fromGridSize toGridSize = Returns newVoxelData
    ∧ Z.of_nat (length newVoxelData) = toGridSize * toGridSize * toGridSize.
Proof.
  intros Ht Hfit.
  destruct (Z.le_gt_cases fromGridSize toGridSize) as [Hle|Hgt].
  - rewrite convertGridSize_pad by done. eexists. split; [done|].
    rewrite stores_length; [by apply blank_length|].
    intros q Hq. by apply pad_in_range.
  - rewrite convertGridSize_crop by lia. eexists. split; [done|].
    rewrite stores_length; [by apply blank_length|].
    intros q Hq%elem_of_coords. rewrite blank_length by done.
    by apply index_range.
Qed.




(** X6: [convertGridSize] throws a RangeError when the target size is
    negative or its cube is above the largest array length 2^32 - 1 (as for
    the size 1626), and otherwise returns an array of exactly target^3
    cells, whatever the source array and the source size are. *)
Theorem convertGridSize_output_size (voxelData : list jsval)
    (fromGridSize toGridSize : Z) :
  (toGridSize < 0
   ∨ MAX_ARRAY_LENGTH < toGridSize * toGridSize * toGridSize
   ↔ convertGridSize voxelData fromGridSize toGridSize = Throws RangeError)
  ∧ (0 <= toGridSize
     ∧ toGridSize * toGridSize * toGridSize <= MAX_ARRAY_LENGTH
     ↔ ∃ newVoxelData,
         convertGridSize voxelData fromGridSize toGridSize
         = Returns newVoxelData)
  ∧ (∀ newVoxelData,
       convertGridSize voxelData fromGridSize toGridSize
       = Returns newVoxelData →
       Z.of_nat (length newVoxelData)
       = toGridSize * toGridSize * toGridSize)
  ∧ convertGridSize voxelData fromGridSize 1626 = Throws RangeError.
Proof.
  split_and!.
  - split; [apply convertGridSize_throws|]. intros Hthrows.
    destruct (Z.lt_ge_cases toGridSize 0) as [Hneg|Ht]; [by left|].
    destruct (Z.lt_ge_cases MAX_ARRAY_LENGTH
                (toGridSize * toGridSize * toGridSize)) as [Hbig|Hfit];
      [by right|].
    destruct (convertGridSize_returns voxelData fromGridSize toGridSize
                Ht Hfit) as (newVoxelData & Hrun & _).
    congruence.
  - split.
    + intros [Ht Hfit].
      destruct (convertGridSize_returns voxelData fromGridSize toGridSize
                  Ht Hfit) as (newVoxelData & Hrun & _).
      by exists newVoxelData.
    + intros (newVoxelData & Hrun).
      by apply (convertGridSize_allocates _ _ _ _ Hrun).
  - intros newVoxelData Hrun.
    destruct (convertGridSize_allocates _ _ _ _ Hrun) as [Ht Hfit].
    destruct (convertGridSize_returns voxelData fromGridSize toGridSize
                Ht Hfit) as (newVoxelData1 & Hrun1 & Hlen).
    congruence.
  - apply convertGridSize_throws. right. unfold MAX_ARRAY_LENGTH. lia.
Qed.

(** X7: converting an array (of at most 2^32 - 1 cells, as every array is)
    of n*n*n cells from size [n] to the same size returns the array
    unchanged. *)
Theorem convertGridSize_same_size (grid : list jsval) (n : Z) :
  Z.of_nat (length grid) <= MAX_ARRAY_LENGTH →
  Z.of_nat (length grid) = n * n * n →
  convertGridSize grid n n = Returns grid.
Proof.
  intros Hfit Hlen.
  destruct (Z.lt_ge_cases n 0) as [Hneg|Hn]; [nia|].
  destruct (convertGridSize grid n n) as [copy| |] eqn:Hrun;
    try (rewrite convertGridSize_pad in Hrun by lia; discriminate).
  destruct (pad_spec grid n n copy) as [Hlen1 Hget]; [lia|done|].
  f_equal. apply js_get_ext; [lia|].
  intros i Hi. destruct (index_surj n i) as (p & Hp & <-); [lia|].
  specialize (Hget p Hp). by rewrite Z.sub_diag, shift_zero in Hget.
Qed.

Lemma convertGridSize_same_size_witness :
  convertGridSize lineGrid 2 2 = Returns lineGrid.
Proof.
  apply (convertGridSize_same_size lineGrid 2);
    [unfold MAX_ARRAY_LENGTH; simpl; lia|reflexivity].
Defined.

(** ** Padding and cropping *)

Lemma occupiedCount_positions (voxelData : list jsval) (gridSize : Z) :
  Z.of_nat (length voxelData) = gridSize * gridSize * gridSize →
  occupiedCount voxelData = length (voxelPositions voxelData gridSize).
Proof. intros Hlen. unfold occupiedCount. by rewrite voxelPositions_count. Qed.

Lemma NoDup_shift (o : Z) (l : list pos) : NoDup l → NoDup (shift o <$> l).
Proof.
  apply NoDup_fmap_2_strong. intros p q _ _. apply shift_inj.
Qed.

(** Cells of the padded array outside the image of the source are blank. *)
Lemma pad_blank (voxelData : list jsval) (s t : Z) (padded : list jsval)
    (q : pos) :
  0 <= t → s <= t →
  convertGridSize voxelData s t = Returns padded →
  inGrid t q → (∀ p, inGrid s p → q ≠ shift ((t - s) `div` 2) p) →
  js_get padded (index t q) = JBool false.
Proof.
  intros Ht Hst Hrun.
  destruct (convertGridSize_allocates _ _ _ _ Hrun) as [_ Hfit].
  revert Hrun. rewrite convertGridSize_pad by done. intros [= <-] Hq Hout.
  rewrite stores_get_other.
  - apply js_get_blank. by apply index_range.
  - intros p Hp. by apply pad_in_range.
  - intros p Hp Heq. apply (Hout p); [by apply elem_of_coords|].
    apply (index_inj t); [done| |done].
    assert (0 <= (t - s) `div` 2) as Ho by (apply Z.div_pos; lia).
    assert (2 * ((t - s) `div` 2) <= t - s) as Ho2 by (apply Z.mul_div_le; lia).
    apply (shift_inGrid s); [done|lia|]. by apply elem_of_coords.
Qed.

Lemma pad_positions (grid : list jsval) (s t : Z) (padded : list jsval) :
  0 <= s <= t → Z.of_nat (length grid) = s * s * s →
  convertGridSize grid s t = Returns padded →
  voxelPositions padded t
  ≡ₚ shift ((t - s) `div` 2) <$> voxelPositions grid s.
Proof.
  intros Hst Hlen Hrun.
  destruct (pad_spec grid s t padded) as [Hlen1 Hget]; [done|done|].
  assert (0 <= (t - s) `div` 2) as Ho by (apply Z.div_pos; lia).
  assert (2 * ((t - s) `div` 2) <= t - s) as Ho2 by (apply Z.mul_div_le; lia).
  apply NoDup_Permutation.
  - apply NoDup_voxelPositions.
  - apply NoDup_shift, NoDup_voxelPositions.
  - intros q. rewrite elem_of_voxelPositions, list_elem_of_fmap.
    setoid_rewrite elem_of_voxelPositions. split.
    + intros [Hq Htruthy].
      destruct (decide (q ∈ shift ((t - s) `div` 2) <$> coords s)) as [Hin|Hout].
      * apply list_elem_of_fmap in Hin as (p & -> & Hp%elem_of_coords).
        exists p. split; [done|]. split; [done|]. by rewrite <- Hget.
      * rewrite (pad_blank grid s t padded q) in Htruthy; [done|lia|lia|done|done|].
        intros p Hp ->. apply Hout, list_elem_of_fmap_2. by apply elem_of_coords.
    + intros (p & -> & Hp & Htruthy). split.
      * apply (shift_inGrid s); [done|lia|done].
      * by rewrite Hget.
Qed.

Lemma pad_count (grid : list jsval) (s t : Z) (padded : list jsval) :
  0 <= s <= t → Z.of_nat (length grid) = s * s * s →
  convertGridSize grid s t = Returns padded →
  occupiedCount padded = occupiedCount grid.
Proof.
  intros Hst Hlen Hrun.
  destruct (pad_spec grid s t padded) as [Hlen1 _]; [done|done|].
  rewrite (occupiedCount_positions padded t Hlen1).
  rewrite (occupiedCount_positions grid s Hlen).
  rewrite (pad_positions grid s t padded Hst Hlen Hrun).
  apply length_fmap.
Qed.

(** X8: when an array of s*s*s cells is converted to a size t not smaller
    than s, every cell of the result that no source cell was copied to is
    [false], the occupied positions of the result are the occupied source
    positions moved by floor((t-s)/2) along each axis, and the number of
    occupied cells is unchanged. *)
Theorem convertGridSize_pad_keeps_voxels (grid : list jsval) (s t : Z)
    (padded : list jsval) :
  0 <= s <= t → Z.of_nat (length grid) = s * s * s →
  convertGridSize grid s t = Returns padded →
  (∀ q, inGrid t q →
     (∀ p, inGrid s p → q ≠ shift ((t - s) `div` 2) p) →
     js_get padded (index t q) = JBool false)
  ∧ (∀ q, occupied padded t q ↔
          ∃ p, q = shift ((t - s) `div` 2) p ∧ occupied grid s p)
  ∧ occupiedCount padded = occupiedCount grid.
Proof.
  intros Hst Hlen Hrun. split_and!.
  - intros q Hq Hout. apply (pad_blank grid s t padded q); (done || lia).
  - intros q. rewrite <- elem_of_voxelPositions.
    rewrite (pad_positions grid s t padded Hst Hlen Hrun), list_elem_of_fmap.
    by setoid_rewrite elem_of_voxelPositions.
  - by apply (pad_count grid s t).
Qed.

Lemma convertGridSize_pad_keeps_voxels_witness :
  ∃ padded,
    convertGridSize lineGrid 2 3 = Returns padded
    ∧ occupiedCount padded = occupiedCount lineGrid.
Proof.
  eexists. split; [vm_compute; reflexivity|].
  refine (proj2 (proj2
    (convertGridSize_pad_keeps_voxels lineGrid 2 3 _ _ _ _))).
  - lia.
  - reflexivity.
  - vm_compute. reflexivity.
Defined.

(** X9: when an array of s*s*s cells is converted to a smaller size t,
    each cell of the result is the source cell floor((s-t)/2) further along
    each axis; the result has at most as many occupied cells as the source,
    and as many exactly when every occupied source position lies in that
    window. *)
Theorem convertGridSize_crop_window (grid : list jsval) (s t : Z)
    (cropped : list jsval) :
  0 <= t < s → Z.of_nat (length grid) = s * s * s →
  convertGridSize grid s t = Returns cropped →
  (∀ p, inGrid t p →
     js_get cropped (index t p)
     = js_get grid (index s (shift ((s - t) `div` 2) p)))
  ∧ (occupiedCount cropped ≤ occupiedCount grid)%nat
  ∧ (occupiedCount cropped = occupiedCount grid ↔
     ∀ p, occupied grid s p →
       ∃ q, inGrid t q ∧ p = shift ((s - t) `div` 2) q).
Proof.
  intros Hst Hlen Hrun.
  destruct (crop_spec grid s t cropped) as [Hlen1 Hget]; [done|done|].
  assert (0 <= (s - t) `div` 2) as Ho by (apply Z.div_pos; lia).
  assert (2 * ((s - t) `div` 2) <= s - t) as Ho2 by (apply Z.mul_div_le; lia).
  split; [done|].
  rewrite (occupiedCount_positions cropped t Hlen1).
  rewrite (occupiedCount_positions grid s Hlen).
  rewrite <- (length_fmap (shift ((s - t) `div` 2)) (voxelPositions cropped t)).
  assert (∀ q, q ∈ shift ((s - t) `div` 2) <$> voxelPositions cropped t ↔
            ∃ p, q = shift ((s - t) `div` 2) p ∧ inGrid t p ∧ occupied grid s q)
    as Himage.
  { intros q. rewrite list_elem_of_fmap.
    setoid_rewrite elem_of_voxelPositions. split.
    - intros (p & -> & Hp & Htruthy). exists p.
      split; [done|]. split; [done|]. split.
      + apply (shift_inGrid t); [done|lia|done].
      + by rewrite <- Hget.
    - intros (p & -> & Hp & _ & Htruthy). exists p.
      split; [done|]. split; [done|]. by rewrite Hget. }
  assert (shift ((s - t) `div` 2) <$> voxelPositions cropped t
          ⊆+ voxelPositions grid s) as Hsub.
  { apply NoDup_submseteq; [apply NoDup_shift, NoDup_voxelPositions|].
    intros q (p & _ & _ & Hocc)%Himage. by apply elem_of_voxelPositions. }
  split; [by apply submseteq_length|]. split.
  - intros Heq p Hp%elem_of_voxelPositions.
    apply submseteq_length_Permutation in Hsub; [|lia].
    rewrite <- Hsub in Hp. apply Himage in Hp as (q & -> & Hq & _). by exists q.
  - intros Hall. apply Nat.le_antisymm; [by apply submseteq_length|].
    apply submseteq_length, NoDup_submseteq; [apply NoDup_voxelPositions|].
    intros p Hp%elem_of_voxelPositions. apply Himage.
    destruct (Hall p Hp) as (q & Hq & ->). by exists q.
Qed.

Lemma convertGridSize_crop_window_witness :
  ∃ cropped,
    convertGridSize diagonalGrid 2 1 = Returns cropped
    ∧ (occupiedCount cropped ≤ occupiedCount diagonalGrid)%nat.
Proof.
  eexists. split; [vm_compute; reflexivity|].
  refine (proj1 (proj2
    (convertGridSize_crop_window diagonalGrid 2 1 _ _ _ _))).
  - lia.
  - reflexivity.
  - vm_compute. reflexivity.
Defined.

(** Cropping the two opposite corners of the size-2 grid to size 1 keeps
    the first and silently drops the second. *)
Example convertGridSize_crop_drops :
  convertGridSize diagonalGrid 2 1 = Returns [JBool true].
Proof. vm_compute. reflexivity. Qed.

(** ** Loading a payload *)



(** A validated payload of size 1 loaded at the sizes 3 and 1626. *)
Example loading_at_three_and_at_1626 :
  (loaded ← importFromJSONWithGridConversion nearest_cbrt
     (JObj (<["voxelDataString" := JStr "1"]>
            (<["difficulty" := JNum (inject_Z 5)]>
             (<["maxMoves" := JNum (inject_Z 50)]> ∅)))) 3;
   Returns (length (conv_voxelData loaded), originalGridSize loaded))
  = Returns (27%nat, Some 1)
  ∧ importFromJSONWithGridConversion nearest_cbrt
      (JObj (<["voxelDataString" := JStr "1"]>
             (<["difficulty" := JNum (inject_Z 5)]>
              (<["maxMoves" := JNum (inject_Z 50)]> ∅)))) 1626
    = Throws RangeError.
Proof. split; vm_compute; reflexivity. Qed.

(** X11: what [exportToJSON] writes for a boolean array of n*n*n cells (n at
    least 1) passes [validateJSONFormat] when the difficulty and maxMoves it
    writes (the given ones, or 5 and 50 for falsy ones) are integers in
    1..10 and 1..999; loading the payload at size [n] gives back the array,
    unconverted, with the written metadata, which are the given metadata
    when these are in range themselves. *)
Theorem save_then_load (cbrt_impl : Z → Q) (grid : list jsval)
    (meta : shape_metadata) (n : Z) :
  cbrt_accurate cbrt_impl → Forall is_boolean grid →
  1 <= n → Z.of_nat (length grid) = n * n * n →
  notIntegerIn (js_or (difficulty meta) (JNum (inject_Z 5))) 1 10 = false →
  notIntegerIn (js_or (maxMoves meta) (JNum (inject_Z 50))) 1 999 = false →
  fmt_isValid (validateJSONFormat cbrt_impl (exportToJSON grid meta)) = true
  ∧ importFromJSONWithGridConversion cbrt_impl (exportToJSON grid meta) n
    = Returns {| conv_voxelData := grid;
                 conv_gridSize := n;
                 conv_metadata :=
                   {| difficulty :=
                        js_or (difficulty meta) (JNum (inject_Z 5));
                      maxMoves :=
                        js_or (maxMoves meta) (JNum (inject_Z 50)) |};
                 originalGridSize := None;
                 wasConverted := false |}
  ∧ (notIntegerIn (difficulty meta) 1 10 = false →
     notIntegerIn (maxMoves meta) 1 999 = false →
     importFromJSONWithGridConversion cbrt_impl (exportToJSON grid meta) n
     = Returns {| conv_voxelData := grid;
                  conv_gridSize := n;
                  conv_metadata := meta;
                  originalGridSize := None;
                  wasConverted := false |}).
Proof.
  intros Hacc Hbool Hn Hlen Hd Hm.
  assert (importFromJSONWithGridConversion cbrt_impl (exportToJSON grid meta) n
          = Returns {| conv_voxelData := grid;
                       conv_gridSize := n;
                       conv_metadata :=
                         {| difficulty :=
                              js_or (difficulty meta) (JNum (inject_Z 5));
                            maxMoves :=
                              js_or (maxMoves meta) (JNum (inject_Z 50)) |};
                       originalGridSize := None;
                       wasConverted := false |}) as Hload.
  { unfold importFromJSONWithGridConversion.
    rewrite (importFromJSON_exported cbrt_impl grid meta n) by (done || lia).
    cbn [mbind outcome_bind gridSize voxelData metadata].
    by rewrite Z.eqb_refl. }
  split_and!; [|done|].
  - by rewrite (validateJSONFormat_exported cbrt_impl grid meta n).
  - intros Hd1 Hm1. rewrite Hload. unfold js_or.
    rewrite (notIntegerIn_truthy _ 1 10 ltac:(lia) Hd1).
    rewrite (notIntegerIn_truthy _ 1 999 ltac:(lia) Hm1).
    by destruct meta.
Qed.

Lemma save_then_load_witness :
  importFromJSONWithGridConversion nearest_cbrt
    (exportToJSON lineGrid
       {| difficulty := JNaN; maxMoves := JNum (inject_Z 20) |}) 2
  = Returns {| conv_voxelData := lineGrid;
               conv_gridSize := 2;
               conv_metadata := {| difficulty := JNum (inject_Z 5);
                                   maxMoves := JNum (inject_Z 20) |};
               originalGridSize := None;
               wasConverted := false |}.
Proof.
  refine (proj1 (proj2 (save_then_load nearest_cbrt lineGrid
           {| difficulty := JNaN; maxMoves := JNum (inject_Z 20) |} 2
           _ _ _ _ _ _))).
  - apply nearest_cbrt_accurate.
  - repeat constructor; eexists; reflexivity.
  - lia.
  - reflexivity.
  - reflexivity.
  - reflexivity.
Defined.

(** * Further properties of the connectivity analysis *)

(** ** Neighbours *)

Lemma unit_offset (a b : Z) :
  Z.abs (b - a) <= 1 → ∃ d, b = a + d ∧ (d = -1 ∨ d = 0 ∨ d = 1).
Proof. intros H. exists (b - a). lia. Qed.

Lemma getNeighbors_elem (x y z : Z) (rule : jsval) (nx ny nz : Z) :
  (nx, ny, nz) ∈ getNeighbors x y z rule
  ↔ adjacent (ruleSpan rule) (Pos x y z) (Pos nx ny nz).
Proof.
  unfold getNeighbors, ruleSpan, adjacent. cbn [px py pz].
  destruct (is_string rule "corner"), (is_string rule "edge");
    cbn [orb fmap list_fmap app]; set_unfold; (split;
    [ intros H; destruct_or!; simplify_eq; lia
    | intros (Hx & Hy & Hz & Hd);
      apply unit_offset in Hx as (dx & -> & Hx);
      apply unit_offset in Hy as (dy & -> & Hy);
      apply unit_offset in Hz as (dz & -> & Hz);
      destruct_or!; subst; first [lia | pick_disjunct] ]).
Qed.

Lemma NoDup_getNeighbors (x y z : Z) (rule : jsval) :
  NoDup (getNeighbors x y z rule).
Proof.
  unfold getNeighbors.
  destruct (is_string rule "corner"), (is_string rule "edge");
    cbn [orb fmap list_fmap app];
    repeat (apply NoDup_cons; split;
            [set_unfold; intros H; destruct_or!; simplify_eq; lia|]);
    apply NoDup_nil_2.
Qed.

Lemma ruleSpan_range (rule : jsval) : 1 <= ruleSpan rule <= 3.
Proof. unfold ruleSpan. repeat case_match; lia. Qed.

Lemma elem_of_ruleNbrs (rule : jsval) (p q : pos) :
  q ∈ ruleNbrs rule p ↔ adjacent (ruleSpan rule) p q.
Proof.
  unfold ruleNbrs. rewrite list_elem_of_fmap. destruct p as [x y z], q as [nx ny nz].
  cbn [px py pz]. split.
  - intros ([[ax ay] az] & [= -> -> ->] & Hin). by apply getNeighbors_elem.
  - intros Hadj. exists (nx, ny, nz). split; [done|]. by apply getNeighbors_elem.
Qed.

Lemma elem_of_faceNbrs (p q : pos) : q ∈ faceNbrs p ↔ adjacent 1 p q.
Proof.
  unfold faceNbrs, directions, adjacent. destruct p as [x y z], q as [nx ny nz].
  cbn [fmap list_fmap px py pz]. set_unfold. split.
  - intros H; destruct_or!; simplify_eq; lia.
  - intros (Hx & Hy & Hz & Hd).
    apply unit_offset in Hx as (dx & -> & Hx);
    apply unit_offset in Hy as (dy & -> & Hy);
    apply unit_offset in Hz as (dz & -> & Hz);
    destruct_or!; subst; first [lia | pick_disjunct].
Qed.

Lemma adjacent_sym (span : Z) (p q : pos) : adjacent span p q → adjacent span q p.
Proof. unfold adjacent. lia. Qed.

Lemma adjacent_mono (s1 s2 : Z) (p q : pos) :
  s1 <= s2 → adjacent s1 p q → adjacent s2 p q.
Proof. unfold adjacent. lia. Qed.

(** X12: the neighbours [getNeighbors] lists for a position are pairwise
    different, never the position itself, and exactly the positions that
    differ from it by at most one along every axis and along at least one
    and at most k axes, where k is 3 for ['corner'], 2 for ['edge'] and 1
    for every other rule value; and being a neighbour is symmetric. *)
Theorem getNeighbors_adjacent (x y z : Z) (rule : jsval) :
  NoDup (getNeighbors x y z rule)
  ∧ ((x, y, z) ∉ getNeighbors x y z rule)
  ∧ (∀ nx ny nz,
       (nx, ny, nz) ∈ getNeighbors x y z rule
       ↔ Z.abs (nx - x) <= 1 ∧ Z.abs (ny - y) <= 1 ∧ Z.abs (nz - z) <= 1
         ∧ 1 <= Z.abs (nx - x) + Z.abs (ny - y) + Z.abs (nz - z)
              <= (if is_string rule "corner" then 3
                  else if is_string rule "edge" then 2 else 1))
  ∧ (∀ nx ny nz,
       (nx, ny, nz) ∈ getNeighbors x y z rule
       ↔ (x, y, z) ∈ getNeighbors nx ny nz rule).
Proof.
  split_and!.
  - apply NoDup_getNeighbors.
  - rewrite getNeighbors_elem. unfold adjacent. cbn [px py pz]. lia.
  - intros nx ny nz. apply getNeighbors_elem.
  - intros nx ny nz. rewrite !getNeighbors_elem. split; apply adjacent_sym.
Qed.

(** ** Reachability *)

Section Reach.
Context (voxelData : list jsval) (gridSize : Z) (nbrs : pos → list pos).

Lemma reach_occupied (seed p : pos) :
  occupied voxelData gridSize seed →
  reach voxelData gridSize nbrs seed p → occupied voxelData gridSize p.
Proof. intros Hseed. by induction 1. Qed.

Lemma reach_trans (a b c : pos) :
  reach voxelData gridSize nbrs a b → reach voxelData gridSize nbrs b c →
  reach voxelData gridSize nbrs a c.
Proof.
  intros Hab. induction 1 as [|p n _ IH Hn Hocc]; [done|].
  by apply (reach_step _ _ _ _ p).
Qed.

Hypothesis nbrs_sym : ∀ p q, q ∈ nbrs p → p ∈ nbrs q.

Lemma reach_sym (seed p : pos) :
  occupied voxelData gridSize seed →
  reach voxelData gridSize nbrs seed p → reach voxelData gridSize nbrs p seed.
Proof.
  intros Hseed. induction 1 as [|p n Hp IH Hn Hocc]; [constructor|].
  apply (reach_trans n p seed); [|done].
  apply (reach_step _ _ _ _ n); [constructor|by apply nbrs_sym|].
  by apply (reach_occupied seed).
Qed.

(** All occupied positions are reachable from the first one of the scan
    exactly when every occupied position is reachable from every other. *)
Lemma connected_from_first :
  (∃ first, head (voxelPositions voxelData gridSize) = Some first
     ∧ ∀ p, occupied voxelData gridSize p →
         reach voxelData gridSize nbrs first p)
  ↔ (∃ p, occupied voxelData gridSize p)
    ∧ ∀ p q, occupied voxelData gridSize p → occupied voxelData gridSize q →
        reach voxelData gridSize nbrs p q.
Proof.
  split.
  - intros (first & Hhead & Hall).
    assert (occupied voxelData gridSize first) as Hfirst.
    { by apply elem_of_voxelPositions, head_Some_elem_of. }
    split; [by exists first|]. intros p q Hp Hq.
    apply (reach_trans p first q); [|by apply Hall].
    apply reach_sym; [done|by apply Hall].
  - intros ((p & Hp) & Hall).
    destruct (voxelPositions voxelData gridSize) as [|first rest] eqn:Hscan.
    { apply elem_of_voxelPositions in Hp. rewrite Hscan in Hp.
      by apply elem_of_nil in Hp. }
    exists first. split; [done|]. intros q Hq. apply Hall; [|done].
    apply elem_of_voxelPositions. rewrite Hscan. left.
Qed.

End Reach.

Lemma ruleNbrs_sym (rule : jsval) (p q : pos) :
  q ∈ ruleNbrs rule p → p ∈ ruleNbrs rule q.
Proof. rewrite !elem_of_ruleNbrs. apply adjacent_sym. Qed.

Lemma faceNbrs_sym (p q : pos) : q ∈ faceNbrs p → p ∈ faceNbrs q.
Proof. rewrite !elem_of_faceNbrs. apply adjacent_sym. Qed.

Lemma faceNbrs_ruleNbrs (rule : jsval) (p : pos) :
  faceNbrs p ⊆ ruleNbrs rule p.
Proof.
  intros q. rewrite elem_of_faceNbrs, elem_of_ruleNbrs.
  apply adjacent_mono, ruleSpan_range.
Qed.

Lemma ruleNbrs_faceNbrs (p : pos) : ruleNbrs (JStr "face") p ⊆ faceNbrs p.
Proof. intros q. by rewrite elem_of_faceNbrs, elem_of_ruleNbrs. Qed.


(** ** Components as classes *)

Section Classes.
Context (voxelData : list jsval) (gridSize : Z).

(** Positions collected so far have no occupied neighbour outside. *)
Lemma faceClass_closed (components : list (list pos)) (p n : pos) :
  Forall (faceClass voxelData gridSize) components →
  p ∈ concat components → n ∈ faceNbrs p → occupied voxelData gridSize n →
  n ∈ concat components.
Proof.
  intros Hall (j & c & Hj & Hp)%elem_of_concat Hn Hocc.
  apply elem_of_concat. exists j, c. split; [done|].
  pose proof (Forall_lookup_1 _ _ _ _ Hall Hj) as (seed & rest & _ & _ & Hc).
  apply Hc. apply (reach_step _ _ _ _ p); [by apply Hc|done|done].
Qed.

Lemma componentsFrom_classes (positions : list pos) (visited : gset string)
    (components : list (list pos)) :
  seen_ok voxelData gridSize visited (concat components) →
  (∀ p, p ∈ positions → occupied voxelData gridSize p) →
  Forall (faceClass voxelData gridSize) components →
  ∃ more,
    componentsFrom (length (voxelPositions voxelData gridSize)) voxelData
      gridSize positions visited components = Returns (components ++ more)
    ∧ Forall (faceClass voxelData gridSize) (components ++ more).
Proof.
  revert visited components.
  induction positions as [|seed positions IH];
    intros visited components Hok Hocc Hall.
  { exists []. by rewrite app_nil_r. }
  cbn [componentsFrom]. fold (key seed).
  assert (occupied voxelData gridSize seed) as Hseed by (apply Hocc; left).
  assert (∀ p, p ∈ positions → occupied voxelData gridSize p) as Hocc1
    by (intros; apply Hocc; by right).
  destruct (bool_decide (key seed ∈ visited)) eqn:Hvis; simpl.
  { by apply IH. }
  apply bool_decide_eq_false in Hvis.
  rewrite componentLoop_flood.
  destruct (flood_spec voxelData gridSize faceNbrs
              (reach voxelData gridSize faceNbrs seed)
              (concat components)
              (length (voxelPositions voxelData gridSize)) [seed]
              ({[key seed]} ∪ visited) [])
    as (visited1 & rest & Hrun & Hok1 & Hclosed & Hreach).
  { intros p n Hp Hn Hn1. by apply (reach_step _ _ _ _ p). }
  { split_and!; [by apply seen_ok_seed|by intros p n Hp%elem_of_nil|].
    intros p ->%list_elem_of_singleton. constructor. }
  { by apply todo_seed. }
  rewrite Hrun. simpl in Hok1, Hclosed, Hreach. rewrite app_nil_r in *.
  assert (faceClass voxelData gridSize (seed :: rest)) as Hclass.
  { exists seed, rest. split_and!; [done..|]. intros p. split; [apply Hreach|].
    induction 1 as [|q n _ IH1 Hn Hn1]; [left|].
    specialize (Hclosed q n IH1 Hn Hn1).
    apply elem_of_app in Hclosed as [Hdone|]; [|done].
    destruct Hok1 as (Hnodup & Hoccs & _).
    apply NoDup_app in Hnodup as (_ & Hdisj & _).
    destruct (Hdisj q); [|done].
    apply (faceClass_closed components n q); [done..|by apply faceNbrs_sym|].
    apply Hoccs, elem_of_app. by right. }
  destruct (IH visited1 (components ++ [seed :: rest]))
    as (more & Hrun1 & Hall1); [|done| |].
  { rewrite concat_app. simpl. by rewrite app_nil_r. }
  { apply Forall_app. split; [done|]. by constructor. }
  exists ((seed :: rest) :: more). by rewrite <- app_assoc in Hrun1, Hall1.
Qed.

Lemma findConnectedComponents_classes :
  ∃ components,
    findConnectedComponents (Some voxelData) gridSize = Returns components
    ∧ NoDup (concat components)
    ∧ (∀ p, p ∈ concat components ↔ occupied voxelData gridSize p)
    ∧ Forall (faceClass voxelData gridSize) components.
Proof.
  destruct (findConnectedComponents_spec voxelData gridSize)
    as (components & Hrun & Hnodup & Hocc & _).
  exists components. split_and!; try done.
  revert Hrun. unfold findConnectedComponents.
  destruct (gridSize <=? 0); [by intros [= <-]|].
  destruct (length (voxelPositions voxelData gridSize) =? 0)%nat;
    [by intros [= <-]|].
  destruct (componentsFrom_classes (voxelPositions voxelData gridSize) ∅ [])
    as (more & Hrun & Hall).
  { split_and!; [constructor|by intros p Hp%elem_of_nil|].
    intros k. split; [by intros Hk%elem_of_empty|].
    by intros (p & Hp%elem_of_nil & _). }
  { intros p. apply elem_of_voxelPositions. }
  { constructor. }
  rewrite Hrun. by intros [= <-].
Qed.


End Classes.


(** ** One component *)

Section Single.
Context (voxelData : list jsval) (gridSize : Z).

(** A shape in one component is connected under every rule. *)
Lemma single_component_connected (component : list pos) (rule : jsval) :
  findConnectedComponents (Some voxelData) gridSize = Returns [component] →
  isShapeConnected (Some voxelData) gridSize rule = Returns true.
Proof.
  intros Hone.
  destruct (findConnectedComponents_classes voxelData gridSize)
    as (components & Hrun & _ & Hocc & Hall).
  rewrite Hone in Hrun. injection Hrun as <-.
  apply Forall_singleton in Hall as (seed & rest & -> & Hseed & Hc).
  simpl in Hocc. rewrite app_nil_r in Hocc.
  destruct (isShapeConnected_spec voxelData gridSize rule) as (b & -> & Hb).
  f_equal. apply Hb.
  apply (connected_from_first _ _ _ (ruleNbrs_sym (defaultFace rule))).
  split; [by exists seed|]. intros p q Hp Hq.
  apply (reach_mono _ _ faceNbrs); [apply faceNbrs_ruleNbrs|].
  apply (reach_trans _ _ _ p seed q); [|by apply Hc, Hocc].
  apply reach_sym; [apply faceNbrs_sym|done|by apply Hc, Hocc].
Qed.

(** A shape connected across faces has one component. *)
Lemma connected_single_component :
  isShapeConnected (Some voxelData) gridSize (JStr "face") = Returns true →
  ∃ component,
    findConnectedComponents (Some voxelData) gridSize = Returns [component].
Proof.
  intros Hconn.
  destruct (isShapeConnected_spec voxelData gridSize (JStr "face"))
    as (b & Hrun & Hb).
  rewrite Hconn in Hrun. injection Hrun as <-.
  destruct (proj1 Hb eq_refl) as (first & Hhead & Hreach).
  assert (occupied voxelData gridSize first) as Hfirst.
  { by apply elem_of_voxelPositions, head_Some_elem_of. }
  destruct (findConnectedComponents_classes voxelData gridSize)
    as (components & -> & Hnodup & Hocc & Hall).
  destruct components as [|c0 [|c1 rest]].
  - apply Hocc in Hfirst. by apply elem_of_nil in Hfirst.
  - by exists c0.
  - exfalso.
    apply Forall_cons in Hall as [(s0 & r0 & -> & Hs0 & Hc0) Hall].
    apply Forall_cons in Hall as [(s1 & r1 & -> & Hs1 & Hc1) _].
    assert (s1 ∈ s0 :: r0) as Hin.
    { apply Hc0. apply (reach_mono _ _ (ruleNbrs (JStr "face")));
        [apply ruleNbrs_faceNbrs|].
      apply (reach_trans _ _ _ s0 first s1); [|by apply Hreach].
      apply reach_sym; [apply ruleNbrs_sym|done|by apply Hreach]. }
    assert (0%nat = 1%nat); [|done].
    apply (concat_unique ((s0 :: r0) :: (s1 :: r1) :: rest) 0 1
             (s0 :: r0) (s1 :: r1) s1); [done..|left].
Qed.

(** The components hold as many positions as the scan finds. *)
Lemma components_length (components : list (list pos)) :
  findConnectedComponents (Some voxelData) gridSize = Returns components →
  length (concat components) = length (voxelPositions voxelData gridSize).
Proof.
  intros Hrun.
  destruct (findConnectedComponents_spec voxelData gridSize)
    as (components1 & Hrun1 & Hnodup & Hocc & _).
  rewrite Hrun in Hrun1. injection Hrun1 as <-.
  apply Permutation_length, NoDup_Permutation;
    [done|apply NoDup_voxelPositions|].
  intros p. by rewrite Hocc, elem_of_voxelPositions.
Qed.

End Single.

(** X15: [isShapeConnected] under the face rule returns true exactly when
    [findConnectedComponents] returns one component; and a shape in one
    component is connected under every rule. *)
Theorem isShapeConnected_one_component (voxelData : list jsval)
    (gridSize : Z) :
  (isShapeConnected (Some voxelData) gridSize (JStr "face") = Returns true
   ↔ ∃ component,
       findConnectedComponents (Some voxelData) gridSize
       = Returns [component])
  ∧ ∀ component rule,
      findConnectedComponents (Some voxelData) gridSize = Returns [component] →
      isShapeConnected (Some voxelData) gridSize rule = Returns true.
Proof.
  split; [split|].
  - apply connected_single_component.
  - intros (component & Hone).
    by apply (single_component_connected _ _ component).
  - intros component rule. apply single_component_connected.
Qed.

(** X16: for an array of N*N*N cells [getConnectivityDebugInfo] returns the
    components of [findConnectedComponents] and their number;
    [floatingVoxels] lists the positions of all components but the first,
    [totalVoxels] is the number of positions in all components, hence the
    size of the first component plus the number of floating voxels, and
    there is no component exactly when there is no voxel. *)
Theorem getConnectivityDebugInfo_counts (voxelData : list jsval)
    (gridSize : Z) :
  Z.of_nat (length voxelData) = gridSize * gridSize * gridSize →
  ∃ info,
    getConnectivityDebugInfo (Some voxelData) gridSize = Returns info
    ∧ findConnectedComponents (Some voxelData) gridSize
      = Returns (components info)
    ∧ componentCount info = length (components info)
    ∧ floatingVoxels info = concat (drop 1 (components info))
    ∧ totalVoxels info = length (concat (components info))
    ∧ totalVoxels info
      = (length (default [] (head (components info)))
         + length (floatingVoxels info))%nat
    ∧ (componentCount info = 0%nat ↔ totalVoxels info = 0%nat).
Proof.
  intros Hlen. unfold getConnectivityDebugInfo.
  destruct (findConnectedComponents_spec voxelData gridSize)
    as (cs & Hrun & _ & _ & Hne).
  pose proof (components_length voxelData gridSize cs Hrun) as Hcount.
  rewrite (voxelPositions_count voxelData gridSize Hlen) in Hcount.
  rewrite Hrun. cbn [mbind outcome_bind].
  eexists. split; [done|].
  cbn [components componentCount floatingVoxels totalVoxels].
  assert ((if (1 <? length cs)%nat then concat (drop 1 cs) else [])
          = concat (drop 1 cs)) as ->.
  { destruct cs as [|c0 [|c1 rest]]; try done. }
  rewrite <- Hcount. split_and!; try done.
  - destruct cs as [|c0 rest]; [done|]. simpl. by rewrite drop_0, length_app.
  - destruct cs as [|[|p c0] rest]; [done| |done].
    by apply Forall_cons in Hne as [? _].
Qed.

Lemma getConnectivityDebugInfo_counts_witness :
  ∃ info,
    getConnectivityDebugInfo (Some diagonalGrid) 2 = Returns info
    ∧ totalVoxels info
      = (length (default [] (head (components info)))
         + length (floatingVoxels info))%nat.
Proof.
  destruct (getConnectivityDebugInfo_counts diagonalGrid 2)
    as (info & Hrun & _ & _ & _ & _ & Hsum & _); [reflexivity|].
  by exists info.
Defined.

Lemma getConnectivityDebugInfo_components (voxelData : list jsval)
    (gridSize : Z) (info : debug_info) :
  getConnectivityDebugInfo (Some voxelData) gridSize = Returns info →
  findConnectedComponents (Some voxelData) gridSize = Returns (components info)
  ∧ componentCount info = length (components info).
Proof.
  unfold getConnectivityDebugInfo.
  destruct (findConnectedComponents_spec voxelData gridSize)
    as (cs & -> & _). cbn [mbind outcome_bind]. by intros [= <-].
Qed.

(** X17: for an array of N*N*N cells [validateShape] reports the debug info
    of [getConnectivityDebugInfo]; a shape with voxels that is not connected
    under the rule has more than one component, so the error list is never
    the lone fallback message "All voxels must be connected (no floating
    parts)"; a shape with one component is valid; and under the face rule a
    shape is valid exactly when it has one component. *)
Theorem validateShape_parts (voxelData : list jsval) (gridSize : Z)
    (rule : jsval) :
  Z.of_nat (length voxelData) = gridSize * gridSize * gridSize →
  ∃ result,
    validateShape (Some voxelData) gridSize rule = Returns result
    ∧ getConnectivityDebugInfo (Some voxelData) gridSize
      = Returns (debugInfo result)
    ∧ (hasVoxels result = true → isConnected result = false →
       (1 < componentCount (debugInfo result))%nat)
    ∧ errors result ≠ ["All voxels must be connected (no floating parts)"]
    ∧ (componentCount (debugInfo result) = 1%nat → isValid result = true)
    ∧ (defaultFace rule = JStr "face" →
       (isValid result = true ↔ componentCount (debugInfo result) = 1%nat)).
Proof.
  intros Hlen. unfold validateShape.
  destruct (getConnectivityDebugInfo_returns voxelData gridSize)
    as (info & Hinfo).
  destruct (getConnectivityDebugInfo_components _ _ _ Hinfo) as [Hcs Hcount].
  pose proof (components_length _ _ _ Hcs) as Hall.
  rewrite (voxelPositions_count voxelData gridSize Hlen) in Hall.
  destruct (findConnectedComponents_spec voxelData gridSize)
    as (cs & Hrun & _ & _ & Hne).
  rewrite Hcs in Hrun. injection Hrun as <-.
  rewrite Hinfo. cbn [mbind outcome_bind]. rewrite <- Hall.
  destruct (Nat.ltb_spec 0 (length (concat (components info))))
    as [Hsome|Hnone]; cbn [negb]; last first.
  { assert (componentCount info = 0%nat) as Hzero.
    { rewrite Hcount. destruct (components info) as [|[|p c] cs]; [done| |].
      - by apply Forall_cons in Hne as [? _].
      - simpl in Hnone. lia. }
    eexists. split; [done|].
    cbn [isValid hasVoxels isConnected errors debugInfo].
    rewrite Hzero. split_and!; try done. }
  rewrite isShapeConnected_defaultFace.
  destruct (isShapeConnected_returns (Some voxelData) gridSize rule)
    as (connected & Hconn).
  rewrite Hconn. cbn [mbind outcome_bind].
  eexists. split; [done|].
  cbn [isValid hasVoxels isConnected errors debugInfo].
  assert (connected = false → (1 < componentCount info)%nat) as Hmany.
  { intros ->. rewrite Hcount.
    destruct (components info) as [|c [|c1 cs]] eqn:Hcomps;
      [simpl in Hsome; lia| |simpl; lia].
    rewrite (single_component_connected _ _ c rule Hcs) in Hconn. done. }
  assert (componentCount info = 1%nat → connected = true) as Hone.
  { intros H1. destruct connected; [done|]. specialize (Hmany eq_refl). lia. }
  split; [done|]. split; [intros _; apply Hmany|]. split; [|split].
  - destruct connected; [done|]. cbn [negb].
    destruct (Nat.ltb_spec 1 (componentCount info)); [done|].
    specialize (Hmany eq_refl). lia.
  - intros H1. by rewrite (Hone H1).
  - intros Hface. split.
    + intros Hvalid. destruct connected; [|done].
      rewrite <- isShapeConnected_defaultFace, Hface in Hconn.
      destruct (connected_single_component _ _ Hconn) as (c & Hc).
      rewrite Hcs in Hc. injection Hc as Hc. by rewrite Hcount, Hc.
    + intros H1. by rewrite (Hone H1).
Qed.

Lemma validateShape_parts_witness :
  ∃ result,
    validateShape (Some diagonalGrid) 2 (JStr "edge") = Returns result
    ∧ errors result ≠ ["All voxels must be connected (no floating parts)"].
Proof.
  destruct (validateShape_parts diagonalGrid 2 (JStr "edge"))
    as (result & Hrun & _ & _ & Herr & _); [reflexivity|].
  by exists result.
Defined.

(** With fewer scanned cells than the array holds, the fallback message is
    what the caller gets. *)
Example validateShape_unscanned_voxel :
  (r ← validateShape (Some [JBool true]) 0 (JStr "face");
   Returns (errors r))
  = Returns ["All voxels must be connected (no floating parts)"].
Proof. vm_compute. reflexivity. Qed.

(** ** Padding and connectivity *)

Lemma adjacent_shift (o span : Z) (p q : pos) :
  adjacent span (shift o p) (shift o q) ↔ adjacent span p q.
Proof. unfold adjacent, shift. cbn [px py pz]. lia. Qed.

Section Pad.
Context (grid : list jsval) (s t : Z) (padded : list jsval).
Hypothesis sizes : 0 <= s <= t.
Hypothesis grid_length : Z.of_nat (length grid) = s * s * s.
Hypothesis run : convertGridSize grid s t = Returns padded.

Lemma pad_occupied (q : pos) :
  occupied padded t q
  ↔ ∃ p, q = shift ((t - s) `div` 2) p ∧ occupied grid s p.
Proof.
  rewrite <- elem_of_voxelPositions.
  rewrite (pad_positions grid s t padded sizes grid_length run).
  rewrite list_elem_of_fmap. by setoid_rewrite elem_of_voxelPositions.
Qed.

Lemma reach_pad (rule : jsval) (p1 p2 : pos) :
  reach grid s (ruleNbrs rule) p1 p2 →
  reach padded t (ruleNbrs rule)
    (shift ((t - s) `div` 2) p1) (shift ((t - s) `div` 2) p2).
Proof.
  induction 1 as [|p n _ IH Hn Hocc]; [constructor|].
  apply (reach_step _ _ _ _ (shift ((t - s) `div` 2) p)); [done| |].
  - apply elem_of_ruleNbrs, adjacent_shift. by apply elem_of_ruleNbrs.
  - apply pad_occupied. by exists n.
Qed.

Lemma reach_unpad (rule : jsval) (p1 q : pos) :
  reach padded t (ruleNbrs rule) (shift ((t - s) `div` 2) p1) q →
  ∃ p2, q = shift ((t - s) `div` 2) p2 ∧ reach grid s (ruleNbrs rule) p1 p2.
Proof.
  induction 1 as [|q n _ (p2 & -> & IH) Hn Hocc].
  { exists p1. split; [done|constructor]. }
  apply pad_occupied in Hocc as (p3 & -> & Hocc).
  exists p3. split; [done|]. apply (reach_step _ _ _ _ p2); [done| |done].
  apply elem_of_ruleNbrs. by apply elem_of_ruleNbrs, adjacent_shift in Hn.
Qed.

Lemma pad_connected (rule : jsval) :
  isShapeConnected (Some padded) t rule = isShapeConnected (Some grid) s rule.
Proof.
  destruct (isShapeConnected_spec padded t rule) as (b1 & -> & Hb1).
  destruct (isShapeConnected_spec grid s rule) as (b2 & -> & Hb2).
  f_equal. apply eq_true_iff_eq. rewrite Hb1, Hb2.
  rewrite !(connected_from_first _ _ _ (ruleNbrs_sym (defaultFace rule))).
  split.
  - intros ((q & Hq) & Hall). apply pad_occupied in Hq as (p & -> & Hp).
    split; [by exists p|]. intros p1 p2 Hp1 Hp2.
    destruct (reach_unpad (defaultFace rule) p1
                (shift ((t - s) `div` 2) p2)) as (p3 & Heq & Hreach).
    { apply Hall; apply pad_occupied; eauto. }
    by apply shift_inj in Heq as <-.
  - intros ((p & Hp) & Hall). split.
    { exists (shift ((t - s) `div` 2) p). apply pad_occupied. eauto. }
    intros q1 q2 (p1 & -> & Hp1)%pad_occupied (p2 & -> & Hp2)%pad_occupied.
    by apply reach_pad, Hall.
Qed.

End Pad.

(** X18: converting an array of s*s*s cells to a size t not smaller than s
    changes nothing for the validator: a position is reachable from another
    in the source exactly when the moved positions are so in the result,
    [isShapeConnected] returns the same under every rule, and [validateShape]
    returns the same [isValid] and [voxelCount]. *)
Theorem convertGridSize_pad_keeps_connectivity (grid : list jsval) (s t : Z)
    (padded : list jsval) (rule : jsval) :
  0 <= s <= t → Z.of_nat (length grid) = s * s * s →
  convertGridSize grid s t = Returns padded →
  isShapeConnected (Some padded) t rule = isShapeConnected (Some grid) s rule
  ∧ (∀ p q,
       reach grid s (ruleNbrs rule) p q
       ↔ reach padded t (ruleNbrs rule)
           (shift ((t - s) `div` 2) p) (shift ((t - s) `div` 2) q))
  ∧ ∃ before after,
      validateShape (Some grid) s rule = Returns before
      ∧ validateShape (Some padded) t rule = Returns after
      ∧ isValid after = isValid before
      ∧ voxelCount after = voxelCount before.
Proof.
  intros Hst Hlen Hrun. split_and!.
  - by apply pad_connected.
  - intros p q. split; [by apply reach_pad|].
    intros (q1 & Heq & Hreach)%(reach_unpad grid s t padded Hst Hlen Hrun).
    by apply shift_inj in Heq as <-.
  - pose proof (pad_count grid s t padded Hst Hlen Hrun) as Hcount.
    pose proof (pad_connected grid s t padded Hst Hlen Hrun rule) as Hconn.
    unfold occupiedCount in Hcount. unfold validateShape.
    destruct (getConnectivityDebugInfo_returns grid s) as (info1 & ->).
    destruct (getConnectivityDebugInfo_returns padded t) as (info2 & ->).
    cbn [mbind outcome_bind]. rewrite Hcount.
    destruct (Nat.ltb_spec 0 (length (filter (λ v, truthy v) grid)));
      cbn [negb]; [|by eexists _, _].
    rewrite !isShapeConnected_defaultFace, Hconn.
    destruct (isShapeConnected_returns (Some grid) s rule) as (b & ->).
    cbn [mbind outcome_bind]. by eexists _, _.
Qed.

Lemma convertGridSize_pad_keeps_connectivity_witness :
  ∃ padded,
    convertGridSize lineGrid 2 3 = Returns padded
    ∧ isShapeConnected (Some padded) 3 (JStr "face")
      = isShapeConnected (Some lineGrid) 2 (JStr "face").
Proof.
  eexists. split; [vm_compute; reflexivity|].
  refine (proj1
    (convertGridSize_pad_keeps_connectivity lineGrid 2 3 _ (JStr "face")
       _ _ _)).
  - lia.
  - reflexivity.
  - vm_compute. reflexivity.
Defined.

(** Cropping can cut a shape in two: a ring that lacks one corner, cut
    down to the window that held the gap. *)
Example convertGridSize_crop_disconnects :
  (cropped ← convertGridSize
     ([JBool false; JBool true; JBool true;
       JBool true; JBool false; JBool true;
       JBool true; JBool true; JBool true]
      ++ replicate 18 (JBool false)) 3 2;
   isShapeConnected (Some cropped) 2 (JStr "face"))
  = Returns false
  ∧ isShapeConnected
      (Some ([JBool false; JBool true; JBool true;
              JBool true; JBool false; JBool true;
              JBool true; JBool true; JBool true]
             ++ replicate 18 (JBool false))) 3 (JStr "face")
    = Returns true.
Proof. split; vm_compute; reflexivity. Qed.

(** * The editor component *)

(** ** Counting under a store *)

Lemma occupiedCount_replicate (n : nat) (b : bool) :
  occupiedCount (replicate n (JBool b)) = if b then n else 0%nat.
Proof.
  unfold occupiedCount. induction n as [|n IH]; [by destruct b|].
  cbn [replicate]. rewrite filter_cons. destruct b; simpl in *; by rewrite IH.
Qed.

Lemma occupiedCount_app (a b : list jsval) :
  occupiedCount (a ++ b) = (occupiedCount a + occupiedCount b)%nat.
Proof. unfold occupiedCount. by rewrite filter_app, length_app. Qed.

Lemma occupiedCount_cons (v : jsval) (arr : list jsval) :
  occupiedCount (v :: arr) = (Nat.b2n (truthy v) + occupiedCount arr)%nat.
Proof.
  unfold occupiedCount. rewrite filter_cons. by destruct (truthy v).
Qed.

Lemma occupiedCount_insert (arr : list jsval) (i : nat) (v : jsval) :
  (i < length arr)%nat →
  (occupiedCount (<[i := v]> arr)
   + Nat.b2n (truthy (default JUndefined (arr !! i)))
   = occupiedCount arr + Nat.b2n (truthy v))%nat.
Proof.
  revert i. induction arr as [|w arr IH]; intros [|i] Hi; simpl in Hi;
    try lia.
  - simpl. rewrite !occupiedCount_cons. lia.
  - simpl. rewrite !occupiedCount_cons. specialize (IH i ltac:(lia)). lia.
Qed.

Lemma occupiedCount_undefined (n : nat) :
  occupiedCount (replicate n JUndefined) = 0%nat.
Proof.
  unfold occupiedCount. induction n as [|n IH]; [done|].
  cbn [replicate]. by rewrite filter_cons.
Qed.

(** A store at a non-negative index trades the truth of the old cell for
    that of the new one; a store at a negative index changes no cell. *)
Lemma occupiedCount_js_set (arr : list jsval) (i : Z) (v : jsval) :
  (occupiedCount (js_set arr i v) + Nat.b2n (truthy (js_get arr i))
   = occupiedCount arr
     + (if (i <? 0)%Z then Nat.b2n (truthy (js_get arr i))
        else Nat.b2n (truthy v)))%nat.
Proof.
  unfold js_set, js_get. destruct (Z.ltb_spec i 0); [done|].
  destruct (Nat.ltb_spec (Z.to_nat i) (length arr)) as [Hin|Hout].
  - by apply occupiedCount_insert.
  - rewrite (proj2 (lookup_ge_None arr (Z.to_nat i))) by lia.
    rewrite !occupiedCount_app, occupiedCount_undefined, occupiedCount_cons.
    simpl. unfold occupiedCount. simpl. lia.
Qed.

Lemma js_get_replicate (n i : Z) (v : jsval) :
  0 <= i < n → js_get (replicate (Z.to_nat n) v) i = v.
Proof.
  intros Hi. unfold js_get. destruct (Z.ltb_spec i 0); [lia|].
  rewrite lookup_replicate_2 by lia. done.
Qed.

(** ** Shapes that are connected for simple reasons *)

Lemma full_grid_reach (voxelData : list jsval) (gridSize : Z) :
  (∀ p, inGrid gridSize p → occupied voxelData gridSize p) →
  ∀ p, inGrid gridSize p →
    reach voxelData gridSize faceNbrs (Pos 0 0 0) p.
Proof.
  intros Hfull p. remember (Z.to_nat (px p + py p + pz p)) as n eqn:Hn.
  revert p Hn. induction n as [n IH] using lt_wf_ind. intros [x y z] Hn Hp.
  unfold inGrid in Hp. cbn [px py pz] in Hn, Hp.
  destruct (decide (0 < x)) as [Hx|Hx];
    [|destruct (decide (0 < y)) as [Hy|Hy];
      [|destruct (decide (0 < z)) as [Hz|Hz]]].
  - apply (reach_step _ _ _ _ (Pos (x - 1) y z)).
    + apply (IH (Z.to_nat (x - 1 + y + z))); [lia|done|].
      unfold inGrid; cbn [px py pz]; lia.
    + apply elem_of_faceNbrs. unfold adjacent; cbn [px py pz]. lia.
    + apply Hfull. unfold inGrid; cbn [px py pz]; lia.
  - apply (reach_step _ _ _ _ (Pos x (y - 1) z)).
    + apply (IH (Z.to_nat (x + (y - 1) + z))); [lia|done|].
      unfold inGrid; cbn [px py pz]; lia.
    + apply elem_of_faceNbrs. unfold adjacent; cbn [px py pz]. lia.
    + apply Hfull. unfold inGrid; cbn [px py pz]; lia.
  - apply (reach_step _ _ _ _ (Pos x y (z - 1))).
    + apply (IH (Z.to_nat (x + y + (z - 1)))); [lia|done|].
      unfold inGrid; cbn [px py pz]; lia.
    + apply elem_of_faceNbrs. unfold adjacent; cbn [px py pz]. lia.
    + apply Hfull. unfold inGrid; cbn [px py pz]; lia.
  - assert (x = 0 ∧ y = 0 ∧ z = 0) as (-> & -> & ->) by lia. constructor.
Qed.

Lemma full_grid_connected (voxelData : list jsval) (gridSize : Z)
    (rule : jsval) :
  0 < gridSize →
  (∀ p, inGrid gridSize p → occupied voxelData gridSize p) →
  isShapeConnected (Some voxelData) gridSize rule = Returns true.
Proof.
  intros Hsize Hfull.
  destruct (isShapeConnected_spec voxelData gridSize rule) as (b & -> & Hb).
  f_equal. apply Hb.
  apply (connected_from_first _ _ _ (ruleNbrs_sym (defaultFace rule))).
  assert (inGrid gridSize (Pos 0 0 0)) as Horigin.
  { unfold inGrid; cbn [px py pz]; lia. }
  split; [exists (Pos 0 0 0); by apply Hfull|].
  intros p q [Hp _] [Hq _].
  apply (reach_mono _ _ faceNbrs); [apply faceNbrs_ruleNbrs|].
  apply (reach_trans _ _ _ p (Pos 0 0 0) q); [|by apply full_grid_reach].
  apply reach_sym; [apply faceNbrs_sym|by apply Hfull|by apply full_grid_reach].
Qed.

Lemma single_voxel_connected (voxelData : list jsval) (gridSize : Z)
    (rule : jsval) :
  length (voxelPositions voxelData gridSize) = 1%nat →
  isShapeConnected (Some voxelData) gridSize rule = Returns true.
Proof.
  intros Hone. unfold isShapeConnected.
  destruct (voxelPositions voxelData gridSize) as [|p [|q ps]] eqn:Hscan;
    try done.
  assert (p ∈ voxelPositions voxelData gridSize)
    as [(? & _) _]%elem_of_voxelPositions by (rewrite Hscan; left).
  by destruct (Z.leb_spec gridSize 0); [lia|].
Qed.

(** A shape with a voxel that [isShapeConnected] accepts is valid. *)
Lemma validateShape_connected (voxelData : list jsval) (gridSize : Z)
    (rule : jsval) :
  (1 <= occupiedCount voxelData)%nat →
  isShapeConnected (Some voxelData) gridSize rule = Returns true →
  ∃ result,
    validateShape (Some voxelData) gridSize rule = Returns result
    ∧ isValid result = true ∧ errors result = []
    ∧ hasVoxels result = true ∧ isConnected result = true
    ∧ voxelCount result = occupiedCount voxelData.
Proof.
  intros Hsome Hconn. unfold validateShape.
  destruct (getConnectivityDebugInfo_returns voxelData gridSize) as (info & ->).
  cbn [mbind outcome_bind]. fold (occupiedCount voxelData).
  destruct (Nat.ltb_spec 0 (occupiedCount voxelData)); [|lia]. cbn [negb].
  rewrite isShapeConnected_defaultFace, Hconn. cbn [mbind outcome_bind].
  eexists. split; [done|]. done.
Qed.

(** ** The editor's handlers *)

Lemma initializeFilledCube_filled (gridSize : Z) :
  0 <= gridSize → gridSize * gridSize * gridSize <= MAX_ARRAY_LENGTH →
  App.initializeFilledCube gridSize = Returns (filled gridSize).
Proof.
  intros Hsize Hfit. unfold App.initializeFilledCube, filled.
  cbv zeta. by rewrite new_Array_fill_returns by nia.
Qed.

Lemma filled_length (gridSize : Z) :
  0 <= gridSize →
  Z.of_nat (length (filled gridSize)) = gridSize * gridSize * gridSize.
Proof. intros Hsize. unfold filled. rewrite length_replicate. nia. Qed.

Lemma filled_occupied (gridSize : Z) (p : pos) :
  inGrid gridSize p → occupied (filled gridSize) gridSize p.
Proof.
  intros Hp. split; [done|]. unfold filled.
  rewrite js_get_replicate; [done|]. by apply index_range.
Qed.

Lemma filled_valid (gridSize : Z) (rule : jsval) :
  1 <= gridSize →
  ∃ result,
    validateShape (Some (filled gridSize)) gridSize rule = Returns result
    ∧ isValid result = true ∧ errors result = []
    ∧ hasVoxels result = true ∧ isConnected result = true
    ∧ voxelCount result = occupiedCount (filled gridSize).
Proof.
  intros Hsize. apply validateShape_connected.
  - unfold filled. rewrite occupiedCount_replicate. nia.
  - apply full_grid_connected; [lia|]. apply filled_occupied.
Qed.

(** X19: for a grid size of at least 1 whose cube is an array length (the
    editor's size 7 is one), [handleFillCube] returns a state
    whose array has size^3 cells, all [true], with the mode and the metadata
    unchanged and the status "Filled entire cube"; and [validateShape]
    accepts this shape under every rule, with no error. *)
Theorem handleFillCube_valid (gridSize : Z) (st : App.app_state)
    (rule : jsval) :
  1 <= gridSize → gridSize * gridSize * gridSize <= MAX_ARRAY_LENGTH →
  ∃ st1 result,
    App.handleFillCube gridSize st = Returns st1
    ∧ Z.of_nat (length (App.voxelData st1)) = gridSize * gridSize * gridSize
    ∧ Forall (λ voxel, voxel = JBool true) (App.voxelData st1)
    ∧ Z.of_nat (App.voxelCount st1) = gridSize * gridSize * gridSize
    ∧ App.voxelMode st1 = App.voxelMode st
    ∧ App.shapeMetadata st1 = App.shapeMetadata st
    ∧ App.statusMessage st1 = "Filled entire cube"
    ∧ validateShape (Some (App.voxelData st1)) gridSize rule = Returns result
    ∧ isValid result = true ∧ errors result = [].
Proof.
  intros Hsize Hfit. unfold App.handleFillCube.
  rewrite initializeFilledCube_filled by lia. cbn [mbind outcome_bind].
  destruct (filled_valid gridSize rule Hsize) as (result & Hrun & Hv & He & _).
  eexists. exists result. split; [done|].
  unfold App.voxelCount. cbn [App.voxelData App.voxelMode App.shapeMetadata
                             App.statusMessage].
  split_and!; try done.
  - apply filled_length. lia.
  - unfold filled. by apply Forall_replicate.
  - fold (occupiedCount (filled gridSize)). unfold filled.
    rewrite occupiedCount_replicate. nia.
Qed.

Lemma handleFillCube_valid_witness :
  ∃ st1 result,
    App.handleFillCube App.gridSize
      {| App.voxelData := []; App.voxelMode := "remove";
         App.statusMessage := ""; 
         App.shapeMetadata := {| difficulty := JNull; maxMoves := JNull |} |}
    = Returns st1
    ∧ validateShape (Some (App.voxelData st1)) App.gridSize (JStr "face")
      = Returns result
    ∧ isValid result = true.
Proof.
  destruct (handleFillCube_valid App.gridSize
              {| App.voxelData := []; App.voxelMode := "remove";
                 App.statusMessage := "";
                 App.shapeMetadata := {| difficulty := JNull;
                                         maxMoves := JNull |} |}
              (JStr "face"))
    as (st1 & result & Hrun & _ & _ & _ & _ & _ & _ & Hvalid & Hok & _).
  - unfold App.gridSize. lia.
  - unfold App.gridSize, MAX_ARRAY_LENGTH. lia.
  - by exists st1, result.
Defined.

(** *** Clearing *)

Lemma centre_inGrid (gridSize : Z) : 1 <= gridSize → inGrid gridSize (centre gridSize).
Proof.
  intros Hsize. unfold inGrid, centre. cbn [px py pz].
  assert (0 <= gridSize `div` 2 < gridSize); [|lia].
  split; [apply Z.div_pos; lia|apply Z.div_lt; lia].
Qed.

Lemma handleClearGrid_returns (gridSize : Z) (st : App.app_state) :
  0 <= gridSize → gridSize * gridSize * gridSize <= MAX_ARRAY_LENGTH →
  App.handleClearGrid gridSize st
  = Returns {| App.voxelData :=
                 js_set (blank gridSize) (index gridSize (centre gridSize))
                   (JBool true);
               App.voxelMode := App.voxelMode st;
               App.statusMessage :=
                 "Cleared shape - center voxel remains at (" +:+
                 pretty (gridSize `div` 2) +:+ ", " +:+
                 pretty (gridSize `div` 2) +:+ ", " +:+
                 pretty (gridSize `div` 2) +:+ ")";
               App.shapeMetadata := App.shapeMetadata st |}.
Proof.
  intros Hsize Hfit. unfold App.handleClearGrid. cbv zeta.
  rewrite new_Array_fill_returns by nia. reflexivity.
Qed.

Lemma cleared_spec (gridSize : Z) :
  1 <= gridSize →
  let cleared :=
    js_set (blank gridSize) (index gridSize (centre gridSize)) (JBool true) in
  Z.of_nat (length cleared) = gridSize * gridSize * gridSize
  ∧ (∀ p, inGrid gridSize p →
       js_get cleared (index gridSize p)
       = JBool (bool_decide (p = centre gridSize)))
  ∧ occupiedCount cleared = 1%nat.
Proof.
  intros Hsize cleared.
  pose proof (centre_inGrid gridSize Hsize) as Hc.
  pose proof (index_range gridSize _ Hc) as Hrange.
  assert (Z.of_nat (length (blank gridSize))
          = gridSize * gridSize * gridSize) as Hblank
    by (apply blank_length; lia).
  split_and!.
  - unfold cleared. rewrite js_set_length; [done|]. by rewrite Hblank.
  - intros p Hp. unfold cleared. case_bool_decide as Heq.
    + subst p. apply js_get_set_eq. by rewrite Hblank.
    + rewrite js_get_set_ne.
      * unfold blank. apply js_get_replicate. by apply index_range.
      * by rewrite Hblank.
      * intros Hidx. apply Heq. symmetry. by apply (index_inj gridSize).
  - pose proof (occupiedCount_js_set (blank gridSize)
                  (index gridSize (centre gridSize)) (JBool true)) as Hcount.
    destruct (Z.ltb_spec (index gridSize (centre gridSize)) 0); [lia|].
    unfold blank in Hcount at 2 3.
    rewrite js_get_replicate, occupiedCount_replicate in Hcount by done.
    simpl in Hcount. fold cleared in Hcount. lia.
Qed.

(** X20: for a grid size of at least 1 whose cube is an array length (the
    editor's size 7 is one), [handleClearGrid] returns a state
    whose array has size^3 cells of which exactly the centre cell
    (floor(size/2) along each axis) is [true]; the voxel count is 1, the
    mode and the metadata are unchanged, and [validateShape] accepts the
    shape under every rule. *)
Theorem handleClearGrid_centre (gridSize : Z) (st : App.app_state)
    (rule : jsval) :
  1 <= gridSize → gridSize * gridSize * gridSize <= MAX_ARRAY_LENGTH →
  ∃ st1 result,
    App.handleClearGrid gridSize st = Returns st1
    ∧ Z.of_nat (length (App.voxelData st1)) = gridSize * gridSize * gridSize
    ∧ (∀ p, inGrid gridSize p →
         js_get (App.voxelData st1) (index gridSize p)
         = JBool (bool_decide (p = centre gridSize)))
    ∧ inGrid gridSize (centre gridSize)
    ∧ App.voxelCount st1 = 1%nat
    ∧ App.voxelMode st1 = App.voxelMode st
    ∧ App.shapeMetadata st1 = App.shapeMetadata st
    ∧ validateShape (Some (App.voxelData st1)) gridSize rule = Returns result
    ∧ isValid result = true ∧ errors result = [].
Proof.
  intros Hsize Hfit. rewrite handleClearGrid_returns by lia.
  destruct (cleared_spec gridSize Hsize) as (Hlen & Hcells & Hcount).
  destruct (validateShape_connected
              (js_set (blank gridSize) (index gridSize (centre gridSize))
                 (JBool true)) gridSize rule)
    as (result & Hrun & Hvalid & Herr & _).
  { lia. }
  { apply single_voxel_connected.
    by rewrite <- (occupiedCount_positions _ gridSize Hlen). }
  eexists. exists result. split; [done|].
  unfold App.voxelCount. cbn [App.voxelData App.voxelMode App.shapeMetadata].
  split_and!; try done. by apply centre_inGrid.
Qed.

Lemma handleClearGrid_centre_witness :
  ∃ st1 result,
    App.handleClearGrid App.gridSize
      {| App.voxelData := []; App.voxelMode := "remove";
         App.statusMessage := "";
         App.shapeMetadata := {| difficulty := JNull; maxMoves := JNull |} |}
    = Returns st1
    ∧ App.voxelCount st1 = 1%nat
    ∧ validateShape (Some (App.voxelData st1)) App.gridSize (JStr "face")
      = Returns result
    ∧ isValid result = true.
Proof.
  destruct (handleClearGrid_centre App.gridSize
              {| App.voxelData := []; App.voxelMode := "remove";
                 App.statusMessage := "";
                 App.shapeMetadata := {| difficulty := JNull;
                                         maxMoves := JNull |} |}
              (JStr "face"))
    as (st1 & result & Hrun & _ & _ & _ & Hcount & _ & _ & Hvalid & Hok & _).
  - unfold App.gridSize. lia.
  - unfold App.gridSize, MAX_ARRAY_LENGTH. lia.
  - by exists st1, result.
Defined.

(** *** Adding and removing a voxel *)

(** Whatever cell is named, a shape that has a voxel keeps one. *)
Lemma handleVoxelAction_keeps_a_voxel (gridSize x y z : Z)
    (st : App.app_state) :
  (1 <= App.voxelCount st)%nat →
  (1 <= App.voxelCount (App.handleVoxelAction gridSize x y z st))%nat.
Proof.
  intros Hsome. unfold App.handleVoxelAction, App.voxelCount in *.
  fold (occupiedCount (App.voxelData st)) in *.
  destruct (String.eqb (App.voxelMode st) "add").
  { cbn [App.voxelData].
    pose proof (occupiedCount_js_set (App.voxelData st)
                  (App.getVoxelIndex gridSize x y z) (JBool true)) as Hcount.
    fold (occupiedCount (js_set (App.voxelData st)
                           (App.getVoxelIndex gridSize x y z) (JBool true))).
    destruct (_ <? 0), (truthy (js_get _ _)); simpl in Hcount; lia. }
  destruct (String.eqb (App.voxelMode st) "remove"); [|done].
  destruct (Nat.leb_spec (occupiedCount (App.voxelData st)) 1); [done|].
  cbn [App.voxelData].
  pose proof (occupiedCount_js_set (App.voxelData st)
                (App.getVoxelIndex gridSize x y z) (JBool false)) as Hcount.
  fold (occupiedCount (js_set (App.voxelData st)
                         (App.getVoxelIndex gridSize x y z) (JBool false))).
  destruct (_ <? 0), (truthy (js_get _ _)); simpl in Hcount; lia.
Qed.

Lemma handleVoxelAction_length (gridSize x y z : Z) (st : App.app_state) :
  inGrid gridSize (Pos x y z) →
  Z.of_nat (length (App.voxelData st)) = gridSize * gridSize * gridSize →
  length (App.voxelData (App.handleVoxelAction gridSize x y z st))
  = length (App.voxelData st).
Proof.
  intros Hp%index_range Hlen. unfold App.handleVoxelAction.
  change (App.getVoxelIndex gridSize x y z) with (index gridSize (Pos x y z)).
  repeat case_match; cbn [App.voxelData]; try done;
    apply js_set_length; by rewrite Hlen.
Qed.

Lemma handleVoxelAction_booleans (gridSize x y z : Z) (st : App.app_state) :
  inGrid gridSize (Pos x y z) →
  Z.of_nat (length (App.voxelData st)) = gridSize * gridSize * gridSize →
  Forall is_boolean (App.voxelData st) →
  Forall is_boolean (App.voxelData (App.handleVoxelAction gridSize x y z st)).
Proof.
  intros Hp%index_range Hlen Hbool. unfold App.handleVoxelAction.
  change (App.getVoxelIndex gridSize x y z) with (index gridSize (Pos x y z)).
  repeat case_match; cbn [App.voxelData]; try done;
    (rewrite js_set_in_range by (by rewrite Hlen));
    (apply Forall_insert; [done|by eexists]).
Qed.

(** X21: a click on a cell of the grid, on an array of size^3 cells, keeps
    the length of the array, the mode, the metadata and every other cell; in
    add mode the cell becomes [true] and the voxel count grows by one if the
    cell was empty; in remove mode with at most one voxel the array stays as
    it is and the status says that the last voxel cannot be removed; in
    remove mode with two or more voxels the cell becomes [false] and the
    count drops by one if the cell was occupied. *)
Theorem handleVoxelAction_cell (gridSize x y z : Z) (st : App.app_state) :
  inGrid gridSize (Pos x y z) →
  Z.of_nat (length (App.voxelData st)) = gridSize * gridSize * gridSize →
  let st1 := App.handleVoxelAction gridSize x y z st in
  let cell := index gridSize (Pos x y z) in
  let was := truthy (js_get (App.voxelData st) cell) in
  length (App.voxelData st1) = length (App.voxelData st)
  ∧ App.voxelMode st1 = App.voxelMode st
  ∧ App.shapeMetadata st1 = App.shapeMetadata st
  ∧ (∀ q, inGrid gridSize q → q ≠ Pos x y z →
       js_get (App.voxelData st1) (index gridSize q)
       = js_get (App.voxelData st) (index gridSize q))
  ∧ (App.voxelMode st = "add" →
     js_get (App.voxelData st1) cell = JBool true
     ∧ App.voxelCount st1
       = (App.voxelCount st + Nat.b2n (negb was))%nat)
  ∧ (App.voxelMode st = "remove" → (App.voxelCount st <= 1)%nat →
     App.voxelData st1 = App.voxelData st
     ∧ App.statusMessage st1
       = "Cannot remove last voxel - shape must have at least one voxel")
  ∧ (App.voxelMode st = "remove" → (2 <= App.voxelCount st)%nat →
     js_get (App.voxelData st1) cell = JBool false
     ∧ App.voxelCount st1 = (App.voxelCount st - Nat.b2n was)%nat).
Proof.
  intros Hp Hlen st1 cell was.
  pose proof (index_range gridSize _ Hp) as Hrange. fold cell in Hrange.
  assert (0 <= cell < Z.of_nat (length (App.voxelData st))) as Hcell
    by by rewrite Hlen.
  assert (∀ v q, inGrid gridSize q → q ≠ Pos x y z →
            js_get (js_set (App.voxelData st) cell v) (index gridSize q)
            = js_get (App.voxelData st) (index gridSize q)) as Hother.
  { intros v q Hq Hne. apply js_get_set_ne; [done|].
    intros Hidx. apply Hne. symmetry. by apply (index_inj gridSize). }
  assert (∀ v, (occupiedCount (js_set (App.voxelData st) cell v)
                + Nat.b2n was
                = occupiedCount (App.voxelData st) + Nat.b2n (truthy v))%nat)
    as Hcount.
  { intros v. pose proof (occupiedCount_js_set (App.voxelData st) cell v) as H.
    by destruct (Z.ltb_spec cell 0); [lia|]. }
  split; [by apply handleVoxelAction_length|].
  subst st1. unfold App.handleVoxelAction, App.voxelCount.
  change (App.getVoxelIndex gridSize x y z) with cell.
  fold (occupiedCount (App.voxelData st)).
  destruct (String.eqb_spec (App.voxelMode st) "add") as [Hadd|Hadd].
  { cbn [App.voxelData App.voxelMode App.shapeMetadata App.statusMessage].
    split_and!; try done.
    - apply Hother.
    - intros _. split; [by apply js_get_set_eq|].
      specialize (Hcount (JBool true)). unfold occupiedCount in *.
      destruct was; simpl in *; lia.
    - intros Hrem. rewrite Hadd in Hrem. done.
    - intros Hrem. rewrite Hadd in Hrem. done. }
  destruct (String.eqb_spec (App.voxelMode st) "remove") as [Hrem|Hrem];
    [|by split_and!].
  destruct (Nat.leb_spec (occupiedCount (App.voxelData st)) 1) as [Hle|Hgt].
  { cbn [App.voxelData App.voxelMode App.shapeMetadata App.statusMessage].
    split_and!; try done. intros _ ?. lia. }
  cbn [App.voxelData App.voxelMode App.shapeMetadata App.statusMessage].
  split_and!; try done.
  - apply Hother.
  - intros _ ?. lia.
  - intros _ _. split; [by apply js_get_set_eq|].
    specialize (Hcount (JBool false)). unfold occupiedCount in *.
    destruct was; simpl in *; lia.
Qed.

Lemma handleVoxelAction_cell_witness :
  App.voxelCount
    (App.handleVoxelAction 2 1 1 1
       {| App.voxelData := lineGrid; App.voxelMode := "add";
          App.statusMessage := "";
          App.shapeMetadata := {| difficulty := JNull; maxMoves := JNull |} |})
  = 3%nat.
Proof.
  refine (proj2 (proj1 (proj2 (proj2 (proj2 (proj2
    (handleVoxelAction_cell 2 1 1 1
       {| App.voxelData := lineGrid; App.voxelMode := "add";
          App.statusMessage := "";
          App.shapeMetadata := {| difficulty := JNull; maxMoves := JNull |} |}
       _ _))))) _)).
  - unfold inGrid. cbn. lia.
  - reflexivity.
  - reflexivity.
Defined.

(** *** What every state of the editor satisfies *)

Lemma filled_invariant (gridSize : Z) (mode status : string)
    (meta : shape_metadata) :
  1 <= gridSize → mode = "add" ∨ mode = "remove" →
  editorInvariant gridSize
    {| App.voxelData := filled gridSize; App.voxelMode := mode;
       App.statusMessage := status; App.shapeMetadata := meta |}.
Proof.
  intros Hsize Hmode. unfold editorInvariant, App.voxelCount.
  cbn [App.voxelData App.voxelMode]. split_and!; [| | |done].
  - apply filled_length. lia.
  - unfold filled. apply Forall_replicate. by eexists.
  - fold (occupiedCount (filled gridSize)). unfold filled.
    rewrite occupiedCount_replicate. nia.
Qed.

Lemma dispatch_invariant (gridSize : Z) (st : App.app_state) (e : App.event) :
  1 <= gridSize → gridSize * gridSize * gridSize <= MAX_ARRAY_LENGTH →
  editorInvariant gridSize st → inGridEvent gridSize e →
  ∃ st1, App.dispatch gridSize st e = Returns st1
         ∧ editorInvariant gridSize st1.
Proof.
  intros Hsize Hfit (Hlen & Hbool & Hcount & Hmode) He.
  destruct e as [| |x y z|m|].
  - cbn [App.dispatch]. unfold App.handleFillCube.
    rewrite initializeFilledCube_filled by lia. cbn [mbind outcome_bind].
    eexists. split; [done|]. by apply filled_invariant.
  - cbn [App.dispatch]. rewrite handleClearGrid_returns by lia.
    destruct (cleared_spec gridSize Hsize) as (Hlen1 & _ & Hcount1).
    eexists. split; [done|]. unfold editorInvariant, App.voxelCount.
    cbn [App.voxelData App.voxelMode]. split_and!; [done| | |done].
    + rewrite js_set_in_range.
      * apply Forall_insert; [|by eexists]. unfold blank.
        apply Forall_replicate. by eexists.
      * rewrite blank_length by lia.
        by apply index_range, centre_inGrid.
    + fold (occupiedCount (js_set (blank gridSize)
                             (index gridSize (centre gridSize)) (JBool true))).
      lia.
  - cbn [App.dispatch]. eexists. split; [done|]. split_and!.
    + by rewrite handleVoxelAction_length.
    + by apply handleVoxelAction_booleans.
    + by apply handleVoxelAction_keeps_a_voxel.
    + unfold App.handleVoxelAction. by repeat case_match.
  - cbn [App.dispatch]. eexists. by split.
  - cbn [App.dispatch]. eexists. split; [done|]. split_and!; [done..|].
    unfold App.handleModeToggle. cbn [App.voxelMode]. case_match; auto.
Qed.

(** X22: for a grid size of at least 1 whose cube is an array length (the
    editor's size 7 is one) the first state of the editor has
    size^3 boolean cells, at least one voxel and the mode 'add'; and from
    every state with size^3 boolean cells, at least one voxel and the mode
    'add' or 'remove', every sequence of fill, clear, mode, metadata and
    in-grid click requests is handled without an error and ends in such a
    state again. *)
Theorem editor_keeps_a_voxel (gridSize : Z) :
  1 <= gridSize → gridSize * gridSize * gridSize <= MAX_ARRAY_LENGTH →
  (∃ st0, App.initialState gridSize = Returns st0
          ∧ editorInvariant gridSize st0)
  ∧ ∀ st events,
      editorInvariant gridSize st → Forall (inGridEvent gridSize) events →
      ∃ st1,
        App.run gridSize st events = Returns st1
        ∧ Z.of_nat (length (App.voxelData st1))
          = gridSize * gridSize * gridSize
        ∧ Forall is_boolean (App.voxelData st1)
        ∧ (1 <= App.voxelCount st1)%nat
        ∧ (App.voxelMode st1 = "add" ∨ App.voxelMode st1 = "remove").
Proof.
  intros Hsize Hfit. split.
  - unfold App.initialState. rewrite initializeFilledCube_filled by lia.
    cbn [mbind outcome_bind]. eexists. split; [done|].
    apply filled_invariant; [done|by left].
  - intros st events Hinv Hall. revert st Hinv.
    induction Hall as [|e events He _ IH]; intros st Hinv.
    { by exists st. }
    destruct (dispatch_invariant gridSize st e Hsize Hfit Hinv He)
      as (st1 & Hstep & Hinv1).
    cbn [App.run]. rewrite Hstep. cbn [mbind outcome_bind]. by apply IH.
Qed.

Lemma editor_keeps_a_voxel_witness :
  ∃ st0, App.initialState App.gridSize = Returns st0
         ∧ editorInvariant App.gridSize st0.
Proof.
  apply (editor_keeps_a_voxel App.gridSize).
  - unfold App.gridSize. lia.
  - unfold App.gridSize, MAX_ARRAY_LENGTH. lia.
Defined.

(** * The viewport and the editor *)

(** ** The cell a click adds *)

Lemma Math_round_comp (q r : Q) : (q == r)%Q → Math_round q = Math_round r.
Proof.
  intros Heq. unfold Math_round. apply Qfloor_comp. by rewrite Heq.
Qed.

Lemma Math_round_integer (k : Z) : Math_round (inject_Z k) = k.
Proof.
  apply Math_round_unique.
  - lra.
  - rewrite inject_Z_plus. change (inject_Z 1) with 1%Q. lra.
Qed.

(** Exact addition is one such addition. *)
Lemma Qplus_double_add_exact : double_add_exact Qplus.
Proof. intros a b _ _ _. by rewrite inject_Z_plus. Qed.

Lemma Math_round_step (double_add : Q → Q → Q) (p d : Z) :
  double_add_exact double_add →
  Z.abs p < MAX_SAFE_INTEGER → Z.abs d <= 1 →
  Math_round (double_add (inject_Z p) (inject_Z d)) = p + d.
Proof.
  intros Hexact Hp Hd.
  rewrite (Math_round_comp _ (inject_Z (p + d))).
  - apply Math_round_integer.
  - apply Hexact; unfold MAX_SAFE_INTEGER in *; lia.
Qed.

(** X23: for a hit with a face whose normal has the integer components
    (dx, dy, dz), none above 1 in magnitude (as the normals of a box are),
    on a voxel whose coordinates are below 2^53 - 1 in magnitude, and for
    an addition of doubles that does not round such integers,
    [calculateAdjacentPosition] returns the hit voxel's position moved by
    (dx, dy, dz) when this lies in the grid, and [null] (here [None]) when
    it does not; for a step of one cell along one axis the returned
    position lies in the grid, is a face neighbour of the hit voxel, and
    has the hit voxel among its neighbours under every rule; and a hit
    without a face gives [null]. *)
Theorem calculateAdjacentPosition_neighbour (double_add : Q → Q → Q)
    (p0 p1 p2 dx dy dz gridSize : Z) :
  double_add_exact double_add →
  Z.abs p0 < MAX_SAFE_INTEGER → Z.abs p1 < MAX_SAFE_INTEGER →
  Z.abs p2 < MAX_SAFE_INTEGER →
  Z.abs dx <= 1 → Z.abs dy <= 1 → Z.abs dz <= 1 →
  let hit := {| SimpleVoxelViewport.face :=
                  Some (inject_Z dx, inject_Z dy, inject_Z dz);
                SimpleVoxelViewport.position := (p0, p1, p2) |} in
  let target := Pos (p0 + dx) (p1 + dy) (p2 + dz) in
  (inGrid gridSize target →
   SimpleVoxelViewport.calculateAdjacentPosition double_add hit gridSize
   = Some target)
  ∧ (¬ inGrid gridSize target →
     SimpleVoxelViewport.calculateAdjacentPosition double_add hit gridSize
     = None)
  ∧ (Z.abs dx + Z.abs dy + Z.abs dz = 1 →
     ∀ adjacentPos,
       SimpleVoxelViewport.calculateAdjacentPosition double_add hit gridSize
       = Some adjacentPos →
       inGrid gridSize adjacentPos
       ∧ adjacentPos ∈ faceNbrs (Pos p0 p1 p2)
       ∧ ∀ rule, (p0, p1, p2) ∈ getNeighbors (px adjacentPos)
                   (py adjacentPos) (pz adjacentPos) rule)
  ∧ SimpleVoxelViewport.calculateAdjacentPosition double_add
      {| SimpleVoxelViewport.face := None;
         SimpleVoxelViewport.position := (p0, p1, p2) |} gridSize
    = None.
Proof.
  intros Hexact Hp0 Hp1 Hp2 Hx Hy Hz hit target.
  assert (SimpleVoxelViewport.calculateAdjacentPosition double_add hit
            gridSize
          = if isValidPosition (px target) (py target) (pz target) gridSize
            then Some target else None) as Hrun.
  { unfold SimpleVoxelViewport.calculateAdjacentPosition, hit. simpl.
    by rewrite !Math_round_step. }
  rewrite Hrun. split_and!; [| | |done].
  - intros Hin%isValidPosition_inGrid. by rewrite Hin.
  - intros Hout. case_match eqn:Hin; [|done].
    by apply isValidPosition_inGrid in Hin.
  - intros Hunit adjacentPos. case_match eqn:Hin; [|done]. intros [= <-].
    apply isValidPosition_inGrid in Hin.
    assert (adjacent 1 (Pos p0 p1 p2) target) as Hadj.
    { unfold adjacent, target. cbn [px py pz]. lia. }
    split_and!; [done|by apply elem_of_faceNbrs|].
    intros rule. apply getNeighbors_elem.
    apply adjacent_sym, (adjacent_mono 1); [apply ruleSpan_range|done].
Qed.

Lemma calculateAdjacentPosition_neighbour_witness :
  SimpleVoxelViewport.calculateAdjacentPosition Qplus
    {| SimpleVoxelViewport.face := Some (inject_Z 0, inject_Z 1, inject_Z 0);
       SimpleVoxelViewport.position := (3, 3, 3) |} 7
  = Some (Pos 3 4 3).
Proof.
  refine (proj1 (calculateAdjacentPosition_neighbour Qplus 3 3 3 0 1 0 7
                   Qplus_double_add_exact _ _ _ _ _ _) _);
    first [by (unfold MAX_SAFE_INTEGER; simpl; lia)
          | (unfold inGrid; cbn; lia)].
Defined.

(** ** Adding next to a voxel *)

Lemma reach_more (voxelData voxelData1 : list jsval) (gridSize : Z)
    (nbrs : pos → list pos) (seed p : pos) :
  (∀ q, occupied voxelData gridSize q → occupied voxelData1 gridSize q) →
  reach voxelData gridSize nbrs seed p → reach voxelData1 gridSize nbrs seed p.
Proof.
  intros Hmore. induction 1 as [|p n _ IH Hn Hocc]; [constructor|].
  apply (reach_step _ _ _ _ p); [done|done|by apply Hmore].
Qed.

Lemma occupied_js_set_true (voxelData : list jsval) (gridSize : Z) (new q : pos) :
  inGrid gridSize new →
  Z.of_nat (length voxelData) = gridSize * gridSize * gridSize →
  occupied (js_set voxelData (index gridSize new) (JBool true)) gridSize q
  ↔ occupied voxelData gridSize q ∨ (q = new).
Proof.
  intros Hnew Hlen.
  assert (0 <= index gridSize new < Z.of_nat (length voxelData)) as Hrange.
  { rewrite Hlen. by apply index_range. }
  unfold occupied. destruct (decide (q = new)) as [->|Hne].
  - rewrite js_get_set_eq by done. simpl. tauto.
  - split.
    + intros [Hq Ht]. left. split; [done|].
      rewrite js_get_set_ne in Ht; [done|done|].
      intros Heq. apply Hne. symmetry. by apply (index_inj gridSize).
    + intros [[Hq Ht]|?]; [|done]. split; [done|].
      rewrite js_get_set_ne; [done|done|].
      intros Heq. apply Hne. symmetry. by apply (index_inj gridSize).
Qed.

Lemma add_neighbour_connected (voxelData : list jsval) (gridSize : Z)
    (rule : jsval) (new : pos) :
  inGrid gridSize new →
  Z.of_nat (length voxelData) = gridSize * gridSize * gridSize →
  isShapeConnected (Some voxelData) gridSize rule = Returns true →
  (occupied voxelData gridSize new
   ∨ ∃ p, occupied voxelData gridSize p ∧ new ∈ ruleNbrs (defaultFace rule) p) →
  isShapeConnected
    (Some (js_set voxelData (index gridSize new) (JBool true))) gridSize rule
  = Returns true.
Proof.
  intros Hnew Hlen Hconn Hnext.
  set (voxelData1 := js_set voxelData (index gridSize new) (JBool true)).
  destruct (isShapeConnected_spec voxelData gridSize rule) as (b & Hrun & Hb).
  rewrite Hconn in Hrun. injection Hrun as <-.
  apply proj1 in Hb. specialize (Hb eq_refl).
  apply (connected_from_first _ _ _ (ruleNbrs_sym (defaultFace rule))) in Hb
    as [(p0 & Hp0) Hall].
  destruct (isShapeConnected_spec voxelData1 gridSize rule) as (b1 & -> & Hb1).
  f_equal. apply Hb1.
  apply (connected_from_first _ _ _ (ruleNbrs_sym (defaultFace rule))).
  assert (∀ q, occupied voxelData gridSize q → occupied voxelData1 gridSize q)
    as Hmore.
  { intros q Hq. apply occupied_js_set_true; auto. }
  assert (occupied voxelData1 gridSize new) as Hnew1.
  { apply occupied_js_set_true; auto. }
  split; [by exists new|].
  assert (∀ q, occupied voxelData1 gridSize q →
            reach voxelData1 gridSize (ruleNbrs (defaultFace rule)) p0 q)
    as Hfrom.
  { intros q Hq. apply occupied_js_set_true in Hq as [Hq| ->]; [| |done..].
    { apply (reach_more voxelData); [done|]. by apply Hall. }
    destruct Hnext as [Hold|(p & Hp & Hadj)].
    - apply (reach_more voxelData); [done|]. by apply Hall.
    - apply (reach_step _ _ _ _ p); [|done|done].
      apply (reach_more voxelData); [done|]. by apply Hall. }
  intros p q Hp Hq.
  apply (reach_trans _ _ _ p p0 q); [|by apply Hfrom].
  apply reach_sym; [apply ruleNbrs_sym|by apply Hmore|by apply Hfrom].
Qed.

Lemma occupiedCount_pos (voxelData : list jsval) (i : Z) :
  truthy (js_get voxelData i) = true → (1 <= occupiedCount voxelData)%nat.
Proof.
  unfold js_get. case_match; [done|].
  destruct (voxelData !! Z.to_nat i) as [v|] eqn:Hv; [|done]. simpl.
  intros Htruthy. unfold occupiedCount.
  assert (v ∈ filter (λ v, truthy v) voxelData) as Hin.
  { apply list_elem_of_filter. split; [by rewrite Htruthy|].
    by eapply list_elem_of_lookup_2. }
  destruct (filter _ voxelData); [by apply elem_of_nil in Hin|simpl; lia].
Qed.

(** X24: in add mode, on an array of size^3 cells that [isShapeConnected]
    accepts under a rule, a click on a cell of the grid that is occupied
    already or is a neighbour, under that rule, of an occupied cell leaves a
    shape that [validateShape] accepts under that rule, with no error. *)
Theorem handleVoxelAction_add_keeps_connected (gridSize x y z : Z)
    (st : App.app_state) (rule : jsval) :
  inGrid gridSize (Pos x y z) →
  Z.of_nat (length (App.voxelData st)) = gridSize * gridSize * gridSize →
  App.voxelMode st = "add" →
  isShapeConnected (Some (App.voxelData st)) gridSize rule = Returns true →
  (occupied (App.voxelData st) gridSize (Pos x y z)
   ∨ ∃ nx ny nz,
       occupied (App.voxelData st) gridSize (Pos nx ny nz)
       ∧ (x, y, z) ∈ getNeighbors nx ny nz (defaultFace rule)) →
  ∃ result,
    validateShape
      (Some (App.voxelData (App.handleVoxelAction gridSize x y z st)))
      gridSize rule = Returns result
    ∧ isConnected result = true ∧ isValid result = true
    ∧ errors result = [].
Proof.
  intros Hp Hlen Hadd Hconn Hnext.
  assert (App.voxelData (App.handleVoxelAction gridSize x y z st)
          = js_set (App.voxelData st) (index gridSize (Pos x y z))
              (JBool true)) as ->.
  { unfold App.handleVoxelAction. by rewrite Hadd. }
  destruct (validateShape_connected
              (js_set (App.voxelData st) (index gridSize (Pos x y z))
                 (JBool true)) gridSize rule)
    as (result & Hrun & Hvalid & Herr & _ & Hc & _).
  - apply (occupiedCount_pos _ (index gridSize (Pos x y z))).
    rewrite js_get_set_eq; [done|]. rewrite Hlen. by apply index_range.
  - apply add_neighbour_connected; [done..|].
    destruct Hnext as [?|(nx & ny & nz & Hocc & Hin)]; [by left|right].
    exists (Pos nx ny nz). split; [done|].
    unfold ruleNbrs. cbn [px py pz]. apply list_elem_of_fmap.
    by exists (x, y, z).
  - by exists result.
Qed.

Lemma handleVoxelAction_add_keeps_connected_witness :
  ∃ result,
    validateShape
      (Some (App.voxelData
               (App.handleVoxelAction 2 0 1 0
                  {| App.voxelData := lineGrid; App.voxelMode := "add";
                     App.statusMessage := "";
                     App.shapeMetadata :=
                       {| difficulty := JNull; maxMoves := JNull |} |})))
      2 (JStr "face") = Returns result
    ∧ isConnected result = true ∧ isValid result = true
    ∧ errors result = [].
Proof.
  apply (handleVoxelAction_add_keeps_connected 2 0 1 0
           {| App.voxelData := lineGrid; App.voxelMode := "add";
              App.statusMessage := "";
              App.shapeMetadata :=
                {| difficulty := JNull; maxMoves := JNull |} |}
           (JStr "face")).
  - unfold inGrid. cbn. lia.
  - reflexivity.
  - reflexivity.
  - vm_compute. reflexivity.
  - right. exists 0, 0, 0. split.
    + split; [unfold inGrid; cbn; lia|reflexivity].
    + cbn. set_solver.
Defined.

(** Adding away from the shape, or removing a voxel in its middle, leaves a
    shape that is not connected: the editor checks connectivity when the
    shape is saved, not when it is edited. *)
Example handleVoxelAction_can_disconnect :
  isShapeConnected
    (Some (App.voxelData
             (App.handleVoxelAction 2 1 1 1
                {| App.voxelData := lineGrid; App.voxelMode := "add";
                   App.statusMessage := "";
                   App.shapeMetadata :=
                     {| difficulty := JNull; maxMoves := JNull |} |})))
    2 (JStr "face")
  = Returns false.
Proof. vm_compute. reflexivity. Qed.
